(** * racunis: a database-backed priority job queue

    A shallow embedding of the core of the racunis packages
    ([@racunis/core], [@racunis/postgresql], [@racunis/mysql]) and the
    properties of its dequeue order, lease protocol, retry utility,
    worker step and queue registry.

    Conventions of the embedding.
    - JavaScript numbers that the program uses as integers (job ids,
      priorities, [Date.getTime()] milliseconds, retry counters) are [Z].
    - An [async] method is a state transformer that either returns a value
      or throws: the monad [M] below.  Awaiting is sequencing; the
      interleaving of several workers is outside the embedding.
    - Static fields and database tables are explicit state.  Calls into
      the SQL drivers resolve, except where the server refuses a number
      outside an INTEGER column or a key that is taken; a processor acts
      on its own environment and not on the queue's store.
    - Queues and workers are emitters of [node:events]: the events
      emitted are kept in a trace, listeners are taken to return, and an
      ['error'] event emitted without a listener throws. *)

From Stdlib Require Import ZArith Ascii String List Lia Bool Permutation Sorted.
From stdpp Require Import gmap strings pretty.
From Equations Require Import Equations.

Open Scope Z_scope.

(* ===================================================================== *)
(** * types.ts                                                            *)
(* ===================================================================== *)

(** [JobState]: the four string constants of the source. *)
Inductive JobState : Set := waiting | active | completed | failed.

#[global] Instance JobState_eq_dec : EqDecision JobState.
Proof. solve_decision. Defined.

Definition JobState_eqb (s t : JobState) : bool := bool_decide (s = t).

Definition JobState_to_string (s : JobState) : string :=
  match s with
  | waiting => "waiting"
  | active => "active"
  | completed => "completed"
  | failed => "failed"
  end.

(** The values the [errorMessage] field takes at run time.  The interface
    declares [errorMessage?: string]; the rows the SQL drivers hand back
    are typed [{ errorMessage: string | null }]. *)
Inductive JsText : Set :=
| undefined
| null
| text (s : string).

(** [Job<TPayload>].  [createdAt] and [updatedAt] are [Date]s, kept as
    their [getTime()] value. *)
Record Job (TPayload : Type) : Type := mkJob {
  id : Z;
  payload : TPayload;
  state : JobState;
  priority : Z;
  errorMessage : JsText;
  createdAt : Z;
  updatedAt : Z
}.
Arguments mkJob {TPayload}.
Arguments id {TPayload}.
Arguments payload {TPayload}.
Arguments state {TPayload}.
Arguments priority {TPayload}.
Arguments errorMessage {TPayload}.
Arguments createdAt {TPayload}.
Arguments updatedAt {TPayload}.

(* ===================================================================== *)
(** * test-utils/compareJobs.ts                                           *)
(* ===================================================================== *)

Definition compareJobs {TPayload} (a b : Job TPayload) : Z :=
  if negb (priority a =? priority b) then priority b - priority a
  else if negb (createdAt a =? createdAt b) then createdAt a - createdAt b
  else id a - id b.

(** [Array.prototype.sort(compare)]: the language specifies a stable sort
    that orders [y] before [x] when [compare x y > 0].  Modelled as the
    stable insertion sort: [x], which stood before the elements of [l],
    moves right only past elements [y] with [compare x y > 0], so that
    elements that compare equal keep the order they had. *)
Section ArraySort.
Context {A : Type} (compare : A -> A -> Z).

Fixpoint sort_insert (x : A) (l : list A) : list A :=
  match l with
  | [] => [x]
  | y :: l' => if compare x y <=? 0 then x :: y :: l' else y :: sort_insert x l'
  end.

Definition Array_sort (l : list A) : list A := fold_right sort_insert [] l.

(** [a] may stand before [b] in a sorted array. *)
Definition before_or_equal (a b : A) : Prop := compare a b <= 0.
End ArraySort.

(* ===================================================================== *)
(** * Errors and thrown values                                            *)
(* ===================================================================== *)

(** The error classes of the program, with the built-in ones it meets. *)
Inductive ErrorClass : Set :=
| Error_
| TypeError_
| JobNotFoundError_
| AcquirableJobNotFoundError_
| MaxRetriesError_.

#[global] Instance ErrorClass_eq_dec : EqDecision ErrorClass.
Proof. solve_decision. Defined.

(** The prototype chain of each class, from its [extends] clauses. *)
Definition prototype_chain (c : ErrorClass) : list ErrorClass :=
  match c with
  | Error_ => [Error_]
  | TypeError_ => [TypeError_; Error_]
  | JobNotFoundError_ => [JobNotFoundError_; Error_]
  | AcquirableJobNotFoundError_ =>
      [AcquirableJobNotFoundError_; JobNotFoundError_; Error_]
  | MaxRetriesError_ => [MaxRetriesError_; Error_]
  end.

Record Error : Set := mkError {
  class : ErrorClass;
  message : string
}.

(** [e instanceof c]. *)
Definition instanceof (e : Error) (c : ErrorClass) : bool :=
  existsb (fun d => bool_decide (d = c)) (prototype_chain (class e)).

(** Values that are not [Error] objects but can be thrown all the same.
    Numbers are the integers, and [pretty] prints them in decimal as
    [String(n)], a template literal and [JSON.stringify] do for every
    integer below 10^21 in magnitude (beyond that they switch to the
    exponent notation, which is not modelled). *)
Inductive JsValue : Set :=
| VUndefined
| VNull
| VString (s : string)
| VNumber (n : Z)
| VObject.

(** [String(v)]. *)
Definition String_ (v : JsValue) : string :=
  match v with
  | VUndefined => "undefined"
  | VNull => "null"
  | VString s => s
  | VNumber n => pretty n
  | VObject => "[object Object]"
  end.

Inductive Thrown : Set :=
| ThrownError (e : Error)
| ThrownValue (v : JsValue).

(** utils/normalizeError.ts *)
Definition normalizeError (error : Thrown) : Error :=
  match error with
  | ThrownError e => e
  | ThrownValue v => mkError Error_ (String_ v)
  end.

(** The partial job a [JobNotFoundError] is built from: [{ id }] or
    [{ state }], and its [JSON.stringify]. *)
Inductive JobDetails : Set :=
| DetailsId (i : Z)
| DetailsState (s : JobState).

Definition dquote : string := String "034"%char EmptyString.

Definition JSON_stringify_details (d : JobDetails) : string :=
  match d with
  | DetailsId i => "{" +:+ dquote +:+ "id" +:+ dquote +:+ ":" +:+ pretty i +:+ "}"
  | DetailsState s =>
      "{" +:+ dquote +:+ "state" +:+ dquote +:+ ":"
          +:+ dquote +:+ JobState_to_string s +:+ dquote +:+ "}"
  end.

(** AbstractDatabasePoolClient.ts: [new JobNotFoundError(details)]. *)
Definition JobNotFoundError (details : JobDetails) : Error :=
  mkError JobNotFoundError_
    ("Couldn't find any job with details: " +:+ JSON_stringify_details details).

(** [new AcquirableJobNotFoundError()]: [super({ state: JobState.waiting })]. *)
Definition AcquirableJobNotFoundError : Error :=
  mkError AcquirableJobNotFoundError_
    (message (JobNotFoundError (DetailsState waiting))).

(** utils/retry.ts: [new MaxRetriesError(retries, error)]. *)
Definition MaxRetriesError (retries : Z) (error : Error) : Error :=
  mkError MaxRetriesError_
    ("Function failed after " +:+ pretty retries +:+ " retries: " +:+ message error).

(* ===================================================================== *)
(** * Effects: state passing with exceptions                              *)
(* ===================================================================== *)

Inductive Completion (A : Type) : Type :=
| Return (a : A)
| Throw (t : Thrown).
Arguments Return {A}.
Arguments Throw {A}.

Definition M (St A : Type) : Type := St -> Completion A * St.

Definition ret {St A} (a : A) : M St A := fun s => (Return a, s).

Definition throw {St A} (t : Thrown) : M St A := fun s => (Throw t, s).

Definition bind {St A B} (c : M St A) (k : A -> M St B) : M St B :=
  fun s =>
    match c s with
    | (Return a, s') => k a s'
    | (Throw t, s') => (Throw t, s')
    end.

(** [try { body } catch (error) { handler }]. *)
Definition try_catch {St A} (body : M St A) (handler : Thrown -> M St A) : M St A :=
  fun s =>
    match body s with
    | (Return a, s') => (Return a, s')
    | (Throw t, s') => handler t s'
    end.

(** [try { body } finally { cleanup }], for a cleanup that does not throw. *)
Definition try_finally {St A} (body : M St A) (cleanup : St -> St) : M St A :=
  fun s => let '(r, s') := body s in (r, cleanup s').

Definition get {St} : M St St := fun s => (Return s, s).
Definition put {St} (s : St) : M St unit := fun _ => (Return tt, s).
Definition modify {St} (f : St -> St) : M St unit := fun s => (Return tt, f s).

Declare Scope js_scope.
Delimit Scope js_scope with js.
Notation "'let*' x ':=' c 'in' k" := (bind c (fun x => k))
  (at level 10, x pattern, c at level 100, k at level 200) : js_scope.
Notation "'do' c 'in' k" := (bind c (fun _ => k))
  (at level 10, c at level 100, k at level 200) : js_scope.
Open Scope js_scope.

(* ===================================================================== *)
(** * utils/retry.ts                                                      *)
(* ===================================================================== *)

Section Retry.
Context {W TResult : Type}.
(** [function_] runs in a world [W] (its closure, the clock, ...);
    [setTimeout ms] is what awaiting the timer does to that world. *)
Variable setTimeout : Z -> W -> W.
Variable function_ : M W TResult.
Variable maxRetries : Z.
Variable delayInterval : Z.

Equations? attempt (currentAttempt : Z) (w : W) : Completion TResult * W
  by wf (Z.to_nat (maxRetries - currentAttempt)) lt :=
  attempt currentAttempt w with function_ w => {
    | (Return r, w') => (Return r, w');
    | (Throw error, w') with Z_ge_lt_dec currentAttempt maxRetries => {
        | left _ =>
            (Throw (ThrownError (MaxRetriesError maxRetries (normalizeError error))), w');
        | right _ =>
            attempt (currentAttempt + 1)
                    (if 0 <? delayInterval then setTimeout delayInterval w' else w') } }.
Proof. lia. Qed.

Definition retry : M W TResult := attempt 1.
End Retry.

(* ===================================================================== *)
(** * __tests__/mocks/MockDatabasePoolClient.ts, MockDatabasePool.ts      *)
(* ===================================================================== *)

(** [array.find(p)] is [List.find]; [array.includes(x)] on numbers: *)
Definition includes (l : list Z) (x : Z) : bool := existsb (Z.eqb x) l.

(** Assignments through the reference [find] returned: the first element
    that satisfies [p] is changed where it stands. *)
Fixpoint update_first {A} (p : A -> bool) (f : A -> A) (l : list A) : list A :=
  match l with
  | [] => []
  | x :: l' => if p x then f x :: l' else x :: update_first p f l'
  end.

(** The optional [errorMessage?: string] argument as the value assigned or
    bound: a missing argument is [undefined]. *)
Definition optional_text (errorMessage : option string) : JsText :=
  match errorMessage with
  | Some s => text s
  | None => undefined
  end.

Module MockDatabasePoolClient.
Section Client.
Context {TPayload : Type}.

(** The static fields [id], [jobs] and [lockedJobsIds] of the class. *)
Record Statics : Type := mkStatics {
  static_id : Z;
  jobs : list (Job TPayload);
  lockedJobsIds : list Z
}.

Definition release (s : Statics) : Statics := s.

Definition initQueueData : M Statics unit := ret tt.
Definition beginTransaction : M Statics unit := ret tt.
Definition commitTransaction : M Statics unit := ret tt.
Definition rollbackTransaction : M Statics unit := ret tt.

(** [now] is the value of [new Date()] at the call. *)
Definition insertJob (payload_ : TPayload) (state_ : JobState) (priority_ : Z)
    (now : Z) : M Statics (Job TPayload) :=
  fun s =>
    let waitingJob := mkJob (static_id s) payload_ state_ priority_ undefined now now in
    (Return waitingJob,
     mkStatics (static_id s + 1) (jobs s ++ [waitingJob]) (lockedJobsIds s)).

Definition updateJobStateById (id_ : Z) (state_ : JobState)
    (errorMessage_ : option string) (now : Z) : M Statics (Job TPayload) :=
  fun s =>
    match List.find (fun job => id job =? id_) (jobs s) with
    | None => (Throw (ThrownError (JobNotFoundError (DetailsId id_))), s)
    | Some job =>
        let job' := mkJob (id job) (payload job) state_ (priority job)
                          (optional_text errorMessage_) (createdAt job) now in
        (Return job',
         mkStatics (static_id s)
                   (update_first (fun job => id job =? id_) (fun _ => job') (jobs s))
                   (lockedJobsIds s))
    end.

(** [MockDatabasePoolClient.jobs.sort(compareJobs)] sorts the static array
    in place and returns it. *)
Definition sort_jobs : M Statics (list (Job TPayload)) :=
  fun s =>
    let sorted := Array_sort compareJobs (jobs s) in
    (Return sorted, mkStatics (static_id s) sorted (lockedJobsIds s)).

Definition acquirable (locked : list Z) (job : Job TPayload) : bool :=
  JobState_eqb (state job) waiting && negb (includes locked (id job)).

Definition acquireJob (now : Z) : M Statics (Job TPayload) :=
  try_catch
    (do beginTransaction in
     let* sorted := sort_jobs in
     let* s := get in
     match List.find (acquirable (lockedJobsIds s)) sorted with
     | None => throw (ThrownError AcquirableJobNotFoundError)
     | Some waitingJob =>
         do modify (fun s => mkStatics (static_id s) (jobs s)
                                       (lockedJobsIds s ++ [id waitingJob])) in
         let* activeJob := updateJobStateById (id waitingJob) active None now in
         do modify (fun s => mkStatics (static_id s) (jobs s)
                      (List.filter (fun id_ => negb (id_ =? id activeJob))
                                   (lockedJobsIds s))) in
         do commitTransaction in
         ret activeJob
     end)
    (fun error => do rollbackTransaction in throw error).

Definition state_in (states : list JobState) (job : Job TPayload) : bool :=
  existsb (JobState_eqb (state job)) states.

Definition deleteJobsByState (states : list JobState) : M Statics unit :=
  modify (fun s => mkStatics (static_id s)
                     (List.filter (fun job => negb (state_in states job)) (jobs s))
                     (lockedJobsIds s)).

(** MockDatabasePool: [getClient] makes a client with no state of its
    own; [close] resets two of the statics. *)
Definition Pool_close : M Statics unit :=
  modify (fun s => mkStatics 1 [] (lockedJobsIds s)).
End Client.
Arguments Statics : clear implicits.
End MockDatabasePoolClient.

(* ===================================================================== *)
(** * The queue table and the statements sent to it                       *)
(* ===================================================================== *)

(** One connection to the database, seen through the table of one queue.
    The drivers ([pg], [mysql2]) and the servers are outside the
    repository; what follows is the meaning of the statements the clients
    send, over a table that only this connection changes. *)
Module Sql.
Section Table.
Context {TPayload : Type}.

(** [rows]: the table, whose [errorMessage] column holds [null] or
    [text]; [serial]: the next value of the [id] sequence; [snapshot]:
    the rows to restore on ROLLBACK while a transaction is open. *)
Record Connection : Type := mkConnection {
  rows : list (Job TPayload);
  serial : Z;
  snapshot : option (list (Job TPayload))
}.

(** How the drivers send the [errorMessage] parameter: a string as text,
    and [undefined] as NULL ([pg] prepares [null] and [undefined] alike
    as NULL; [query] of [mysql2] formats both as the literal NULL). *)
Definition bind_text (v : JsText) : JsText :=
  match v with
  | undefined => null
  | v => v
  end.

(** [ORDER BY priority DESC, createdAt, id] as a three-way comparison. *)
Definition order_by (a b : Job TPayload) : Z :=
  match priority b ?= priority a with
  | Lt => -1
  | Gt => 1
  | Eq =>
      match createdAt a ?= createdAt b with
      | Lt => -1
      | Gt => 1
      | Eq =>
          match id a ?= id b with
          | Lt => -1
          | Gt => 1
          | Eq => 0
          end
      end
  end.

(** [SELECT * FROM q WHERE state = $1
     ORDER BY priority DESC, createdAt, id LIMIT 1 FOR UPDATE SKIP LOCKED]:
    no other connection holds a row lock here, so none is skipped. *)
Definition select_next (state_ : JobState) (c : Connection) : list (Job TPayload) :=
  firstn 1 (Array_sort order_by
              (List.filter (fun r => JobState_eqb (state r) state_) (rows c))).

(** [SELECT * FROM q WHERE id = ?]. *)
Definition select_by_id (id_ : Z) (c : Connection) : list (Job TPayload) :=
  List.filter (fun r => id r =? id_) (rows c).

(** [UPDATE q SET state = ?, errorMessage = ? WHERE id = ?], where
    [touch old new] is the table's rule for [updatedAt]. *)
Definition update_row (touch : Job TPayload -> Job TPayload -> Z)
    (state_ : JobState) (errorMessage_ : JsText) (r : Job TPayload) : Job TPayload :=
  let r' := mkJob (id r) (payload r) state_ (priority r) (bind_text errorMessage_)
                  (createdAt r) (updatedAt r) in
  mkJob (id r) (payload r) state_ (priority r) (bind_text errorMessage_)
        (createdAt r) (touch r r').

Definition update_by_id (touch : Job TPayload -> Job TPayload -> Z)
    (state_ : JobState) (errorMessage_ : JsText) (id_ : Z) (c : Connection) : Connection :=
  mkConnection
    (map (fun r => if id r =? id_ then update_row touch state_ errorMessage_ r else r)
         (rows c))
    (serial c) (snapshot c).

(** [INSERT INTO q (payload, state, priority) VALUES (?, ?, ?)]: the
    other columns take their defaults; [id] is the primary key. *)
Definition insert_row (payload_ : TPayload) (state_ : JobState) (priority_ : Z)
    (now : Z) (c : Connection) : Job TPayload :=
  mkJob (serial c) payload_ state_ priority_ null now now.

Definition duplicate_key : Error := mkError Error_ "duplicate key value".

(** The INTEGER columns [id] and [priority] hold 32-bit signed integers.
    A number outside that range is refused by the server (PostgreSQL:
    SQLSTATE 22003; MySQL in its default strict mode: error 1264) before
    a row is written or a sequence value is taken, and the sequence of
    [id] fails once its next value is outside it. *)
Definition int4 (v : Z) : bool := (-2147483648 <=? v) && (v <=? 2147483647).

Definition numeric_value_out_of_range : Error :=
  mkError Error_ "numeric value out of range".

Definition sequence_exhausted : Error :=
  mkError Error_ "reached maximum value of sequence".

Definition insert (payload_ : TPayload) (state_ : JobState) (priority_ : Z)
    (now : Z) : M Connection (Job TPayload) :=
  fun c =>
    if negb (int4 priority_)
    then (Throw (ThrownError numeric_value_out_of_range), c)
    else if negb (int4 (serial c))
    then (Throw (ThrownError sequence_exhausted), c)
    else if existsb (fun r => id r =? serial c) (rows c)
    then (Throw (ThrownError duplicate_key),
          mkConnection (rows c) (serial c + 1) (snapshot c))
    else
      let r := insert_row payload_ state_ priority_ now c in
      (Return r, mkConnection (rows c ++ [r]) (serial c + 1) (snapshot c)).

(** [DELETE FROM q WHERE state IN (...)]. *)
Definition delete_by_state (states : list JobState) (c : Connection) : Connection :=
  mkConnection
    (List.filter (fun r => negb (existsb (JobState_eqb (state r)) states)) (rows c))
    (serial c) (snapshot c).

(** [COMMIT] and [ROLLBACK]; outside a transaction both do nothing. *)
Definition commit (c : Connection) : Connection :=
  mkConnection (rows c) (serial c) None.

Definition rollback (c : Connection) : Connection :=
  match snapshot c with
  | Some saved => mkConnection saved (serial c) None
  | None => c
  end.
End Table.
Arguments Connection : clear implicits.
End Sql.

(** [v || undefined]: [null], [undefined] and the empty string are falsy. *)
Definition truthy (v : JsText) : bool :=
  match v with
  | text s => negb (String.eqb s EmptyString)
  | _ => false
  end.

Definition or_undefined (v : JsText) : JsText := if truthy v then v else undefined.

(** [{ ...job, errorMessage: job.errorMessage || undefined }]. *)
Definition with_errorMessage {TPayload} (job : Job TPayload) : Job TPayload :=
  mkJob (id job) (payload job) (state job) (priority job)
        (or_undefined (errorMessage job)) (createdAt job) (updatedAt job).

(** Reading [job.errorMessage] when [rows[0]] is [undefined]. *)
Definition undefined_row : Error :=
  mkError TypeError_ "Cannot read properties of undefined (reading 'errorMessage')".

#[global] Instance JsText_eq_dec : EqDecision JsText.
Proof. solve_decision. Defined.

(* ===================================================================== *)
(** * packages/postgresql/src/PostgreSqlPoolClient.ts                     *)
(* ===================================================================== *)

Module PostgreSqlPoolClient.
Section Client.
Context {TPayload : Type}.
Abbreviation Connection := (Sql.Connection TPayload).

(** The trigger [update_modified_column_trigger] sets [updatedAt] to
    [NOW()] before every row update. *)
Definition touch (now : Z) (old new : Job TPayload) : Z := now.

(** [BEGIN;] inside an open transaction only warns. *)
Definition beginTransaction : M Connection unit :=
  modify (fun c =>
    match Sql.snapshot c with
    | Some _ => c
    | None => Sql.mkConnection (Sql.rows c) (Sql.serial c) (Some (Sql.rows c))
    end).
Definition commitTransaction : M Connection unit := modify Sql.commit.
Definition rollbackTransaction : M Connection unit := modify Sql.rollback.

(** [INSERT ... RETURNING *], then [const { rows: [job] } = ...]. *)
Definition insertJob (payload_ : TPayload) (state_ : JobState) (priority_ : Z)
    (now : Z) : M Connection (Job TPayload) :=
  let* job := Sql.insert payload_ state_ priority_ now in
  ret (with_errorMessage job).

(** [UPDATE ... WHERE id = $3 RETURNING *] hands back the rows it changed.
    The server reads [$3] as an INTEGER and refuses a number outside 32
    bits with error 22003 instead of comparing it.  The ids of an INTEGER
    column are all inside that range, so such a number is the id of no
    row: the refusal stands where the statement finds no row. *)
Definition updateJobStateById (id_ : Z) (state_ : JobState)
    (errorMessage_ : option string) (now : Z) : M Connection (Job TPayload) :=
  do modify (Sql.update_by_id (touch now) state_ (optional_text errorMessage_) id_) in
  let* c := get in
  match Sql.select_by_id id_ c with
  | [] => if Sql.int4 id_
          then throw (ThrownError (JobNotFoundError (DetailsId id_)))
          else throw (ThrownError Sql.numeric_value_out_of_range)
  | job :: _ => ret (with_errorMessage job)
  end.

Definition acquireJob (now : Z) : M Connection (Job TPayload) :=
  try_catch
    (do beginTransaction in
     let* c := get in
     match Sql.select_next waiting c with
     | [] => throw (ThrownError AcquirableJobNotFoundError)
     | waitingJob :: _ =>
         let* activeJob := updateJobStateById (id waitingJob) active None now in
         do commitTransaction in
         ret (with_errorMessage activeJob)
     end)
    (fun error => do rollbackTransaction in throw error).

Definition deleteJobsByState (states : list JobState) : M Connection unit :=
  modify (Sql.delete_by_state states).
End Client.
End PostgreSqlPoolClient.

(* ===================================================================== *)
(** * packages/mysql/src/MySqlPoolClient.ts                               *)
(* ===================================================================== *)

Module MySqlPoolClient.
Section Client.
Context {TPayload : Type}.
Abbreviation Connection := (Sql.Connection TPayload).

(** [updatedAt ... ON UPDATE CURRENT_TIMESTAMP(3)]: the column moves only
    when the statement changes another column of the row. *)
Definition touch (now : Z) (old new : Job TPayload) : Z :=
  if bool_decide (state old = state new)
     && bool_decide (errorMessage old = errorMessage new)
  then updatedAt old else now.

(** [START TRANSACTION;] commits an open transaction first. *)
Definition beginTransaction : M Connection unit :=
  modify (fun c => Sql.mkConnection (Sql.rows c) (Sql.serial c) (Some (Sql.rows c))).
Definition commitTransaction : M Connection unit := modify Sql.commit.
Definition rollbackTransaction : M Connection unit := modify Sql.rollback.

(** [INSERT], then [SELECT ... WHERE id = resultSetHeader.insertId] and
    [rows[0]]. *)
Definition insertJob (payload_ : TPayload) (state_ : JobState) (priority_ : Z)
    (now : Z) : M Connection (Job TPayload) :=
  let* inserted := Sql.insert payload_ state_ priority_ now in
  let* c := get in
  match Sql.select_by_id (id inserted) c with
  | [] => throw (ThrownError undefined_row)
  | job :: _ => ret (with_errorMessage job)
  end.

(** [UPDATE], then [SELECT ... WHERE id = ?]. *)
Definition updateJobStateById (id_ : Z) (state_ : JobState)
    (errorMessage_ : option string) (now : Z) : M Connection (Job TPayload) :=
  do modify (Sql.update_by_id (touch now) state_ (optional_text errorMessage_) id_) in
  let* c := get in
  match Sql.select_by_id id_ c with
  | [] => throw (ThrownError (JobNotFoundError (DetailsId id_)))
  | job :: _ => ret (with_errorMessage job)
  end.

Definition acquireJob (now : Z) : M Connection (Job TPayload) :=
  try_catch
    (do beginTransaction in
     let* c := get in
     match Sql.select_next waiting c with
     | [] => throw (ThrownError AcquirableJobNotFoundError)
     | waitingJob :: _ =>
         let* activeJob := updateJobStateById (id waitingJob) active None now in
         do commitTransaction in
         ret (with_errorMessage activeJob)
     end)
    (fun error => do rollbackTransaction in throw error).

Definition deleteJobsByState (states : list JobState) : M Connection unit :=
  modify (Sql.delete_by_state states).
End Client.
End MySqlPoolClient.

(* ===================================================================== *)
(** * AbstractDatabasePoolClient.ts: the interface the core programs to   *)
(* ===================================================================== *)

(** The abstract methods the queue and the worker call, over the state
    [Store] a client acts on. *)
Record AbstractDatabasePoolClient (TPayload Store : Type) : Type := mkClient {
  client_release : Store -> Store;
  client_insertJob : TPayload -> JobState -> Z -> Z -> M Store (Job TPayload);
  client_acquireJob : Z -> M Store (Job TPayload);
  client_updateJobStateById : Z -> JobState -> option string -> Z -> M Store (Job TPayload);
  client_deleteJobsByState : list JobState -> M Store unit
}.

Definition MockClient {TPayload} :
  AbstractDatabasePoolClient TPayload (MockDatabasePoolClient.Statics TPayload) := {|
  client_release := MockDatabasePoolClient.release;
  client_insertJob := MockDatabasePoolClient.insertJob;
  client_acquireJob := MockDatabasePoolClient.acquireJob;
  client_updateJobStateById := MockDatabasePoolClient.updateJobStateById;
  client_deleteJobsByState := MockDatabasePoolClient.deleteJobsByState
|}.

Definition PostgreSqlClient {TPayload} :
  AbstractDatabasePoolClient TPayload (Sql.Connection TPayload) := {|
  client_release := fun c => c;
  client_insertJob := PostgreSqlPoolClient.insertJob;
  client_acquireJob := PostgreSqlPoolClient.acquireJob;
  client_updateJobStateById := PostgreSqlPoolClient.updateJobStateById;
  client_deleteJobsByState := PostgreSqlPoolClient.deleteJobsByState
|}.

Definition MySqlClient {TPayload} :
  AbstractDatabasePoolClient TPayload (Sql.Connection TPayload) := {|
  client_release := fun c => c;
  client_insertJob := MySqlPoolClient.insertJob;
  client_acquireJob := MySqlPoolClient.acquireJob;
  client_updateJobStateById := MySqlPoolClient.updateJobStateById;
  client_deleteJobsByState := MySqlPoolClient.deleteJobsByState
|}.

Arguments client_release {TPayload Store} _ _.
Arguments client_insertJob {TPayload Store} _ _ _ _ _ _.
Arguments client_acquireJob {TPayload Store} _ _ _.
Arguments client_updateJobStateById {TPayload Store} _ _ _ _ _ _.
Arguments client_deleteJobsByState {TPayload Store} _ _ _.

(* ===================================================================== *)
(** * AbstractDatabaseWorker.ts                                           *)
(* ===================================================================== *)

(** [DatabaseWorkerEvents] and [DatabaseQueueEvents]: the event name with
    its payload. *)
Inductive DatabaseWorkerEvent (TPayload : Type) : Type :=
| worker_waiting
| worker_activated (job : Job TPayload)
| worker_completed (job : Job TPayload)
| worker_failed (job : Job TPayload) (error : Error).
Arguments worker_waiting {TPayload}.
Arguments worker_activated {TPayload}.
Arguments worker_completed {TPayload}.
Arguments worker_failed {TPayload}.

Inductive DatabaseQueueEvent (TPayload : Type) : Type :=
| queue_activated (job : Job TPayload)
| queue_completed (job : Job TPayload)
| queue_failed (job : Job TPayload) (error : Error)
| queue_error (error : Error).
Arguments queue_activated {TPayload}.
Arguments queue_completed {TPayload}.
Arguments queue_failed {TPayload}.
Arguments queue_error {TPayload}.

(** What [this.emit] and [this.#queue.emit] were called with, in order.
    The listeners are the caller's code and stay outside. *)
Inductive Emitted (TPayload : Type) : Type :=
| on_worker (e : DatabaseWorkerEvent TPayload)
| on_queue (e : DatabaseQueueEvent TPayload).
Arguments on_worker {TPayload}.
Arguments on_queue {TPayload}.

Record DatabaseWorkerOptions : Set := mkWorkerOptions {
  worker_autostart : bool;
  processingInterval : Z;
  waitingInterval : Z;
  maxRetries : Z;
  retryInterval : Z
}.

Definition Worker_defaultOptions : DatabaseWorkerOptions :=
  mkWorkerOptions true 0 1000 3 500.

Section Worker.
Context {TPayload Store Env : Type}.
(** [Env] is everything outside the queue's store: the processor's closure
    state and the clock.  [now] reads the clock ([new Date()], [NOW()]);
    [setTimeout ms] is the passing of [ms] milliseconds. *)
Variable client : AbstractDatabasePoolClient TPayload Store.
Variable now : Env -> Z.
Variable setTimeout : Z -> Env -> Env.
Variable processor : Job TPayload -> M Env unit.
Variable options : DatabaseWorkerOptions.

(** The state a processing step runs in: the client's store, the
    environment, and the events emitted so far (oldest first). *)
Record World : Type := mkWorld {
  store : Store;
  env : Env;
  emitted : list (Emitted TPayload)
}.

Definition on_store {A} (c : Z -> M Store A) : M World A :=
  fun w =>
    let '(r, st) := c (now (env w)) (store w) in
    (r, mkWorld st (env w) (emitted w)).

Definition on_env {A} (c : M Env A) : M World A :=
  fun w =>
    let '(r, e) := c (env w) in
    (r, mkWorld (store w) e (emitted w)).

Definition World_setTimeout (ms : Z) (w : World) : World :=
  mkWorld (store w) (setTimeout ms (env w)) (emitted w).

(** [emit(event, ...)] for every event but ['error']: the call is
    recorded and returns, with or without listeners.  The listeners are
    not part of the program; they are taken to return. *)
Definition emit (e : Emitted TPayload) : M World unit :=
  modify (fun w => mkWorld (store w) (env w) (emitted w ++ [e])).

(** [#processJob(client)]. *)
Definition processJob : M World unit :=
  let* activeJob := on_store (client_acquireJob client) in
  do emit (on_worker (worker_activated activeJob)) in
  do emit (on_queue (queue_activated activeJob)) in
  try_catch
    (do retry World_setTimeout (on_env (processor activeJob))
              (maxRetries options) (retryInterval options) in
     let* completedJob :=
       on_store (client_updateJobStateById client (id activeJob) completed None) in
     do emit (on_worker (worker_completed completedJob)) in
     emit (on_queue (queue_completed completedJob)))
    (fun error_ =>
       let error := normalizeError error_ in
       let* failedJob :=
         on_store (client_updateJobStateById client (id activeJob) failed
                                             (Some (message error))) in
       do emit (on_worker (worker_failed failedJob error)) in
       emit (on_queue (queue_failed failedJob error))).
End Worker.
Arguments World : clear implicits.

(** A test spy ([vi.fn]) around a callable: the same behaviour, with the
    number of calls counted next to its world. *)
Definition spy {W A} (f : M W A) : M (W * nat) A :=
  fun '(w, calls) => let '(r, w') := f w in (r, (w', S calls)).

Definition spy_setTimeout {W} (setTimeout : Z -> W -> W) (ms : Z) : W * nat -> W * nat :=
  fun '(w, calls) => (setTimeout ms w, calls).

(* ===================================================================== *)
(** * AbstractDatabaseQueue.ts                                            *)
(* ===================================================================== *)

(** A key of the options object a caller passes: missing, present with
    the value [undefined], or present with a value.  [Partial<T>] admits
    all three. *)
Inductive Key (A : Type) : Type :=
| key_missing
| key_undefined
| key_value (v : A).
Arguments key_missing {A}.
Arguments key_undefined {A}.
Arguments key_value {A}.

(** One key of [{ ...defaults, ...options }]: a key that is present in
    [options] overwrites the default, also when its value is [undefined]
    ([None]). *)
Definition spread {A} (default_ : option A) (k : Key A) : option A :=
  match k with
  | key_missing => default_
  | key_undefined => None
  | key_value v => Some v
  end.

(** [if (v)] on a boolean that may be [undefined]. *)
Definition truthy_bool (v : option bool) : bool :=
  match v with
  | Some b => b
  | None => false
  end.

(** The field of [#options]; [None] is the [undefined] the spread can
    leave there. *)
Record DatabaseQueueOptions : Set := mkQueueOptions {
  autostart : option bool
}.

Definition Queue_defaultOptions : DatabaseQueueOptions := mkQueueOptions (Some true).

Definition defaultJobPriority : Z := 5.

(** [{ ...defaultOptions, ...options }] for [options?: Partial<...>]:
    [None] is the argument left out, [Some k] an object whose [autostart]
    key is [k]. *)
Definition merge_options (options : option (Key bool)) : DatabaseQueueOptions :=
  match options with
  | None => Queue_defaultOptions
  | Some k => mkQueueOptions (spread (autostart Queue_defaultOptions) k)
  end.

(** The private fields of a queue and of a worker object.  Objects live
    in a heap and are named by their address. *)
Record QueueObject : Type := mkQueue {
  queue_name : string;
  queue_options : DatabaseQueueOptions;
  queue_running : bool;
  queue_workers : list nat
}.

Record WorkerObject : Type := mkWorker {
  worker_queue : nat;
  worker_running : bool
}.

(** The process: the static [#instances] map, the heap of queue and worker
    objects, and the state [Driver] of the pools the objects own. *)
Record Process (Driver : Type) : Type := mkProcess {
  instances : gmap string nat;
  queues : gmap nat QueueObject;
  workers : gmap nat WorkerObject;
  driver : Driver
}.
Arguments mkProcess {Driver}.
Arguments instances {Driver}.
Arguments queues {Driver}.
Arguments workers {Driver}.
Arguments driver {Driver}.

Section Queue.
Context {Driver : Type}.
(** [pool.close()] of the concrete pool class; the driver call resolves. *)
Variable Pool_close : Driver -> Driver.

Definition already_exists (name : string) : Error :=
  mkError Error_ ("Queue with name '" +:+ name +:+ "' already exists.").

Definition set_queue (this : nat) (f : QueueObject -> QueueObject)
    (p : Process Driver) : Process Driver :=
  mkProcess (instances p) (alter f this (queues p)) (workers p) (driver p).

Definition set_worker (this : nat) (f : WorkerObject -> WorkerObject)
    (p : Process Driver) : Process Driver :=
  mkProcess (instances p) (queues p) (alter f this (workers p)) (driver p).

Definition isRunning (this : nat) (p : Process Driver) : bool :=
  match queues p !! this with
  | Some q => queue_running q
  | None => false
  end.

(** [AbstractDatabaseWorker.start()]; launching the polling loop leaves
    the process state as it is. *)
Definition Worker_start (this : nat) (p : Process Driver) : Process Driver :=
  match workers p !! this with
  | Some w =>
      if negb (isRunning (worker_queue w) p) || worker_running w then p
      else set_worker this (fun w => mkWorker (worker_queue w) true) p
  | None => p
  end.

(** [AbstractDatabaseWorker.stop()]; the awaited loop promise settles
    once the loop has seen the flag. *)
Definition Worker_stop (this : nat) (p : Process Driver) : Process Driver :=
  match workers p !! this with
  | Some w =>
      if negb (worker_running w) then p
      else set_worker this (fun w => mkWorker (worker_queue w) false) p
  | None => p
  end.

(** [AbstractDatabaseWorker.close()]. *)
Definition Worker_close (this : nat) (p : Process Driver) : Process Driver :=
  let p1 := Worker_stop this p in
  let p2 := mkProcess (instances p1) (queues p1) (workers p1) (Pool_close (driver p1)) in
  match workers p2 !! this with
  | Some w =>
      set_queue (worker_queue w)
        (fun q => mkQueue (queue_name q) (queue_options q) (queue_running q)
                          (List.filter (fun r => negb (Nat.eqb r this)) (queue_workers q)))
        p2
  | None => p2
  end.

(** [start()]. *)
Definition Queue_start (this : nat) (p : Process Driver) : Process Driver :=
  match queues p !! this with
  | Some q =>
      if negb (queue_running q) then
        let p1 := set_queue this
                    (fun q => mkQueue (queue_name q) (queue_options q) true (queue_workers q))
                    p in
        fold_left (fun p worker => Worker_start worker p) (queue_workers q) p1
      else p
  | None => p
  end.

(** [new AbstractDatabaseQueue(name, poolConfig, options)].  When the
    constructor throws, the object under construction is dropped. *)
Definition new_Queue (name : string) (options : option (Key bool))
    : M (Process Driver) nat :=
  fun p =>
    if bool_decide (is_Some (instances p !! name))
    then (Throw (ThrownError (already_exists name)), p)
    else
      let this := fresh (dom (queues p)) in
      let options_ := merge_options options in
      let p1 := mkProcess (<[name := this]> (instances p))
                          (<[this := mkQueue name options_ false []]> (queues p))
                          (workers p) (driver p) in
      (Return this,
       if truthy_bool (autostart options_) then Queue_start this p1 else p1).

(** [close()]. *)
Definition Queue_close (this : nat) (p : Process Driver) : Process Driver :=
  match queues p !! this with
  | Some q =>
      let p1 := set_queue this
                  (fun q => mkQueue (queue_name q) (queue_options q) false (queue_workers q))
                  p in
      let p2 := fold_left (fun p worker => Worker_close worker p) (queue_workers q) p1 in
      let p3 := mkProcess (instances p2) (queues p2) (workers p2) (Pool_close (driver p2)) in
      mkProcess (delete (queue_name q) (instances p3)) (queues p3) (workers p3) (driver p3)
  | None => p
  end.
End Queue.

(** [add], [drain] and [empty] take a client from the queue's pool, call
    one method and release the client on every path. *)
Module AbstractDatabaseQueue.
Section Operations.
Context {TPayload Store : Type}.
Variable client : AbstractDatabasePoolClient TPayload Store.

Definition add (payload_ : TPayload) (priority_ : option Z) (now : Z)
    : M Store (Job TPayload) :=
  try_finally
    (client_insertJob client payload_ waiting
                      (default defaultJobPriority priority_) now)
    (client_release client).

Definition drain : M Store unit :=
  try_finally (client_deleteJobsByState client [waiting]) (client_release client).

Definition empty : M Store unit :=
  try_finally (client_deleteJobsByState client [waiting; active; completed; failed])
              (client_release client).
End Operations.
End AbstractDatabaseQueue.

(* ===================================================================== *)
(** * The other methods of the clients, the queue and the worker          *)
(* ===================================================================== *)

#[global] Instance JobState_countable : Countable JobState.
Proof.
  refine (inj_countable'
            (fun s => match s with
                      | waiting => 0 | active => 1 | completed => 2 | failed => 3
                      end)%nat
            (fun n => match n with
                      | 0 => waiting | 1 => active | 2 => completed | _ => failed
                      end)%nat _).
  now intros [].
Defined.

(** [Object.fromEntries(entries)], and the row object a driver builds from
    the aliased columns of a result: a later entry with the same key
    replaces an earlier one. *)
Definition fromEntries {V} (entries : list (JobState * V)) : gmap JobState V :=
  fold_left (fun o entry => <[fst entry := snd entry]> o) entries ∅.

(** MockDatabasePoolClient.countJobsByState; the rest parameter has the
    type [[TJobState, ...TJobState[]]], a first state and a list. *)
Definition Mock_countJobsByState {TPayload} (state0 : JobState) (states : list JobState)
    : M (MockDatabasePoolClient.Statics TPayload) (gmap JobState Z) :=
  fun s =>
    (Return (fromEntries
               (map (fun state_ =>
                       (state_,
                        Z.of_nat (length (List.filter
                                            (fun job => JobState_eqb (state job) state_)
                                            (MockDatabasePoolClient.jobs s)))))
                    (state0 :: states))),
     s).

(** [CASE WHEN state = ? THEN 1 ELSE 0 END] on a row, and [SUM] over the
    rows of the table, which is NULL when there is no row. *)
Definition case_when_state {TPayload} (state_ : JobState) (r : Job TPayload) : Z :=
  if JobState_eqb (state r) state_ then 1 else 0.

Definition sql_sum (l : list Z) : option Z :=
  match l with
  | [] => None
  | _ => Some (fold_right Z.add 0 l)
  end.

(** PostgreSqlPoolClient.countJobsByState:
    [COALESCE(SUM(CASE ...), 0)::int AS "state"], then [result.rows[0]]. *)
Definition PostgreSql_countJobsByState {TPayload} (state0 : JobState)
    (states : list JobState) : M (Sql.Connection TPayload) (gmap JobState Z) :=
  fun c =>
    (Return (fromEntries
               (map (fun state_ =>
                       (state_,
                        default 0 (sql_sum (map (case_when_state state_) (Sql.rows c)))))
                    (state0 :: states))),
     c).

(** MySqlPoolClient.countJobsByState:
    [CAST(SUM(CASE ...) AS SIGNED) AS state], then [rows[0]]; [None] is the
    [null] the driver hands back for NULL. *)
Definition MySql_countJobsByState {TPayload} (state0 : JobState)
    (states : list JobState) : M (Sql.Connection TPayload) (gmap JobState (option Z)) :=
  fun c =>
    (Return (fromEntries
               (map (fun state_ =>
                       (state_, sql_sum (map (case_when_state state_) (Sql.rows c))))
                    (state0 :: states))),
     c).

(** AbstractDatabaseQueue.getJobCounts, over the [release] and the
    [countJobsByState] of the client the pool hands out. *)
Definition getJobCounts {Store R} (client_release_ : Store -> Store)
    (client_countJobsByState : JobState -> list JobState -> M Store R)
    (state0 : JobState) (states : list JobState) : M Store R :=
  try_finally (client_countJobsByState state0 states) client_release_.

(** ** The polling loop of the worker *)

(** The queue as an emitter of [node:events], as far as the loop depends
    on it: whether a listener for ['error'] is registered, and what
    [util.inspect] prints for the event object [{ error }] (the stack of
    the error included, which [Error] does not carry here). *)
Record QueueEmitter : Type := mkQueueEmitter {
  has_error_listener : bool;
  inspect_event : Error -> string
}.

(** The [ERR_UNHANDLED_ERROR] the emitter throws for an ['error'] event
    that is not an [Error] and has no listener. *)
Definition unhandled_error (emitter : QueueEmitter) (error : Error) : Error :=
  mkError Error_ ("Unhandled error. (" +:+ inspect_event emitter error +:+ ")").

Definition is_AcquirableJobNotFoundError (error : Thrown) : bool :=
  match error with
  | ThrownError e => instanceof e AcquirableJobNotFoundError_
  | ThrownValue _ => false
  end.

Section WorkerLoop.
Context {TPayload Store Env : Type}.
Variable client : AbstractDatabasePoolClient TPayload Store.
Variable now : Env -> Z.
Variable setTimeout : Z -> Env -> Env.
Variable processor : Job TPayload -> M Env unit.
Variable options : DatabaseWorkerOptions.
Variable emitter : QueueEmitter.

(** [this.#queue.emit('error', { error })]: the emitter of [node:events]
    throws when it is asked to emit ['error'] and has no listener for it;
    nothing is delivered then. *)
Definition emit_error (error : Error) : M (World TPayload Store Env) unit :=
  if has_error_listener emitter
  then emit (on_queue (queue_error error))
  else throw (ThrownError (unhandled_error emitter error)).

(** [await setTimeout(ms)] in the loop, which is not guarded by [ms > 0]. *)
Definition sleep (ms : Z) : M (World TPayload Store Env) unit :=
  modify (World_setTimeout setTimeout ms).

Definition World_release (w : World TPayload Store Env) : World TPayload Store Env :=
  mkWorld (client_release client (store w)) (env w) (emitted w).

(** One turn of the [while (this.#running)] loop of [#processJobs]; the
    pool hands out a client on request.  What the turn throws ends the
    loop: the promise of [#processJobs] rejects. *)
Definition processJobs_cycle : M (World TPayload Store Env) unit :=
  try_catch
    (do sleep (processingInterval options) in
     try_finally (processJob client now setTimeout processor options) World_release)
    (fun error =>
       do (if is_AcquirableJobNotFoundError error
           then emit (on_worker worker_waiting)
           else emit_error (normalizeError error)) in
       sleep (waitingInterval options)).

(** The first [n] turns of the loop, [#running] staying true. *)
Fixpoint processJobs_cycles (n : nat) : M (World TPayload Store Env) unit :=
  match n with
  | O => ret tt
  | S n' => do processJobs_cycle in processJobs_cycles n'
  end.
End WorkerLoop.

(** ** Starting and stopping *)

(** [Partial<DatabaseWorkerOptions>]: the keys of the object passed. *)
Record PartialWorkerOptions : Type := mkPartialWorkerOptions {
  partial_autostart : Key bool;
  partial_processingInterval : Key Z;
  partial_waitingInterval : Key Z;
  partial_maxRetries : Key Z;
  partial_retryInterval : Key Z
}.

(** The fields of [#options] after the spread, each a value or the
    [undefined] ([None]) a key given as [undefined] leaves there.  The
    loop above is the loop of a worker whose fields are all defined:
    [DatabaseWorkerOptions]. *)
Record WorkerOptionValues : Set := mkWorkerOptionValues {
  value_autostart : option bool;
  value_processingInterval : option Z;
  value_waitingInterval : option Z;
  value_maxRetries : option Z;
  value_retryInterval : option Z
}.

Definition option_values (o : DatabaseWorkerOptions) : WorkerOptionValues :=
  mkWorkerOptionValues (Some (worker_autostart o)) (Some (processingInterval o))
                       (Some (waitingInterval o)) (Some (maxRetries o))
                       (Some (retryInterval o)).

(** [{ ...AbstractDatabaseWorker.defaultOptions, ...options }]. *)
Definition merge_worker_options (options : option PartialWorkerOptions)
    : WorkerOptionValues :=
  let defaults := option_values Worker_defaultOptions in
  match options with
  | None => defaults
  | Some o =>
      mkWorkerOptionValues
        (spread (value_autostart defaults) (partial_autostart o))
        (spread (value_processingInterval defaults) (partial_processingInterval o))
        (spread (value_waitingInterval defaults) (partial_waitingInterval o))
        (spread (value_maxRetries defaults) (partial_maxRetries o))
        (spread (value_retryInterval defaults) (partial_retryInterval o))
  end.

(** [set.add(x)] on the insertion-ordered [Set] of workers. *)
Definition Set_add (x : nat) (l : list nat) : list nat :=
  if existsb (Nat.eqb x) l then l else l ++ [x].

Section QueueLifecycle.
Context {Driver : Type}.

(** [AbstractDatabaseWorker.isRunning()]. *)
Definition Worker_isRunning (this : nat) (p : Process Driver) : bool :=
  match workers p !! this with
  | Some w => worker_running w
  | None => false
  end.

(** [AbstractDatabaseQueue.stop()]. *)
Definition Queue_stop (this : nat) (p : Process Driver) : Process Driver :=
  match queues p !! this with
  | Some q =>
      if queue_running q then
        let p1 := set_queue this
                    (fun q => mkQueue (queue_name q) (queue_options q) false (queue_workers q))
                    p in
        fold_left (fun p worker => Worker_stop worker p) (queue_workers q) p1
      else p
  | None => p
  end.

(** [new AbstractDatabaseWorker(queue, processor, options)]: the worker
    joins the set of its queue and starts if [autostart] says so.  The
    processor and the other options are used by the loop only. *)
Definition new_Worker (queue : nat) (options : option PartialWorkerOptions)
    (p : Process Driver) : nat * Process Driver :=
  let this := fresh (dom (workers p)) in
  let p1 := mkProcess (instances p)
              (alter (fun q => mkQueue (queue_name q) (queue_options q) (queue_running q)
                                       (Set_add this (queue_workers q)))
                     queue (queues p))
              (<[this := mkWorker queue false]> (workers p))
              (driver p) in
  (this, if truthy_bool (value_autostart (merge_worker_options options))
         then Worker_start this p1 else p1).
End QueueLifecycle.

(** ** Fake timers *)

(** A callable and a timer run against a clock that adds up the
    milliseconds slept, as [vi.useFakeTimers()] lets a test observe. *)
Definition timed {W A} (f : M W A) : M (W * Z) A :=
  fun '(w, slept) => let '(r, w') := f w in (r, (w', slept)).

Definition timed_setTimeout {W} (setTimeout : Z -> W -> W) (ms : Z) : W * Z -> W * Z :=
  fun '(w, slept) => (setTimeout ms w, slept + ms).

(* ===================================================================== *)
(** * Vocabulary of the statements                                        *)
(* ===================================================================== *)

(** The job a lease returns for the waiting job [j]: [j] with the state
    [active], no error message, and [updatedAt] at the time of the lease. *)
Definition activated {TPayload} (now : Z) (j : Job TPayload) : Job TPayload :=
  mkJob (id j) (payload j) active (priority j) undefined (createdAt j) now.

(** [leased eligible now before after result]: [result] is the return of
    the activated copy of a job [j] of [before] that is eligible and stands
    first in the dequeue order among the eligible jobs; in [after] the job
    with that id is stored [active], and every other job is as it was. *)
Definition leased {TPayload} (eligible : Job TPayload -> bool) (now : Z)
    (before after : list (Job TPayload)) (result : Completion (Job TPayload)) : Prop :=
  exists j,
    In j before /\ eligible j = true
    /\ (forall j', In j' before -> eligible j' = true -> j' = j \/ compareJobs j j' < 0)
    /\ result = Return (activated now j)
    /\ (exists stored, In stored after /\ id stored = id j)
    /\ (forall j', In j' after -> id j' = id j -> state j' = active)
    /\ (forall j', id j' <> id j -> In j' after <-> In j' before).

Definition is_waiting {TPayload} (j : Job TPayload) : bool :=
  JobState_eqb (state j) waiting.

(** The jobs the mock may lease: waiting, and not locked. *)
Definition waiting_unlocked {TPayload} (locked : list Z) (j : Job TPayload) : bool :=
  bool_decide (state j = waiting /\ id j ∉ locked).

(** What a failed attempt below the limit leaves behind: the world after
    the optional delay. *)
Definition after_failure {W} (setTimeout : Z -> W -> W) (delayInterval : Z) (w : W) : W :=
  if 0 <? delayInterval then setTimeout delayInterval w else w.

(** [world_before k w]: the world in which call number [k + 1] of
    [function_] runs, when the first call runs in [w] and each earlier call
    is followed by the delay. *)
Fixpoint world_before {W A} (setTimeout : Z -> W -> W) (function_ : M W A)
    (delayInterval : Z) (k : nat) (w : W) : W :=
  match k with
  | O => w
  | S k' =>
      world_before setTimeout function_ delayInterval k'
        (after_failure setTimeout delayInterval (snd (function_ w)))
  end.

(** [function_] throws on every call. *)
Definition always_fails {W A} (function_ : M W A) : Prop :=
  forall w, exists t w', function_ w = (Throw t, w').

(** [#processJob] of a worker whose processor is watched by a spy: the
    environment carries the number of calls made so far. *)
Definition spied_processJob {TPayload Store Env}
    (client : AbstractDatabasePoolClient TPayload Store)
    (now : Env -> Z) (setTimeout : Z -> Env -> Env)
    (processor : Job TPayload -> M Env unit) (options : DatabaseWorkerOptions)
    : M (World TPayload Store (Env * nat)) unit :=
  processJob client (fun e => now (fst e)) (spy_setTimeout setTimeout)
             (fun job => spy (processor job)) options.

(** The job the final transition to [failed] returns for the leased [job]. *)
Definition failed_job {TPayload} (now : Z) (error : Error) (job : Job TPayload)
    : Job TPayload :=
  mkJob (id job) (payload job) failed (priority job) (text (message error))
        (createdAt job) now.

(** The events of a step that leases [job] and fails it with [error]. *)
Definition failure_events {TPayload} (job failedJob : Job TPayload) (error : Error)
    : list (Emitted TPayload) :=
  [on_worker (worker_activated job); on_queue (queue_activated job);
   on_worker (worker_failed failedJob error); on_queue (queue_failed failedJob error)].

(** The message of what a call threw: the message of an error, and the
    string of a value that is not an error. *)
Definition thrown_message (t : Thrown) : string :=
  match t with
  | ThrownError e => message e
  | ThrownValue v => String_ v
  end.

(** [fails_the_job_in calls client jobs_of now setTimeout processor options
    st e ev]: run from the store [st], the environment [e] and the events
    [ev], the step of a worker with a spied processor leases a job, calls
    the processor [calls] times, and ends normally with the job stored
    [failed] under the message "Function failed after K retries: " followed
    by the message of what the last call threw, [K] being [maxRetries]; the
    events added are [activated] and then [failed], each on the worker and
    on the queue, the latter two carrying the failed job and a
    [MaxRetriesError] with that message. *)
Definition fails_the_job_in {TPayload Store Env} (calls : nat)
    (client : AbstractDatabasePoolClient TPayload Store)
    (jobs_of : Store -> list (Job TPayload))
    (now : Env -> Z) (setTimeout : Z -> Env -> Env)
    (processor : Job TPayload -> M Env unit) (options : DatabaseWorkerOptions)
    (st : Store) (e : Env) (ev : list (Emitted TPayload)) : Prop :=
  exists job t e' st',
    fst (client_acquireJob client (now e) st) = Return job
    /\ processor job (world_before setTimeout (processor job) (retryInterval options)
                                   (calls - 1) e) = (Throw t, e')
    /\ let msg := "Function failed after " +:+ pretty (maxRetries options)
                     +:+ " retries: " +:+ thrown_message t in
       let error := mkError MaxRetriesError_ msg in
       let failedJob :=
         mkJob (id job) (payload job) failed (priority job) (text msg) (createdAt job)
               (now e') in
       spied_processJob client now setTimeout processor options (mkWorld st (e, 0%nat) ev)
       = (Return tt,
          mkWorld st' (e', calls)
                  (ev ++ [on_worker (worker_activated job); on_queue (queue_activated job);
                          on_worker (worker_failed failedJob error);
                          on_queue (queue_failed failedJob error)]))
       /\ (exists stored, In stored (jobs_of st') /\ id stored = id job)
       /\ (forall j', In j' (jobs_of st') -> id j' = id job ->
             state j' = failed /\ errorMessage j' = text msg).

(** The claim as the specification words it: the processor is called
    [maxRetries] times. *)
Definition fails_the_job {TPayload Store Env}
    (client : AbstractDatabasePoolClient TPayload Store)
    (jobs_of : Store -> list (Job TPayload))
    (now : Env -> Z) (setTimeout : Z -> Env -> Env)
    (processor : Job TPayload -> M Env unit) (options : DatabaseWorkerOptions)
    (st : Store) (e : Env) (ev : list (Emitted TPayload)) : Prop :=
  fails_the_job_in (Z.to_nat (maxRetries options)) client jobs_of now setTimeout
                   processor options st e ev.

(** [s] contains [sub]: what [toThrow(sub)] asks of an error message. *)
Definition contains (s sub : string) : Prop :=
  exists pre post, s = pre +:+ sub +:+ post.

(** An [errorMessage] as the clients promise to return it: [undefined] or
    a string that is not empty. *)
Definition normalized (v : JsText) : Prop :=
  v = undefined \/ exists s, v = text s /\ s <> EmptyString.

(** [keeps_errorMessage update i c]: running [update] on the table of [c]
    returns the job with id [i] and leaves it stored with the
    [errorMessage] it had before. *)
Definition keeps_errorMessage {TPayload}
    (update : M (Sql.Connection TPayload) (Job TPayload)) (i : Z)
    (c : Sql.Connection TPayload) : Prop :=
  forall x, In x (Sql.rows c) -> id x = i ->
    exists r c',
      update c = (Return r, c')
      /\ errorMessage r = errorMessage x
      /\ (forall x', In x' (Sql.rows c') -> id x' = i -> errorMessage x' = errorMessage x).

(** The ids of the mock's jobs are distinct and below the counter, as
    [id++] hands them out. *)
Definition ids_fresh {TPayload} (s : MockDatabasePoolClient.Statics TPayload) : Prop :=
  List.NoDup (map id (MockDatabasePoolClient.jobs s))
  /\ forall i, In i (map id (MockDatabasePoolClient.jobs s)) ->
               i < MockDatabasePoolClient.static_id s.

(** [v] fits an INTEGER column: it is a 32-bit signed integer. *)
Definition fits_INTEGER (v : Z) : Prop := -2147483648 <= v <= 2147483647.

(** The number of jobs of a list that are in a given state. *)
Definition count_state {TPayload} (state_ : JobState) (l : list (Job TPayload)) : Z :=
  Z.of_nat (length (List.filter (fun job => JobState_eqb (state job) state_) l)).

(** The job a queue hands back from [add]. *)
Definition added {TPayload} (id_ : Z) (payload_ : TPayload) (priority_ : option Z)
    (now : Z) : Job TPayload :=
  mkJob id_ payload_ waiting (default defaultJobPriority priority_) undefined now now.

(** The job the final transition to [completed] returns for the leased
    [job], and the events of a step that leases and completes it. *)
Definition completed_job {TPayload} (now : Z) (job : Job TPayload) : Job TPayload :=
  mkJob (id job) (payload job) completed (priority job) undefined (createdAt job) now.

Definition success_events {TPayload} (job completedJob : Job TPayload)
    : list (Emitted TPayload) :=
  [on_worker (worker_activated job); on_queue (queue_activated job);
   on_worker (worker_completed completedJob); on_queue (queue_completed completedJob)].

(** The first [k - 1] calls of [function_] throw and call [k] returns, when
    the first call runs in [w]. *)
Definition returns_at {W A} (setTimeout : Z -> W -> W) (function_ : M W A)
    (delayInterval : Z) (k : nat) (w : W) (r : A) (w' : W) : Prop :=
  (forall i, (i < k - 1)%nat ->
     exists t w'', function_ (world_before setTimeout function_ delayInterval i w)
                   = (Throw t, w''))
  /\ function_ (world_before setTimeout function_ delayInterval (k - 1) w) = (Return r, w').

(** [completes_the_job client jobs_of now setTimeout processor options k st e
    ev]: the step of a worker with a spied processor leases a job, calls
    the processor [k] times, the last call returning, and ends normally
    with the job stored [completed] and without an error message; the
    events added are [activated] and then [completed], each on the worker
    and on the queue. *)
Definition completes_the_job {TPayload Store Env}
    (client : AbstractDatabasePoolClient TPayload Store)
    (jobs_of : Store -> list (Job TPayload))
    (now : Env -> Z) (setTimeout : Z -> Env -> Env)
    (processor : Job TPayload -> M Env unit) (options : DatabaseWorkerOptions)
    (k : nat) (st : Store) (e : Env) (ev : list (Emitted TPayload)) : Prop :=
  exists job e' st',
    fst (client_acquireJob client (now e) st) = Return job
    /\ returns_at setTimeout (processor job) (retryInterval options) k e tt e'
    /\ spied_processJob client now setTimeout processor options (mkWorld st (e, 0%nat) ev)
       = (Return tt,
          mkWorld st' (e', k) (ev ++ success_events job (completed_job (now e') job)))
    /\ (exists stored, In stored (jobs_of st') /\ id stored = id job)
    /\ (forall j', In j' (jobs_of st') -> id j' = id job ->
          state j' = completed /\ truthy (errorMessage j') = false).

(** A turn of the loop, and the first [n] turns, of a worker whose
    processor is watched by a spy. *)
Definition spied_processJobs_cycles {TPayload Store Env}
    (client : AbstractDatabasePoolClient TPayload Store)
    (now : Env -> Z) (setTimeout : Z -> Env -> Env)
    (processor : Job TPayload -> M Env unit) (options : DatabaseWorkerOptions)
    (emitter : QueueEmitter) (n : nat) : M (World TPayload Store (Env * nat)) unit :=
  processJobs_cycles client (fun e => now (fst e)) (spy_setTimeout setTimeout)
                     (fun job => spy (processor job)) options emitter n.

(** The jobs of the [completed] events a worker emitted, oldest first. *)
Definition completed_on_worker {TPayload} (ev : list (Emitted TPayload))
    : list (Job TPayload) :=
  flat_map (fun e => match e with
                     | on_worker (worker_completed job) => [job]
                     | _ => []
                     end) ev.

(** [c] is the completed form of the job [w]: the same id, payload,
    priority and [createdAt], in state [completed]. *)
Definition completion_of {TPayload} (c w : Job TPayload) : Prop :=
  exists t, c = completed_job t w.

(** [a] stands before [b] in every sorted array. *)
Definition strictly_before {TPayload} (a b : Job TPayload) : Prop :=
  compareJobs a b < 0.

(** The jobs of the [completed] and [failed] events a worker emitted,
    oldest first. *)
Definition settled_on_worker {TPayload} (ev : list (Emitted TPayload))
    : list (Job TPayload) :=
  flat_map (fun e => match e with
                     | on_worker (worker_completed job) => [job]
                     | on_worker (worker_failed job _) => [job]
                     | _ => []
                     end) ev.

(** [s] is what became of the job [w]: the same id, payload, priority and
    [createdAt], in state [completed] or [failed]. *)
Definition settlement_of {TPayload} (s w : Job TPayload) : Prop :=
  id s = id w /\ payload s = payload w /\ priority s = priority w
  /\ createdAt s = createdAt w /\ (state s = completed \/ state s = failed).

(** The processor returns whenever it is called. *)
Definition always_returns {TPayload Env} (processor : Job TPayload -> M Env unit) : Prop :=
  forall job e, exists e', processor job e = (Return tt, e').

(* ===================================================================== *)
(** * Sample data                                                         *)
(* ===================================================================== *)

Definition three_jobs : list (Job unit) :=
  [mkJob 1 tt waiting 3 undefined 100 100;
   mkJob 2 tt waiting 5 undefined 110 110;
   mkJob 3 tt active 9 undefined 120 120].

Definition no_waiting_jobs : list (Job unit) :=
  [mkJob 1 tt completed 3 undefined 100 150;
   mkJob 3 tt active 9 undefined 120 120].

(** A callable that throws ["Fail"] on its first two calls, as the
    [mockFunction(2)] of the tests, and one that always throws ["boom"]. *)
Definition fails_twice : M nat string :=
  fun calls =>
    if (calls <? 2)%nat
    then (Throw (ThrownError (mkError Error_ "Fail")), S calls)
    else (Return "Success"%string, S calls).

Definition boom : M unit unit :=
  fun w => (Throw (ThrownError (mkError Error_ "boom")), w).

(** A worker with the default options but [maxRetries: 0], and a mock
    store with one waiting job. *)
Definition no_retries : DatabaseWorkerOptions := mkWorkerOptions true 0 1000 0 500.

Definition one_waiting_job : MockDatabasePoolClient.Statics unit :=
  MockDatabasePoolClient.mkStatics 2 [mkJob 1 tt waiting 5 undefined 100 100] [].

(** A table whose only job failed with the message ["boom"]. *)
Definition failed_with_boom : Sql.Connection unit :=
  Sql.mkConnection [mkJob 1 tt failed 5 (text "boom") 100 150] 2 None.

(** A process with one live queue named ["Q"], at address 0. *)
Definition process_with_Q : Process unit :=
  mkProcess {["Q"%string := 0%nat]}
            {[0%nat := mkQueue "Q" Queue_defaultOptions true []]} ∅ tt.

(** The queue ["Q"] with two workers, at addresses 0 and 1: running with
    the first worker running, and stopped with both workers stopped. *)
Definition running_Q : QueueObject := mkQueue "Q" Queue_defaultOptions true [0; 1]%nat.
Definition stopped_Q : QueueObject := mkQueue "Q" Queue_defaultOptions false [0; 1]%nat.

Definition process_with_workers : Process unit :=
  mkProcess {["Q"%string := 0%nat]} {[0%nat := running_Q]}
            {[0%nat := mkWorker 0 true; 1%nat := mkWorker 0 false]} tt.

Definition process_stopped : Process unit :=
  mkProcess {["Q"%string := 0%nat]} {[0%nat := stopped_Q]}
            {[0%nat := mkWorker 0 false; 1%nat := mkWorker 0 false]} tt.

(** A client whose database cannot be reached: every query rejects. *)
Definition connection_refused : Error := mkError Error_ "connect ECONNREFUSED".

Definition unreachable_client : AbstractDatabasePoolClient unit unit := {|
  client_release := fun s => s;
  client_insertJob := fun _ _ _ _ => throw (ThrownError connection_refused);
  client_acquireJob := fun _ => throw (ThrownError connection_refused);
  client_updateJobStateById := fun _ _ _ _ => throw (ThrownError connection_refused);
  client_deleteJobsByState := fun _ => throw (ThrownError connection_refused)
|}.

(** A queue with a listener for ['error'], and one without. *)
Definition listening : QueueEmitter := mkQueueEmitter true (fun _ => "{ error }").
Definition not_listening : QueueEmitter := mkQueueEmitter false (fun _ => "{ error }").

(** Options objects for a worker: [{}], [{ autostart: false }] and
    [{ autostart: undefined }]. *)
Definition no_keys : PartialWorkerOptions :=
  mkPartialWorkerOptions key_missing key_missing key_missing key_missing key_missing.

Definition autostart_false : PartialWorkerOptions :=
  mkPartialWorkerOptions (key_value false) key_missing key_missing key_missing
                         key_missing.

Definition autostart_undefined : PartialWorkerOptions :=
  mkPartialWorkerOptions key_undefined key_missing key_missing key_missing key_missing.

(* ===================================================================== *)
(** * Properties                                                          *)
(* ===================================================================== *)

(** ** The dequeue order *)

Section CompareJobs.
Context {TPayload : Type}.
Implicit Types a b c : Job TPayload.

Lemma compareJobs_lt a b :
  compareJobs a b < 0 <->
  priority a > priority b
  \/ (priority a = priority b /\ createdAt a < createdAt b)
  \/ (priority a = priority b /\ createdAt a = createdAt b /\ id a < id b).
Proof.
  unfold compareJobs.
  destruct (Z.eqb_spec (priority a) (priority b)) as [Hp | Hp]; simpl.
  - destruct (Z.eqb_spec (createdAt a) (createdAt b)) as [Hc | Hc]; simpl; lia.
  - lia.
Qed.

Lemma compareJobs_zero a b :
  compareJobs a b = 0 <->
  priority a = priority b /\ createdAt a = createdAt b /\ id a = id b.
Proof.
  unfold compareJobs.
  destruct (Z.eqb_spec (priority a) (priority b)) as [Hp | Hp]; simpl.
  - destruct (Z.eqb_spec (createdAt a) (createdAt b)) as [Hc | Hc]; simpl; lia.
  - lia.
Qed.

Lemma compareJobs_gt a b : 0 < compareJobs a b <-> compareJobs b a < 0.
Proof.
  rewrite (compareJobs_lt b a). unfold compareJobs.
  destruct (Z.eqb_spec (priority a) (priority b)) as [Hp | Hp]; simpl.
  - destruct (Z.eqb_spec (createdAt a) (createdAt b)) as [Hc | Hc]; simpl; lia.
  - lia.
Qed.

Lemma compareJobs_refl a : compareJobs a a = 0.
Proof. apply compareJobs_zero. auto. Qed.

Lemma compareJobs_lt_trans a b c :
  compareJobs a b < 0 -> compareJobs b c < 0 -> compareJobs a c < 0.
Proof. rewrite !compareJobs_lt. lia. Qed.

Lemma compareJobs_le_trans a b c :
  compareJobs a b <= 0 -> compareJobs b c <= 0 -> compareJobs a c <= 0.
Proof.
  intros Hab Hbc.
  destruct (Z.eq_dec (compareJobs a b) 0) as [Eab | Nab];
    destruct (Z.eq_dec (compareJobs b c) 0) as [Ebc | Nbc].
  - apply compareJobs_zero in Eab, Ebc.
    assert (compareJobs a c = 0) as ->; [apply compareJobs_zero|]; lia.
  - apply compareJobs_zero in Eab.
    assert (compareJobs b c < 0) as H by lia.
    apply compareJobs_lt in H.
    assert (compareJobs a c < 0); [apply compareJobs_lt|]; lia.
  - apply compareJobs_zero in Ebc.
    assert (compareJobs a b < 0) as H by lia.
    apply compareJobs_lt in H.
    assert (compareJobs a c < 0); [apply compareJobs_lt|]; lia.
  - assert (compareJobs a c < 0); [|lia].
    apply compareJobs_lt_trans with b; lia.
Qed.

Lemma compareJobs_total a b : compareJobs a b <= 0 \/ compareJobs b a < 0.
Proof.
  destruct (Z_le_gt_dec (compareJobs a b) 0) as [H | H]; [now left | right].
  apply compareJobs_gt. lia.
Qed.

Lemma compareJobs_distinct a b :
  id a <> id b -> compareJobs a b < 0 \/ compareJobs b a < 0.
Proof.
  intros Hid. destruct (compareJobs_total a b) as [H | H]; [|now right].
  left. destruct (Z.eq_dec (compareJobs a b) 0) as [E | N]; [|lia].
  apply compareJobs_zero in E. lia.
Qed.

(** C3. [compareJobs a b] is negative exactly when [a] has the higher
    priority, or the same priority and the earlier [createdAt], or both
    the same and the smaller [id]; it is zero exactly when the three
    agree.  The relation "compares negative" is irreflexive and
    transitive, and it relates any two jobs with distinct ids one way or
    the other: a strict total order on such jobs. *)
Theorem compareJobs_strict_total_order a b c :
  (compareJobs a b < 0 <->
     priority a > priority b
     \/ (priority a = priority b /\ createdAt a < createdAt b)
     \/ (priority a = priority b /\ createdAt a = createdAt b /\ id a < id b))
  /\ (compareJobs a b = 0 <->
        priority a = priority b /\ createdAt a = createdAt b /\ id a = id b)
  /\ ~ compareJobs a a < 0
  /\ (compareJobs a b < 0 -> compareJobs b c < 0 -> compareJobs a c < 0)
  /\ (compareJobs a b < 0 -> ~ compareJobs b a < 0)
  /\ (id a <> id b -> compareJobs a b < 0 \/ compareJobs b a < 0).
Proof.
  split; [apply compareJobs_lt|].
  split; [apply compareJobs_zero|].
  split; [rewrite compareJobs_refl; lia|].
  split; [apply compareJobs_lt_trans|].
  split; [|apply compareJobs_distinct].
  intros Hab Hba. apply compareJobs_gt in Hba. lia.
Qed.
End CompareJobs.

Example compareJobs_documented :
  compareJobs (mkJob 1 tt waiting 5 undefined 1672531200000 1672531200000)
              (mkJob 2 tt waiting 10 undefined 1672617600000 1672617600000) = 5.
Proof. reflexivity. Qed.

(** ** Sorting with a comparator *)

Section ArraySortFacts.
Context {A : Type} (compare : A -> A -> Z).
Hypothesis compare_le_trans :
  forall a b c, compare a b <= 0 -> compare b c <= 0 -> compare a c <= 0.
Hypothesis compare_flip : forall a b, 0 <= compare a b -> compare b a <= 0.

Lemma sort_insert_perm x l : Permutation (sort_insert compare x l) (x :: l).
Proof.
  induction l as [| y l IH]; simpl; [reflexivity|].
  destruct (compare x y <=? 0); [reflexivity|].
  rewrite IH. apply perm_swap.
Qed.

Lemma Array_sort_perm l : Permutation (Array_sort compare l) l.
Proof.
  induction l as [| x l IH]; simpl; [reflexivity|].
  rewrite sort_insert_perm. now constructor.
Qed.

Lemma sort_insert_sorted x l :
  StronglySorted (before_or_equal compare) l ->
  StronglySorted (before_or_equal compare) (sort_insert compare x l).
Proof.
  induction 1 as [| y l Hs IH Hall]; simpl.
  - repeat constructor.
  - destruct (Z.leb_spec (compare x y) 0) as [Hle | Hgt].
    + constructor; [now constructor|].
      constructor; [exact Hle|].
      eapply List.Forall_impl; [|exact Hall].
      intros z Hz. apply compare_le_trans with y; [exact Hle | exact Hz].
    + constructor; [exact IH|].
      eapply Permutation_Forall; [symmetry; apply sort_insert_perm|].
      constructor; [apply compare_flip; lia | exact Hall].
Qed.

Lemma Array_sort_sorted l : StronglySorted (before_or_equal compare) (Array_sort compare l).
Proof.
  induction l as [| x l IH]; simpl; [constructor | now apply sort_insert_sorted].
Qed.

(** The first element of a sorted list that passes a test comes before
    every other element that passes it. *)
Lemma find_sorted_first (p : A -> bool) l x :
  (forall a, compare a a <= 0) ->
  StronglySorted (before_or_equal compare) l ->
  List.find p l = Some x ->
  In x l /\ p x = true /\ forall y, In y l -> p y = true -> compare x y <= 0.
Proof.
  intros Hrefl Hs. induction Hs as [| z l Hs IH Hall]; simpl; [discriminate|].
  destruct (p z) eqn:Hpz.
  - intros [= <-]. split; [now left|]. split; [exact Hpz|].
    intros y [<- | Hy] _; [apply Hrefl|].
    rewrite List.Forall_forall in Hall. now apply Hall.
  - intros Hfind. destruct (IH Hfind) as (Hin & Hpx & Hmin).
    split; [now right|]. split; [exact Hpx|].
    intros y [<- | Hy] Hpy; [congruence | now apply Hmin].
Qed.

Lemma find_none_sorted (p : A -> bool) l :
  List.find p (Array_sort compare l) = None <-> forall y, In y l -> p y = false.
Proof.
  split.
  - intros Hnone y Hy. eapply find_none; [exact Hnone|].
    eapply Permutation_in; [symmetry; apply Array_sort_perm | exact Hy].
  - intros Hall. destruct (List.find p (Array_sort compare l)) as [x|] eqn:Hfind; [|reflexivity].
    apply find_some in Hfind as [Hin Hpx].
    rewrite Hall in Hpx; [discriminate|].
    eapply Permutation_in; [apply Array_sort_perm | exact Hin].
Qed.
End ArraySortFacts.

(** ** Lists of jobs with distinct ids *)

Section JobLists.
Context {TPayload : Type}.
Implicit Types (j x : Job TPayload) (l : list (Job TPayload)).

Lemma find_by_id l x :
  List.NoDup (map id l) -> In x l -> List.find (fun j => id j =? id x) l = Some x.
Proof.
  induction l as [| y l IH]; simpl; [contradiction|].
  intros Hnd [-> | Hin].
  - now rewrite Z.eqb_refl.
  - inversion Hnd as [| ? ? Hnot Hnd']; subst.
    destruct (Z.eqb_spec (id y) (id x)) as [Heq | Hne]; [|now apply IH].
    exfalso. apply Hnot. rewrite Heq. now apply in_map.
Qed.

Lemma same_id_same_job l x y :
  List.NoDup (map id l) -> In x l -> In y l -> id x = id y -> x = y.
Proof.
  induction l as [| z l IH]; simpl; [contradiction|].
  intros Hnd Hx Hy Hid. inversion Hnd as [| ? ? Hnot Hnd']; subst.
  destruct Hx as [-> | Hx], Hy as [-> | Hy]; auto.
  - exfalso. apply Hnot. rewrite Hid. now apply in_map.
  - exfalso. apply Hnot. rewrite <- Hid. now apply in_map.
Qed.

Lemma update_first_ids l i x' :
  id x' = i -> map id (update_first (fun j => id j =? i) (fun _ => x') l) = map id l.
Proof.
  intros Hid. induction l as [| y l IH]; simpl; [reflexivity|].
  destruct (Z.eqb_spec (id y) i) as [Heq | Hne]; simpl; congruence.
Qed.

Lemma update_first_other l i x' j :
  id x' = i -> id j <> i ->
  In j (update_first (fun j => id j =? i) (fun _ => x') l) <-> In j l.
Proof.
  intros Hx Hj. induction l as [| y l IH]; simpl; [reflexivity|].
  destruct (Z.eqb_spec (id y) i) as [Heq | Hne]; simpl.
  - split; intros [<- | Hin]; auto; congruence.
  - rewrite IH. reflexivity.
Qed.

Lemma update_first_present l i x' :
  (exists y, In y l /\ id y = i) ->
  In x' (update_first (fun j => id j =? i) (fun _ => x') l).
Proof.
  intros (y & Hy & Hid). induction l as [| z l IH]; simpl; [contradiction|].
  destruct (Z.eqb_spec (id z) i) as [Heq | Hne]; simpl; [now left|].
  right. apply IH. destruct Hy as [-> | Hy]; [contradiction | exact Hy].
Qed.

Lemma update_first_same_id l i x' j :
  List.NoDup (map id l) -> id x' = i ->
  In j (update_first (fun j => id j =? i) (fun _ => x') l) -> id j = i -> j = x'.
Proof.
  intros Hnd Hx Hin Hj.
  assert (List.NoDup (map id (update_first (fun j => id j =? i) (fun _ => x') l))) as Hnd'
    by now rewrite update_first_ids.
  destruct (in_dec Z.eq_dec i (map id l)) as [Hi | Hi].
  - apply in_map_iff in Hi as (y & Hy & Hyl).
    eapply same_id_same_job; [exact Hnd' | exact Hin | | congruence].
    apply update_first_present. eauto.
  - exfalso. apply Hi. rewrite <- (update_first_ids l i x') by exact Hx.
    apply (List.in_map id) in Hin. now rewrite Hj in Hin.
Qed.

Lemma unlock_after_lock (locked : list Z) (i : Z) :
  includes locked i = false ->
  List.filter (fun k => negb (k =? i)) (locked ++ [i]) = locked.
Proof.
  unfold includes. induction locked as [| k locked IH]; simpl.
  - now rewrite Z.eqb_refl.
  - rewrite (Z.eqb_sym i k). intros H. apply orb_false_iff in H as [Hk Hl].
    rewrite Hk. simpl. f_equal. now apply IH.
Qed.
End JobLists.

(** ** The mock client *)

Section MockFacts.
Context {TPayload : Type}.
Import MockDatabasePoolClient.
Implicit Types (s : Statics TPayload) (j : Job TPayload).

Lemma sorted_jobs_perm (l : list (Job TPayload)) :
  Permutation (Array_sort compareJobs l) l.
Proof. apply Array_sort_perm. Qed.

Lemma sorted_jobs_sorted (l : list (Job TPayload)) :
  StronglySorted (before_or_equal compareJobs) (Array_sort compareJobs l).
Proof.
  apply Array_sort_sorted.
  - apply compareJobs_le_trans.
  - intros a b H. destruct (compareJobs_total b a) as [Hle | Hlt]; [exact Hle|].
    lia.
Qed.

Lemma sorted_jobs_ids (l : list (Job TPayload)) :
  List.NoDup (map id l) -> List.NoDup (map id (Array_sort compareJobs l)).
Proof.
  intros Hnd. eapply Permutation_NoDup; [|exact Hnd].
  apply Permutation_map. symmetry. apply sorted_jobs_perm.
Qed.

(** With distinct ids, coming first in the order is strict. *)
Lemma first_is_strict (l : list (Job TPayload)) j j' :
  List.NoDup (map id l) -> In j l -> In j' l ->
  compareJobs j j' <= 0 -> j' = j \/ compareJobs j j' < 0.
Proof.
  intros Hnd Hj Hj' Hle.
  destruct (Z.eq_dec (compareJobs j j') 0) as [E | N]; [left | right; lia].
  apply compareJobs_zero in E as (_ & _ & Hid).
  symmetry. now apply (same_id_same_job l).
Qed.

Lemma Mock_acquireJob_some s now wj :
  List.NoDup (map id (jobs s)) ->
  List.find (acquirable (lockedJobsIds s)) (Array_sort compareJobs (jobs s)) = Some wj ->
  acquireJob now s =
    (Return (activated now wj),
     mkStatics (static_id s)
       (update_first (fun job => id job =? id wj) (fun _ => activated now wj)
                     (Array_sort compareJobs (jobs s)))
       (lockedJobsIds s)).
Proof.
  intros Hnd Hfind.
  pose proof (find_some _ _ Hfind) as [Hin Hacq].
  unfold acquireJob, try_catch, bind, beginTransaction, sort_jobs, get, ret. simpl.
  rewrite Hfind. unfold modify, updateJobStateById. simpl.
  rewrite (find_by_id _ wj (sorted_jobs_ids _ Hnd) Hin). simpl.
  unfold commitTransaction, ret. simpl.
  rewrite unlock_after_lock; [reflexivity|].
  unfold acquirable in Hacq. apply andb_true_iff in Hacq as [_ Hl].
  now apply negb_true_iff in Hl.
Qed.

Lemma Mock_acquireJob_none s now :
  List.find (acquirable (lockedJobsIds s)) (Array_sort compareJobs (jobs s)) = None ->
  acquireJob now s =
    (Throw (ThrownError AcquirableJobNotFoundError),
     mkStatics (static_id s) (Array_sort compareJobs (jobs s)) (lockedJobsIds s)).
Proof.
  intros Hfind.
  unfold acquireJob, try_catch, bind, beginTransaction, sort_jobs, get, ret. simpl.
  rewrite Hfind. reflexivity.
Qed.

Lemma Mock_acquireJob_leases s now :
  List.NoDup (map id (jobs s)) ->
  (exists j, In j (jobs s) /\ acquirable (lockedJobsIds s) j = true) ->
  leased (acquirable (lockedJobsIds s)) now (jobs s)
         (jobs (snd (acquireJob now s))) (fst (acquireJob now s))
  /\ lockedJobsIds (snd (acquireJob now s)) = lockedJobsIds s.
Proof.
  intros Hnd (j0 & Hj0 & Hacq0).
  destruct (List.find (acquirable (lockedJobsIds s)) (Array_sort compareJobs (jobs s)))
    as [wj |] eqn:Hfind.
  2:{ rewrite (find_none_sorted compareJobs) in Hfind.
      rewrite (Hfind j0 Hj0) in Hacq0. discriminate. }
  rewrite (Mock_acquireJob_some s now wj Hnd Hfind). simpl. split; [|reflexivity].
  destruct (find_sorted_first compareJobs _ _ wj
              (fun a => Z.eq_le_incl _ _ (compareJobs_refl a))
              (sorted_jobs_sorted (jobs s)) Hfind) as (Hin & Hacq & Hmin).
  pose proof (sorted_jobs_perm (jobs s)) as Hperm.
  assert (In wj (jobs s)) as Hin' by (eapply Permutation_in; eauto).
  exists wj. repeat split.
  - exact Hin'.
  - exact Hacq.
  - intros j' Hj' Hacq'. apply (first_is_strict (jobs s)); auto.
    apply Hmin; [|exact Hacq'].
    eapply Permutation_in; [symmetry; exact Hperm | exact Hj'].
  - exists (activated now wj). split; [|reflexivity].
    apply update_first_present. exists wj. auto.
  - intros j' Hj' Hid.
    rewrite (update_first_same_id (Array_sort compareJobs (jobs s)) (id wj)
               (activated now wj) j'); auto.
    now apply sorted_jobs_ids.
  - intros Hj'. apply update_first_other in Hj'; auto.
    eapply Permutation_in; eauto.
  - intros Hj'. apply update_first_other; auto.
    eapply Permutation_in; [symmetry; exact Hperm | exact Hj'].
Qed.
End MockFacts.

(** ** The queue table *)

Section SqlFacts.
Context {TPayload : Type}.
Implicit Types (c : Sql.Connection TPayload) (r j : Job TPayload).

Lemma order_by_lt (a b : Job TPayload) : Sql.order_by a b < 0 <-> compareJobs a b < 0.
Proof.
  rewrite compareJobs_lt. unfold Sql.order_by.
  destruct (Z.compare_spec (priority b) (priority a));
    destruct (Z.compare_spec (createdAt a) (createdAt b));
    destruct (Z.compare_spec (id a) (id b)); lia.
Qed.

Lemma order_by_le (a b : Job TPayload) : Sql.order_by a b <= 0 <-> compareJobs a b <= 0.
Proof.
  assert (0 < Sql.order_by a b <-> compareJobs b a < 0) as H.
  { rewrite compareJobs_lt. unfold Sql.order_by.
    destruct (Z.compare_spec (priority b) (priority a));
      destruct (Z.compare_spec (createdAt a) (createdAt b));
      destruct (Z.compare_spec (id a) (id b)); lia. }
  rewrite <- compareJobs_gt in H. lia.
Qed.

Lemma order_by_sorted (l : list (Job TPayload)) :
  StronglySorted (before_or_equal Sql.order_by) (Array_sort Sql.order_by l).
Proof.
  apply Array_sort_sorted.
  - intros a b d. rewrite !order_by_le. apply compareJobs_le_trans.
  - intros a b H. rewrite order_by_le.
    destruct (compareJobs_total b a) as [Hle | Hlt]; [exact Hle|].
    apply order_by_lt in Hlt. lia.
Qed.

(** The row [LIMIT 1] keeps is a waiting row that comes first. *)
Lemma select_next_first c wj rest :
  Sql.select_next waiting c = wj :: rest ->
  In wj (Sql.rows c) /\ is_waiting wj = true
  /\ forall j', In j' (Sql.rows c) -> is_waiting j' = true -> compareJobs wj j' <= 0.
Proof.
  unfold Sql.select_next. intros Hsel.
  set (ws := List.filter (fun r => JobState_eqb (state r) waiting) (Sql.rows c)) in *.
  pose proof (Array_sort_perm Sql.order_by ws) as Hperm.
  pose proof (order_by_sorted ws) as Hs.
  destruct (Array_sort Sql.order_by ws) as [| x sorted]; [discriminate|].
  simpl in Hsel. injection Hsel as -> _.
  assert (In wj ws) as Hin by (eapply Permutation_in; [exact Hperm | now left]).
  apply filter_In in Hin as [Hin Hw].
  split; [exact Hin|]. split; [exact Hw|].
  intros j' Hj' Hw'.
  assert (In j' (wj :: sorted)) as [<- | Hj''].
  { eapply Permutation_in; [symmetry; exact Hperm|]. apply filter_In. auto. }
  - rewrite compareJobs_refl. lia.
  - inversion Hs as [| ? ? _ Hall]; subst.
    rewrite List.Forall_forall in Hall. apply order_by_le. now apply Hall.
Qed.

Lemma select_next_none c :
  Sql.select_next waiting c = [] <->
  forall j, In j (Sql.rows c) -> is_waiting j = false.
Proof.
  unfold Sql.select_next.
  set (ws := List.filter (fun r => JobState_eqb (state r) waiting) (Sql.rows c)).
  pose proof (Array_sort_perm Sql.order_by ws) as Hperm.
  split.
  - intros Hsel j Hj. destruct (is_waiting j) eqn:Hw; [|reflexivity].
    assert (In j ws) as Hin by (apply filter_In; auto).
    eapply Permutation_in in Hin; [|symmetry; exact Hperm].
    destruct (Array_sort Sql.order_by ws); [contradiction | discriminate].
  - intros Hall. destruct (Array_sort Sql.order_by ws) as [| x sorted] eqn:Hsort;
      [reflexivity|].
    assert (In x ws) as Hin by (eapply Permutation_in; [exact Hperm | now left]).
    apply filter_In in Hin as [Hin Hw]. unfold is_waiting in Hall.
    rewrite (Hall x Hin) in Hw. discriminate.
Qed.

Lemma select_updated (f : Job TPayload -> Job TPayload) (l : list (Job TPayload)) x :
  List.NoDup (map id l) -> In x l -> id (f x) = id x ->
  List.filter (fun r => id r =? id x)
              (map (fun r => if id r =? id x then f r else r) l) = [f x].
Proof.
  intros Hnd Hin Hf. induction l as [| y l IH]; simpl; [contradiction|].
  inversion Hnd as [| ? ? Hnot Hnd']; subst.
  assert (forall l', (forall z, In z l' -> id z <> id x) ->
            List.filter (fun r => id r =? id x)
              (map (fun r => if id r =? id x then f r else r) l') = []) as Hnone.
  { induction l' as [| z l' IHl']; simpl; [reflexivity|]. intros Hz.
    destruct (Z.eqb_spec (id z) (id x)) as [E | N]; [now destruct (Hz z (or_introl eq_refl))|].
    destruct (Z.eqb_spec (id z) (id x)); [contradiction|]. apply IHl'.
    intros z' Hz'. apply Hz. now right. }
  destruct Hin as [-> | Hin].
  - rewrite Z.eqb_refl, Hf, Z.eqb_refl. f_equal. apply Hnone.
    intros z Hz E. apply Hnot. rewrite <- E. now apply List.in_map.
  - destruct (Z.eqb_spec (id y) (id x)) as [E | N].
    + exfalso. apply Hnot. rewrite E. now apply List.in_map.
    + destruct (Z.eqb_spec (id y) (id x)); [contradiction|]. now apply IH.
Qed.

(** The effect of the UPDATE of a lease on the table, whatever the rule
    for [updatedAt]. *)
Lemma update_leases (touch : Job TPayload -> Job TPayload -> Z) now
    (l : list (Job TPayload)) wj :
  List.NoDup (map id l) -> In wj l -> is_waiting wj = true ->
  (forall j', In j' l -> is_waiting j' = true -> compareJobs wj j' <= 0) ->
  touch wj (mkJob (id wj) (payload wj) active (priority wj) null
                  (createdAt wj) (updatedAt wj)) = now ->
  leased is_waiting now l
    (map (fun r => if id r =? id wj
                   then Sql.update_row touch active undefined r else r) l)
    (Return (with_errorMessage (with_errorMessage
               (Sql.update_row touch active undefined wj)))).
Proof.
  intros Hnd Hin Hw Hmin Htouch. exists wj.
  split; [exact Hin|]. split; [exact Hw|]. split.
  { intros j' Hj' Hw'. apply (first_is_strict l); auto. }
  split.
  { unfold Sql.update_row, with_errorMessage, activated. simpl. now rewrite Htouch. }
  split.
  { exists (Sql.update_row touch active undefined wj). split; [|reflexivity].
    apply in_map_iff. exists wj. now rewrite Z.eqb_refl. }
  split.
  { intros j' Hj' Hid. apply in_map_iff in Hj' as (r & <- & Hr).
    destruct (Z.eqb_spec (id r) (id wj)); [reflexivity | contradiction]. }
  intros j' Hne. split.
  - intros Hj'. apply in_map_iff in Hj' as (r & Heq & Hr).
    destruct (Z.eqb_spec (id r) (id wj)) as [E | N]; [|now subst j'].
    subst j'. simpl in Hne. congruence.
  - intros Hj'. apply in_map_iff. exists j'.
    destruct (Z.eqb_spec (id j') (id wj)); [contradiction | auto].
Qed.
End SqlFacts.

(** ** The PostgreSQL and MySQL clients *)

Section SqlClientFacts.
Context {TPayload : Type}.
Implicit Types (c : Sql.Connection TPayload) (j : Job TPayload).

Lemma PostgreSql_acquireJob_some c now wj rest :
  List.NoDup (map id (Sql.rows c)) ->
  Sql.select_next waiting c = wj :: rest ->
  PostgreSqlPoolClient.acquireJob now c =
    (Return (with_errorMessage (with_errorMessage
               (Sql.update_row (PostgreSqlPoolClient.touch now) active undefined wj))),
     Sql.mkConnection
       (map (fun r => if id r =? id wj
                      then Sql.update_row (PostgreSqlPoolClient.touch now) active undefined r
                      else r) (Sql.rows c))
       (Sql.serial c) None).
Proof.
  intros Hnd Hsel. destruct (select_next_first c wj rest Hsel) as (Hin & _ & _).
  unfold PostgreSqlPoolClient.acquireJob, PostgreSqlPoolClient.beginTransaction,
    try_catch, bind, modify, get. simpl.
  assert (forall snap, Sql.select_next waiting
            (Sql.mkConnection (Sql.rows c) (Sql.serial c) snap) = wj :: rest) as Hsel'
    by (intros snap; exact Hsel).
  destruct c as [rows serial [saved |]]; simpl in *;
    rewrite (Hsel' _);
    unfold PostgreSqlPoolClient.updateJobStateById, bind, modify, get,
      Sql.select_by_id, Sql.update_by_id; simpl;
    rewrite (select_updated
               (Sql.update_row (PostgreSqlPoolClient.touch now) active undefined)
               rows wj Hnd Hin eq_refl); reflexivity.
Qed.

Lemma MySql_acquireJob_some c now wj rest :
  List.NoDup (map id (Sql.rows c)) ->
  Sql.select_next waiting c = wj :: rest ->
  MySqlPoolClient.acquireJob now c =
    (Return (with_errorMessage (with_errorMessage
               (Sql.update_row (MySqlPoolClient.touch now) active undefined wj))),
     Sql.mkConnection
       (map (fun r => if id r =? id wj
                      then Sql.update_row (MySqlPoolClient.touch now) active undefined r
                      else r) (Sql.rows c))
       (Sql.serial c) None).
Proof.
  intros Hnd Hsel. destruct (select_next_first c wj rest Hsel) as (Hin & _ & _).
  unfold MySqlPoolClient.acquireJob, MySqlPoolClient.beginTransaction,
    try_catch, bind, modify, get. simpl.
  assert (forall snap, Sql.select_next waiting
            (Sql.mkConnection (Sql.rows c) (Sql.serial c) snap) = wj :: rest) as Hsel'
    by (intros snap; exact Hsel).
  rewrite (Hsel' _).
  unfold MySqlPoolClient.updateJobStateById, bind, modify, get,
    Sql.select_by_id, Sql.update_by_id; simpl.
  rewrite (select_updated
             (Sql.update_row (MySqlPoolClient.touch now) active undefined)
             (Sql.rows c) wj Hnd Hin eq_refl). reflexivity.
Qed.

Lemma PostgreSql_acquireJob_none c now :
  Sql.snapshot c = None ->
  Sql.select_next waiting c = [] ->
  PostgreSqlPoolClient.acquireJob now c =
    (Throw (ThrownError AcquirableJobNotFoundError), c).
Proof.
  intros Hsnap Hsel. destruct c as [rows serial snap]. simpl in Hsnap. subst snap.
  unfold PostgreSqlPoolClient.acquireJob, PostgreSqlPoolClient.beginTransaction,
    try_catch, bind, modify, get. simpl.
  change (Sql.select_next waiting (Sql.mkConnection rows serial (Some rows)))
    with (Sql.select_next waiting (Sql.mkConnection rows serial None)).
  rewrite Hsel. reflexivity.
Qed.

Lemma MySql_acquireJob_none c now :
  Sql.snapshot c = None ->
  Sql.select_next waiting c = [] ->
  MySqlPoolClient.acquireJob now c =
    (Throw (ThrownError AcquirableJobNotFoundError), c).
Proof.
  intros Hsnap Hsel. destruct c as [rows serial snap]. simpl in Hsnap. subst snap.
  unfold MySqlPoolClient.acquireJob, MySqlPoolClient.beginTransaction,
    try_catch, bind, modify, get. simpl.
  change (Sql.select_next waiting (Sql.mkConnection rows serial (Some rows)))
    with (Sql.select_next waiting (Sql.mkConnection rows serial None)).
  rewrite Hsel. reflexivity.
Qed.

Lemma some_waiting_selected c :
  (exists j, In j (Sql.rows c) /\ state j = waiting) ->
  exists wj rest, Sql.select_next waiting c = wj :: rest.
Proof.
  intros (j & Hj & Hw). destruct (Sql.select_next waiting c) as [| wj rest] eqn:Hsel; eauto.
  rewrite select_next_none in Hsel. specialize (Hsel j Hj).
  unfold is_waiting in Hsel. rewrite Hw in Hsel. discriminate.
Qed.

Lemma PostgreSql_acquireJob_leases c now :
  List.NoDup (map id (Sql.rows c)) ->
  (exists j, In j (Sql.rows c) /\ state j = waiting) ->
  leased is_waiting now (Sql.rows c)
         (Sql.rows (snd (PostgreSqlPoolClient.acquireJob now c)))
         (fst (PostgreSqlPoolClient.acquireJob now c)).
Proof.
  intros Hnd Hex. destruct (some_waiting_selected c Hex) as (wj & rest & Hsel).
  rewrite (PostgreSql_acquireJob_some c now wj rest Hnd Hsel). simpl.
  destruct (select_next_first c wj rest Hsel) as (Hin & Hw & Hmin).
  now apply update_leases.
Qed.

Lemma MySql_acquireJob_leases c now :
  List.NoDup (map id (Sql.rows c)) ->
  (exists j, In j (Sql.rows c) /\ state j = waiting) ->
  leased is_waiting now (Sql.rows c)
         (Sql.rows (snd (MySqlPoolClient.acquireJob now c)))
         (fst (MySqlPoolClient.acquireJob now c)).
Proof.
  intros Hnd Hex. destruct (some_waiting_selected c Hex) as (wj & rest & Hsel).
  rewrite (MySql_acquireJob_some c now wj rest Hnd Hsel). simpl.
  destruct (select_next_first c wj rest Hsel) as (Hin & Hw & Hmin).
  apply update_leases; auto.
  unfold MySqlPoolClient.touch. simpl.
  unfold is_waiting, JobState_eqb in Hw. apply bool_decide_eq_true in Hw.
  rewrite Hw. reflexivity.
Qed.
End SqlClientFacts.

(** ** Ids stay distinct *)

Section MockIds.
Context {TPayload : Type}.
Import MockDatabasePoolClient.
Implicit Types (s : Statics TPayload).

Lemma updateJobStateById_ids s i st em now :
  map id (jobs (snd (updateJobStateById i st em now s))) = map id (jobs s)
  /\ static_id (snd (updateJobStateById i st em now s)) = static_id s.
Proof.
  unfold updateJobStateById.
  destruct (List.find (fun job => id job =? i) (jobs s)) as [job |] eqn:Hfind; simpl;
    [|now split].
  split; [|reflexivity]. apply update_first_ids. simpl.
  apply find_some in Hfind as [_ Hid]. now apply Z.eqb_eq.
Qed.

Lemma acquireJob_ids s now :
  Permutation (map id (jobs (snd (acquireJob now s)))) (map id (jobs s))
  /\ static_id (snd (acquireJob now s)) = static_id s.
Proof.
  pose proof (Permutation_map id (sorted_jobs_perm (jobs s))) as Hperm.
  unfold acquireJob, try_catch, bind, beginTransaction, sort_jobs, get, ret, throw. simpl.
  destruct (List.find (acquirable (lockedJobsIds s)) (Array_sort compareJobs (jobs s)))
    as [wj |]; simpl; [|now split].
  unfold modify. simpl.
  set (s1 := mkStatics (static_id s) (Array_sort compareJobs (jobs s))
                       (lockedJobsIds s ++ [id wj])).
  destruct (updateJobStateById_ids s1 (id wj) active None now) as [Hids Hsid].
  destruct (updateJobStateById (id wj) active None now s1) as [[job | t] s2];
    simpl in *; rewrite Hids; now split.
Qed.

(** X19. The ids of the mock's jobs are distinct and below the counter:
    this holds of the empty store and every operation of the mock keeps
    it. *)
Lemma ids_fresh_invariant s :
  ids_fresh (mkStatics 1 ([] : list (Job TPayload)) [])
  /\ (ids_fresh s ->
      (forall payload_ state_ priority_ now,
         ids_fresh (snd (insertJob payload_ state_ priority_ now s)))
      /\ (forall now, ids_fresh (snd (acquireJob now s)))
      /\ (forall i st em now, ids_fresh (snd (updateJobStateById i st em now s)))
      /\ (forall states, ids_fresh (snd (deleteJobsByState states s)))
      /\ ids_fresh (snd (Pool_close s))).
Proof.
  split; [split; [constructor | intros i []]|].
  intros [Hnd Hlt]. repeat split.
  - simpl. rewrite map_app. simpl. apply List.NoDup_app.
    + exact Hnd.
    + repeat constructor. intros [].
    + intros i Hi [<- | []]. apply Hlt in Hi. lia.
  - simpl. intros i. rewrite map_app, in_app_iff. simpl.
    intros [Hi | [<- | []]]; [apply Hlt in Hi|]; lia.
  - destruct (acquireJob_ids s now) as [Hperm _].
    eapply Permutation_NoDup; [symmetry; exact Hperm | exact Hnd].
  - destruct (acquireJob_ids s now) as [Hperm Hsid]. intros i Hi. rewrite Hsid.
    apply Hlt. eapply Permutation_in; eauto.
  - destruct (updateJobStateById_ids s i st em now) as [-> _]. exact Hnd.
  - destruct (updateJobStateById_ids s i st em now) as [-> ->]. exact Hlt.
  - simpl. clear Hlt. induction (jobs s) as [| j l IH]; simpl; [constructor|].
    inversion Hnd as [| ? ? Hnot Hnd']; subst.
    destruct (negb (state_in states j)); simpl; [|now apply IH].
    constructor; [|now apply IH].
    intros Hin. apply Hnot. apply in_map_iff in Hin as (x & Hx & Hxl).
    apply filter_In in Hxl as [Hxl _]. rewrite <- Hx. now apply List.in_map.
  - simpl. intros i Hi. apply Hlt. apply in_map_iff in Hi as (x & Hx & Hxl).
    apply filter_In in Hxl as [Hxl _]. rewrite <- Hx. now apply List.in_map.
  - simpl. constructor.
  - simpl. intros i [].
Qed.
End MockIds.

(** ** Leasing a job *)

Lemma includes_In (l : list Z) (x : Z) : includes l x = true <-> In x l.
Proof.
  unfold includes. rewrite existsb_exists. split.
  - intros (y & Hy & E). apply Z.eqb_eq in E. now subst.
  - intros Hx. exists x. split; [exact Hx | apply Z.eqb_refl].
Qed.

Lemma not_includes (l : list Z) (x : Z) : ~ In x l -> includes l x = false.
Proof.
  intros Hx. destruct (includes l x) eqn:E; [|reflexivity].
  now apply includes_In in E.
Qed.

Section AcquireJob.
Context {TPayload : Type}.

(** The test of the mock's [find] callback is the eligibility of the
    statements: waiting, and not locked. *)
Lemma acquirable_waiting_unlocked (locked : list Z) (j : Job TPayload) :
  MockDatabasePoolClient.acquirable locked j = waiting_unlocked locked j.
Proof.
  unfold MockDatabasePoolClient.acquirable, waiting_unlocked, JobState_eqb.
  destruct (includes locked (id j)) eqn:Hinc.
  - apply includes_In in Hinc. rewrite andb_false_r. symmetry.
    apply bool_decide_eq_false. intros [_ Hnot]. apply Hnot.
    now apply list_elem_of_In.
  - rewrite andb_true_r. apply bool_decide_ext. split; [|tauto].
    intros Hw. split; [exact Hw|]. intros Hin.
    apply list_elem_of_In, includes_In in Hin. congruence.
Qed.

Lemma leased_ext (eligible eligible' : Job TPayload -> bool) now before after result :
  (forall j, eligible j = eligible' j) ->
  leased eligible now before after result -> leased eligible' now before after result.
Proof.
  intros Hext (j & Hj & He & Hmin & Hrest). exists j.
  split; [exact Hj|]. split; [now rewrite <- Hext|]. split; [|exact Hrest].
  intros j' Hj' He'. apply Hmin; [exact Hj' | now rewrite Hext].
Qed.


(** C2. When no job of the collection is in state [waiting], [acquireJob]
    of each client throws [AcquirableJobNotFoundError], which is an
    instance of [JobNotFoundError], and no job changes: the mock's array
    holds the same jobs (sorted), and a connection that was idle is left
    with the table it had and no open transaction. *)
Theorem acquireJob_nothing_waiting (now : Z) :
  (forall s : MockDatabasePoolClient.Statics TPayload,
     (forall j, In j (MockDatabasePoolClient.jobs s) -> state j <> waiting) ->
     exists s',
       MockDatabasePoolClient.acquireJob now s =
         (Throw (ThrownError AcquirableJobNotFoundError), s')
       /\ Permutation (MockDatabasePoolClient.jobs s') (MockDatabasePoolClient.jobs s)
       /\ MockDatabasePoolClient.lockedJobsIds s' = MockDatabasePoolClient.lockedJobsIds s
       /\ MockDatabasePoolClient.static_id s' = MockDatabasePoolClient.static_id s)
  /\ (forall c : Sql.Connection TPayload,
        Sql.snapshot c = None ->
        (forall j, In j (Sql.rows c) -> state j <> waiting) ->
        PostgreSqlPoolClient.acquireJob now c =
          (Throw (ThrownError AcquirableJobNotFoundError), c))
  /\ (forall c : Sql.Connection TPayload,
        Sql.snapshot c = None ->
        (forall j, In j (Sql.rows c) -> state j <> waiting) ->
        MySqlPoolClient.acquireJob now c =
          (Throw (ThrownError AcquirableJobNotFoundError), c))
  /\ instanceof AcquirableJobNotFoundError JobNotFoundError_ = true
  /\ class AcquirableJobNotFoundError = AcquirableJobNotFoundError_.
Proof.
  assert (forall c : Sql.Connection TPayload,
            (forall j, In j (Sql.rows c) -> state j <> waiting) ->
            Sql.select_next waiting c = []) as Hnone.
  { intros c Hall. apply select_next_none. intros j Hj.
    unfold is_waiting, JobState_eqb. apply bool_decide_eq_false. now apply Hall. }
  split; [|split; [|split; [|split]]].
  - intros s Hall. eexists. split; [apply Mock_acquireJob_none|].
    + apply (find_none_sorted compareJobs). intros j Hj.
      unfold MockDatabasePoolClient.acquirable, JobState_eqb.
      rewrite bool_decide_eq_false_2; [reflexivity | now apply Hall].
    + simpl. split; [apply sorted_jobs_perm | split; reflexivity].
  - intros c Hsnap Hall. apply PostgreSql_acquireJob_none; auto.
  - intros c Hsnap Hall. apply MySql_acquireJob_none; auto.
  - reflexivity.
  - reflexivity.
Qed.
End AcquireJob.

Lemma three_jobs_distinct : List.NoDup (map id three_jobs).
Proof.
  repeat constructor; simpl; intuition discriminate.
Defined.


Example acquireJob_takes_priority_5 :
  fst (MockDatabasePoolClient.acquireJob 200
         (MockDatabasePoolClient.mkStatics 4 three_jobs []))
  = Return (mkJob 2 tt active 5 undefined 110 200).
Proof. reflexivity. Qed.

Lemma acquireJob_nothing_waiting_witness :
  PostgreSqlPoolClient.acquireJob 200 (Sql.mkConnection no_waiting_jobs 4 None) =
    (Throw (ThrownError AcquirableJobNotFoundError),
     Sql.mkConnection no_waiting_jobs 4 None).
Proof.
  apply (proj1 (proj2 (acquireJob_nothing_waiting 200))
           (Sql.mkConnection no_waiting_jobs 4 None)).
  - reflexivity.
  - simpl. intros j [<- | [<- | []]]; discriminate.
Defined.

(** ** retry *)

Lemma attempt_step {W TResult} (setTimeout : Z -> W -> W) (function_ : M W TResult)
    (n delayInterval c : Z) (w : W) :
  attempt setTimeout function_ n delayInterval c w =
    match function_ w with
    | (Return r, w') => (Return r, w')
    | (Throw error, w') =>
        if c >=? n
        then (Throw (ThrownError (MaxRetriesError n (normalizeError error))), w')
        else attempt setTimeout function_ n delayInterval (c + 1)
                     (after_failure setTimeout delayInterval w')
    end.
Proof.
  simp attempt. destruct (function_ w) as [[r | e] w']; simpl; [reflexivity|].
  destruct (Z_ge_lt_dec c n) as [Hge | Hlt]; simpl.
  - destruct (Z.geb_spec c n); [reflexivity | lia].
  - destruct (Z.geb_spec c n); [lia | reflexivity].
Qed.

(** [new MaxRetriesError(n, normalizeError(t))] carries the message of an
    error and the string of any other value. *)
Lemma MaxRetriesError_thrown (n : Z) (t : Thrown) :
  MaxRetriesError n (normalizeError t)
  = mkError MaxRetriesError_
      ("Function failed after " +:+ pretty n +:+ " retries: " +:+ thrown_message t).
Proof. now destruct t. Qed.

Section RetryFacts.
Context {W TResult : Type}.
Variable setTimeout : Z -> W -> W.
Variable function_ : M W TResult.
Variable delayInterval : Z.

Abbreviation spied_attempt n :=
  (attempt (spy_setTimeout setTimeout) (spy function_) n delayInterval).

(** [k] failed attempts below the limit bring the recursion [k] calls on. *)
Lemma attempt_after_failures n (k : nat) : forall c w calls,
  c + Z.of_nat k <= n ->
  (forall i, (i < k)%nat ->
     exists t w', function_ (world_before setTimeout function_ delayInterval i w)
                  = (Throw t, w')) ->
  spied_attempt n c (w, calls) =
  spied_attempt n (c + Z.of_nat k)
    (world_before setTimeout function_ delayInterval k w, (calls + k)%nat).
Proof.
  induction k as [| k IH]; intros c w calls Hle Hfail.
  - simpl. now rewrite Z.add_0_r, Nat.add_0_r.
  - destruct (Hfail 0%nat ltac:(lia)) as (t & w' & Hw). simpl in Hw.
    rewrite attempt_step. unfold spy at 1. rewrite Hw.
    destruct (Z.geb_spec c n); [lia|].
    unfold after_failure at 1, spy_setTimeout.
    replace (if 0 <? delayInterval then (setTimeout delayInterval w', S calls)
             else (w', S calls))
      with (after_failure setTimeout delayInterval w', S calls)
      by (unfold after_failure; now destruct (0 <? delayInterval)).
    rewrite IH.
    + simpl. rewrite Hw. simpl. f_equal; [lia|]. f_equal. lia.
    + lia.
    + intros i Hi. specialize (Hfail (S i) ltac:(lia)). simpl in Hfail.
      now rewrite Hw in Hfail.
Qed.

Lemma retry_exhausted (n : Z) (w : W) t w' :
  1 <= n ->
  (forall i, (i < Z.to_nat (n - 1))%nat ->
     exists t w', function_ (world_before setTimeout function_ delayInterval i w)
                  = (Throw t, w')) ->
  function_ (world_before setTimeout function_ delayInterval (Z.to_nat (n - 1)) w)
    = (Throw t, w') ->
  retry (spy_setTimeout setTimeout) (spy function_) n delayInterval (w, 0%nat)
  = (Throw (ThrownError (MaxRetriesError n (normalizeError t))), (w', Z.to_nat n)).
Proof.
  intros Hn Hfail Hlast.
  unfold retry. rewrite (attempt_after_failures n (Z.to_nat (n - 1))); [|lia | exact Hfail].
  rewrite attempt_step. unfold spy at 1. rewrite Hlast.
  destruct (Z.geb_spec (1 + Z.of_nat (Z.to_nat (n - 1))) n); [|lia].
  do 2 f_equal. lia.
Qed.

(** Below the limit of one attempt the first failure is the last. *)
Lemma retry_exhausted_any (n : Z) (w : W) t w' :
  (forall i, (i < Z.to_nat (Z.max 1 n) - 1)%nat ->
     exists t w', function_ (world_before setTimeout function_ delayInterval i w)
                  = (Throw t, w')) ->
  function_ (world_before setTimeout function_ delayInterval
                          (Z.to_nat (Z.max 1 n) - 1) w) = (Throw t, w') ->
  retry (spy_setTimeout setTimeout) (spy function_) n delayInterval (w, 0%nat)
  = (Throw (ThrownError (MaxRetriesError n (normalizeError t))),
     (w', Z.to_nat (Z.max 1 n))).
Proof.
  intros Hfail Hlast. destruct (Z_le_gt_dec 1 n) as [Hn | Hn].
  - replace (Z.max 1 n) with n in * by lia.
    replace (Z.to_nat n - 1)%nat with (Z.to_nat (n - 1)) in * by lia.
    now apply retry_exhausted.
  - replace (Z.max 1 n) with 1 in * by lia.
    change (Z.to_nat 1 - 1)%nat with 0%nat in Hlast. simpl in Hlast.
    unfold retry. rewrite attempt_step. unfold spy at 1. rewrite Hlast.
    destruct (Z.geb_spec 1 n); [reflexivity | lia].
Qed.

(** C4. Let [function_] be watched by a spy.  If it throws on every call
    and [maxRetries = n >= 1], then [retry] calls it exactly [n] times and
    throws a [MaxRetriesError] whose message is "Function failed after n
    retries: " followed by the message of what the last call threw (the
    message of an error, the string of any other value).  If instead its
    first [k - 1] calls throw and call [k <= n] returns [r], then [retry]
    returns [r] after exactly [k] calls. *)
Theorem retry_counts_attempts (n : Z) (w : W) :
  (1 <= n -> always_fails function_ ->
   exists t w',
     function_ (world_before setTimeout function_ delayInterval (Z.to_nat (n - 1)) w)
       = (Throw t, w')
     /\ retry (spy_setTimeout setTimeout) (spy function_) n delayInterval (w, 0%nat)
        = (Throw (ThrownError
                    (mkError MaxRetriesError_
                       ("Function failed after " +:+ pretty n +:+ " retries: "
                          +:+ thrown_message t))),
           (w', Z.to_nat n)))
  /\ (forall (k : nat) r w',
        (1 <= k)%nat -> Z.of_nat k <= n ->
        (forall i, (i < k - 1)%nat ->
           exists t w'', function_ (world_before setTimeout function_ delayInterval i w)
                         = (Throw t, w'')) ->
        function_ (world_before setTimeout function_ delayInterval (k - 1) w)
          = (Return r, w') ->
        retry (spy_setTimeout setTimeout) (spy function_) n delayInterval (w, 0%nat)
        = (Return r, (w', k))).
Proof.
  split.
  - intros Hn Hfail.
    destruct (Hfail (world_before setTimeout function_ delayInterval
                       (Z.to_nat (n - 1)) w)) as (t & w' & Hlast).
    exists t, w'. split; [exact Hlast|].
    rewrite <- MaxRetriesError_thrown. apply retry_exhausted; auto.
  - intros k r w' Hk Hkn Hfail Hlast.
    unfold retry. rewrite (attempt_after_failures n (k - 1)); [|lia | exact Hfail].
    rewrite attempt_step. unfold spy at 1. rewrite Hlast.
    do 2 f_equal. lia.
Qed.

(** C9. For [maxRetries = n <= 1], zero and negative values included,
    [retry] calls [function_] exactly once: a result is returned as it is,
    and an error is wrapped at once in a [MaxRetriesError] that reports [n]
    retries. *)
Theorem retry_first_attempt_unconditional (n : Z) (w : W) :
  n <= 1 ->
  retry (spy_setTimeout setTimeout) (spy function_) n delayInterval (w, 0%nat) =
    match function_ w with
    | (Return r, w') => (Return r, (w', 1%nat))
    | (Throw t, w') =>
        (Throw (ThrownError (mkError MaxRetriesError_
                  ("Function failed after " +:+ pretty n +:+ " retries: "
                     +:+ message (normalizeError t)))),
         (w', 1%nat))
    end.
Proof.
  intros Hn. unfold retry. rewrite attempt_step. unfold spy at 1.
  destruct (function_ w) as [[r | t] w']; [reflexivity|].
  destruct (Z.geb_spec 1 n); [reflexivity | lia].
Qed.
End RetryFacts.

Lemma retry_counts_attempts_witness :
  boom (world_before (fun _ w => w) boom 0 2 tt)
  = (Throw (ThrownError (mkError Error_ "boom")), tt)
  /\ retry (spy_setTimeout (fun _ w => w)) (spy boom) 3 0 (tt, 0%nat)
     = (Throw (ThrownError
                 (mkError MaxRetriesError_ "Function failed after 3 retries: boom")),
        (tt, 3%nat))
  /\ retry (spy_setTimeout (fun _ w => w)) (spy fails_twice) 3 0 (0%nat, 0%nat)
     = (Return "Success"%string, (3%nat, 3%nat)).
Proof.
  split; [reflexivity|]. split.
  - destruct (proj1 (retry_counts_attempts (fun _ w => w) boom 0 3 tt) ltac:(lia)
                (fun w => ex_intro _ _ (ex_intro _ _ eq_refl)))
      as (t & w' & Hlast & Hretry).
    injection Hlast as <- <-. exact Hretry.
  - apply (proj2 (retry_counts_attempts (fun _ w => w) fails_twice 0 3 0%nat)
             3%nat "Success"%string 3%nat ltac:(lia) ltac:(lia)).
    + intros i Hi. assert (i = 0 \/ i = 1)%nat as [-> | ->] by (simpl in Hi; lia);
        eexists; eexists; reflexivity.
    + reflexivity.
Defined.

Example retry_boom_three_times :
  retry (spy_setTimeout (fun _ w => w)) (spy boom) 3 0 (tt, 0%nat)
  = (Throw (ThrownError (mkError MaxRetriesError_ "Function failed after 3 retries: boom")),
     (tt, 3%nat)).
Proof. reflexivity. Qed.

Example retry_succeeds_on_third_call :
  retry (spy_setTimeout (fun _ w => w)) (spy fails_twice) 3 0 (0%nat, 0%nat)
  = (Return "Success"%string, (3%nat, 3%nat)).
Proof. reflexivity. Qed.

Lemma retry_first_attempt_unconditional_witness :
  retry (spy_setTimeout (fun _ w => w)) (spy boom) 0 0 (tt, 0%nat) =
    (Throw (ThrownError (mkError MaxRetriesError_ "Function failed after 0 retries: boom")),
     (tt, 1%nat)).
Proof.
  apply (retry_first_attempt_unconditional (fun _ w => w) boom 0 0 tt). lia.
Defined.

(** ** The worker's processing step *)

Section WorkerFacts.
Context {TPayload Store Env : Type}.
Variable client : AbstractDatabasePoolClient TPayload Store.
Variable now : Env -> Z.
Variable setTimeout : Z -> Env -> Env.
Variable processor : Job TPayload -> M Env unit.
Variable options : DatabaseWorkerOptions.

(** Retrying a callable that only touches the environment leaves the
    store and the emitted events alone. *)
Lemma attempt_on_env {A Env'} (st' : Z -> Env' -> Env') (f : M Env' A) n d
    (st : Store) (ev : list (Emitted TPayload)) :
  forall (m : nat) c e, (Z.to_nat (n - c) <= m)%nat ->
  attempt (World_setTimeout st') (on_env f) n d c (mkWorld st e ev) =
  (fst (attempt st' f n d c e), mkWorld st (snd (attempt st' f n d c e)) ev).
Proof.
  induction m as [| m IH]; intros c e Hm;
    rewrite (attempt_step (World_setTimeout st')), (attempt_step st');
    unfold on_env at 1; simpl; destruct (f e) as [[r | t] e']; simpl;
    try reflexivity; destruct (Z.geb_spec c n); try reflexivity.
  - lia.
  - unfold after_failure, World_setTimeout. destruct (0 <? d); simpl; apply IH; lia.
Qed.

Lemma processJob_exhausts st e ev job st1 t e' failedJob st2 error :
  MaxRetriesError (maxRetries options) (normalizeError t) = error ->
  client_acquireJob client (now e) st = (Return job, st1) ->
  always_fails (processor job) ->
  processor job (world_before setTimeout (processor job) (retryInterval options)
                              (Z.to_nat (Z.max 1 (maxRetries options)) - 1) e)
    = (Throw t, e') ->
  client_updateJobStateById client (id job) failed (Some (message error)) (now e') st1
    = (Return failedJob, st2) ->
  spied_processJob client now setTimeout processor options (mkWorld st (e, 0%nat) ev) =
    (Return tt,
     mkWorld st2 (e', Z.to_nat (Z.max 1 (maxRetries options)))
       (ev ++ failure_events job failedJob error)).
Proof.
  intros Herror Hacq Hfail Hlast Hupd.
  unfold spied_processJob, processJob, bind, on_store at 1. simpl.
  rewrite Hacq. unfold emit, modify, try_catch, bind. simpl.
  unfold retry.
  rewrite (attempt_on_env _ _ _ _ _ _ (Z.to_nat (maxRetries options - 1))) by lia.
  fold (retry (spy_setTimeout setTimeout) (spy (processor job))
              (maxRetries options) (retryInterval options)).
  rewrite (retry_exhausted_any setTimeout (processor job) (retryInterval options)
             (maxRetries options) e t e' (fun i _ => Hfail _) Hlast).
  rewrite Herror.
  cbn. unfold on_store. cbn.
  rewrite Hupd. cbn.
  unfold failure_events. rewrite <- !app_assoc. reflexivity.
Qed.
End WorkerFacts.

(** ** The final transition, client by client *)

Section UpdateFacts.
Context {TPayload : Type}.
Implicit Types (j x : Job TPayload).

Lemma Mock_update_found (s : MockDatabasePoolClient.Statics TPayload) i st em now x :
  List.NoDup (map id (MockDatabasePoolClient.jobs s)) ->
  In x (MockDatabasePoolClient.jobs s) -> id x = i ->
  MockDatabasePoolClient.updateJobStateById i st em now s =
    (Return (mkJob (id x) (payload x) st (priority x) (optional_text em) (createdAt x) now),
     MockDatabasePoolClient.mkStatics (MockDatabasePoolClient.static_id s)
       (update_first (fun job => id job =? i)
          (fun _ => mkJob (id x) (payload x) st (priority x) (optional_text em)
                          (createdAt x) now)
          (MockDatabasePoolClient.jobs s))
       (MockDatabasePoolClient.lockedJobsIds s)).
Proof.
  intros Hnd Hin <-. unfold MockDatabasePoolClient.updateJobStateById.
  now rewrite (find_by_id _ x Hnd Hin).
Qed.

Lemma PostgreSql_update_found (c : Sql.Connection TPayload) i st em now x :
  List.NoDup (map id (Sql.rows c)) -> In x (Sql.rows c) -> id x = i ->
  PostgreSqlPoolClient.updateJobStateById i st em now c =
    (Return (with_errorMessage
               (Sql.update_row (PostgreSqlPoolClient.touch now) st (optional_text em) x)),
     Sql.update_by_id (PostgreSqlPoolClient.touch now) st (optional_text em) i c).
Proof.
  intros Hnd Hin <-.
  unfold PostgreSqlPoolClient.updateJobStateById, bind, modify, get,
    Sql.select_by_id, Sql.update_by_id. simpl.
  now rewrite (select_updated
                 (Sql.update_row (PostgreSqlPoolClient.touch now) st (optional_text em))
                 (Sql.rows c) x Hnd Hin eq_refl).
Qed.

Lemma MySql_update_found (c : Sql.Connection TPayload) i st em now x :
  List.NoDup (map id (Sql.rows c)) -> In x (Sql.rows c) -> id x = i ->
  MySqlPoolClient.updateJobStateById i st em now c =
    (Return (with_errorMessage
               (Sql.update_row (MySqlPoolClient.touch now) st (optional_text em) x)),
     Sql.update_by_id (MySqlPoolClient.touch now) st (optional_text em) i c).
Proof.
  intros Hnd Hin <-.
  unfold MySqlPoolClient.updateJobStateById, bind, modify, get,
    Sql.select_by_id, Sql.update_by_id. simpl.
  now rewrite (select_updated
                 (Sql.update_row (MySqlPoolClient.touch now) st (optional_text em))
                 (Sql.rows c) x Hnd Hin eq_refl).
Qed.

(** Rows after an UPDATE by id: the ids stay, the row with the id holds
    the new state and message, the others are untouched. *)
Lemma update_by_id_ids touch st em i (c : Sql.Connection TPayload) :
  map id (Sql.rows (Sql.update_by_id touch st em i c)) = map id (Sql.rows c).
Proof.
  unfold Sql.update_by_id. simpl. rewrite map_map. apply map_ext.
  intros r. now destruct (id r =? i).
Qed.

Lemma update_by_id_row touch st em i (c : Sql.Connection TPayload) j' :
  In j' (Sql.rows (Sql.update_by_id touch st em i c)) -> id j' = i ->
  state j' = st /\ errorMessage j' = Sql.bind_text em.
Proof.
  unfold Sql.update_by_id. simpl. intros Hin Hid.
  apply in_map_iff in Hin as (r & <- & Hr).
  destruct (Z.eqb_spec (id r) i); [now split | contradiction].
Qed.

Lemma update_by_id_present touch st em i (c : Sql.Connection TPayload) x :
  In x (Sql.rows c) -> id x = i ->
  In (Sql.update_row touch st em x) (Sql.rows (Sql.update_by_id touch st em i c)).
Proof.
  unfold Sql.update_by_id. simpl. intros Hin <-.
  apply in_map_iff. exists x. now rewrite Z.eqb_refl.
Qed.
End UpdateFacts.

(** ** The primary key *)

Section PrimaryKey.
Context {TPayload : Type}.
Implicit Types (c : Sql.Connection TPayload).

(** X20. INSERT, UPDATE and DELETE keep the ids of the table distinct. *)
Lemma primary_key_invariant c :
  List.NoDup (map id (Sql.rows c)) ->
  (forall payload_ state_ priority_ now,
     List.NoDup (map id (Sql.rows (snd (Sql.insert payload_ state_ priority_ now c)))))
  /\ (forall touch st em i,
        List.NoDup (map id (Sql.rows (Sql.update_by_id touch st em i c))))
  /\ (forall states, List.NoDup (map id (Sql.rows (Sql.delete_by_state states c)))).
Proof.
  intros Hnd. split; [|split].
  - intros payload_ state_ priority_ now. unfold Sql.insert.
    destruct (negb (Sql.int4 priority_)); simpl; [exact Hnd|].
    destruct (negb (Sql.int4 (Sql.serial c))); simpl; [exact Hnd|].
    destruct (existsb (fun r => id r =? Sql.serial c) (Sql.rows c)) eqn:Hex;
      simpl; [exact Hnd|].
    rewrite map_app. simpl. apply List.NoDup_app.
    + exact Hnd.
    + repeat constructor. intros [].
    + intros i Hi [<- | []]. apply in_map_iff in Hi as (r & Hr & Hin).
      assert (existsb (fun r => id r =? Sql.serial c) (Sql.rows c) = true) as Habs.
      { apply existsb_exists. exists r. split; [exact Hin | now apply Z.eqb_eq]. }
      congruence.
  - intros touch st em i. now rewrite update_by_id_ids.
  - intros states. unfold Sql.delete_by_state. simpl.
    induction (Sql.rows c) as [| r l IH]; simpl; [constructor|].
    inversion Hnd as [| ? ? Hnot Hnd']; subst.
    destruct (negb (existsb (JobState_eqb (state r)) states)); simpl; [|now apply IH].
    constructor; [|now apply IH].
    intros Hin. apply Hnot. apply in_map_iff in Hin as (x & Hx & Hxl).
    apply filter_In in Hxl as [Hxl _]. rewrite <- Hx. now apply List.in_map.
Qed.
End PrimaryKey.

(** ** A processor that always throws *)

Section FailingProcessor.
Context {TPayload Env : Type}.
Variable now : Env -> Z.
Variable setTimeout : Z -> Env -> Env.
Variable processor : Job TPayload -> M Env unit.
Variable options : DatabaseWorkerOptions.
Hypothesis processor_throws : forall job, always_fails (processor job).

Lemma Mock_fails_the_job (s : MockDatabasePoolClient.Statics TPayload) e ev :
  List.NoDup (map id (MockDatabasePoolClient.jobs s)) ->
  (exists j, In j (MockDatabasePoolClient.jobs s)
             /\ MockDatabasePoolClient.acquirable
                  (MockDatabasePoolClient.lockedJobsIds s) j = true) ->
  fails_the_job_in (Z.to_nat (Z.max 1 (maxRetries options)))
                   MockClient MockDatabasePoolClient.jobs now setTimeout processor options
                   s e ev.
Proof.
  intros Hnd (j0 & Hj0 & Hacq0).
  destruct (List.find (MockDatabasePoolClient.acquirable
                         (MockDatabasePoolClient.lockedJobsIds s))
                      (Array_sort compareJobs (MockDatabasePoolClient.jobs s)))
    as [wj |] eqn:Hfind.
  2:{ rewrite (find_none_sorted compareJobs) in Hfind.
      rewrite (Hfind j0 Hj0) in Hacq0. discriminate. }
  pose proof (Mock_acquireJob_some s (now e) wj Hnd Hfind) as Hacq.
  apply find_some in Hfind as [Hin _].
  set (job := activated (now e) wj) in *.
  set (l1 := update_first (fun job => id job =? id wj) (fun _ => job)
                          (Array_sort compareJobs (MockDatabasePoolClient.jobs s))) in *.
  set (s1 := MockDatabasePoolClient.mkStatics _ l1 _) in *.
  destruct (processor_throws job
              (world_before setTimeout (processor job) (retryInterval options)
                            (Z.to_nat (Z.max 1 (maxRetries options)) - 1) e))
    as (t & e' & Hlast).
  assert (List.NoDup (map id l1)) as Hnd1.
  { unfold l1. rewrite update_first_ids by reflexivity. now apply sorted_jobs_ids. }
  assert (In job l1) as Hin1.
  { apply update_first_present. exists wj. auto. }
  exists job, t, e'.
  set (msg := "Function failed after " +:+ pretty (maxRetries options)
                +:+ " retries: " +:+ thrown_message t).
  set (error := mkError MaxRetriesError_ msg).
  pose proof (Mock_update_found s1 (id job) failed (Some (message error)) (now e') job
                Hnd1 Hin1 eq_refl) as Hupd.
  eexists.
  split; [change (fst (MockDatabasePoolClient.acquireJob (now e) s) = Return job);
          now rewrite Hacq|].
  split; [exact Hlast|].
  split; [|split].
  - exact (processJob_exhausts MockClient now setTimeout processor options
             s e ev job s1 t e' _ _ error
             (MaxRetriesError_thrown (maxRetries options) t) Hacq
             (processor_throws job) Hlast Hupd).
  - exists (failed_job (now e') error job). split; [|reflexivity].
    apply update_first_present. exists job. auto.
  - intros j' Hj' Hid. simpl in Hj'.
    rewrite (update_first_same_id l1 (id job) (failed_job (now e') error job) j');
      auto.
Qed.

Lemma Sql_fails_the_job (client : AbstractDatabasePoolClient TPayload (Sql.Connection TPayload))
    (touch : Z -> Job TPayload -> Job TPayload -> Z) (c : Sql.Connection TPayload) e ev :
  (forall now c wj rest,
     List.NoDup (map id (Sql.rows c)) ->
     Sql.select_next waiting c = wj :: rest ->
     client_acquireJob client now c =
       (Return (activated now wj),
        Sql.mkConnection
          (Sql.rows (Sql.update_by_id (touch now) active undefined (id wj) c))
          (Sql.serial c) None)) ->
  (forall now c x msg,
     List.NoDup (map id (Sql.rows c)) -> In x (Sql.rows c) -> state x = active ->
     client_updateJobStateById client (id x) failed (Some msg) now c =
       (Return (with_errorMessage
                  (mkJob (id x) (payload x) failed (priority x) (text msg)
                         (createdAt x) now)),
        Sql.update_by_id (touch now) failed (text msg) (id x) c)) ->
  List.NoDup (map id (Sql.rows c)) ->
  (exists j, In j (Sql.rows c) /\ state j = waiting) ->
  fails_the_job_in (Z.to_nat (Z.max 1 (maxRetries options)))
                   client Sql.rows now setTimeout processor options c e ev.
Proof.
  intros Hacquire Hupdate Hnd Hex.
  destruct (some_waiting_selected c Hex) as (wj & rest & Hsel).
  destruct (select_next_first c wj rest Hsel) as (Hin & Hw & _).
  pose proof (Hacquire (now e) c wj rest Hnd Hsel) as Hacq.
  set (job := activated (now e) wj) in *.
  set (c1 := Sql.mkConnection _ _ _) in Hacq.
  destruct (processor_throws job
              (world_before setTimeout (processor job) (retryInterval options)
                            (Z.to_nat (Z.max 1 (maxRetries options)) - 1) e))
    as (t & e' & Hlast).
  exists job, t, e'.
  set (msg := "Function failed after " +:+ pretty (maxRetries options)
                +:+ " retries: " +:+ thrown_message t).
  set (error := mkError MaxRetriesError_ msg).
  set (x1 := Sql.update_row (touch (now e)) active undefined wj).
  assert (List.NoDup (map id (Sql.rows c1))) as Hnd1.
  { unfold c1. simpl. change (map (fun r => if id r =? id wj then _ else r) (Sql.rows c))
      with (Sql.rows (Sql.update_by_id (touch (now e)) active undefined (id wj) c)).
    now rewrite update_by_id_ids. }
  assert (In x1 (Sql.rows c1)) as Hin1.
  { apply (update_by_id_present (touch (now e)) active undefined (id wj) c wj Hin eq_refl). }
  pose proof (Hupdate (now e') c1 x1 (message error) Hnd1 Hin1 eq_refl) as Hupd.
  eexists. split; [now rewrite Hacq|]. split; [exact Hlast|].
  split; [|split].
  - exact (processJob_exhausts client now setTimeout processor options
             c e ev job c1 t e' _ _ error
             (MaxRetriesError_thrown (maxRetries options) t) Hacq
             (processor_throws job) Hlast Hupd).
  - exists (Sql.update_row (touch (now e')) failed (text (message error)) x1).
    split; [|reflexivity].
    apply (update_by_id_present _ failed (text (message error)) (id x1) c1 x1 Hin1 eq_refl).
  - intros j' Hj' Hid.
    apply (update_by_id_row _ failed (text (message error)) (id x1) c1 j' Hj' Hid).
Qed.
End FailingProcessor.


Example processJob_boom_default_options :
  spied_processJob MockClient (fun _ : unit => 200) (fun _ w => w) (fun _ => boom)
    Worker_defaultOptions (mkWorld one_waiting_job (tt, 0%nat) [])
  = (Return tt,
     mkWorld
       (MockDatabasePoolClient.mkStatics 2
          [mkJob 1 tt failed 5 (text "Function failed after 3 retries: boom") 100 200] [])
       (tt, 3%nat)
       (failure_events
          (mkJob 1 tt active 5 undefined 100 200)
          (mkJob 1 tt failed 5 (text "Function failed after 3 retries: boom") 100 200)
          (mkError MaxRetriesError_ "Function failed after 3 retries: boom"))).
Proof. reflexivity. Qed.

(** With [maxRetries: 0] the processor is still called once, and the
    message reports 0 retries. *)
Example processJob_boom_no_retries :
  spied_processJob MockClient (fun _ : unit => 200) (fun _ w => w) (fun _ => boom)
    no_retries (mkWorld one_waiting_job (tt, 0%nat) [])
  = (Return tt,
     mkWorld
       (MockDatabasePoolClient.mkStatics 2
          [mkJob 1 tt failed 5 (text "Function failed after 0 retries: boom") 100 200] [])
       (tt, 1%nat)
       (failure_events
          (mkJob 1 tt active 5 undefined 100 200)
          (mkJob 1 tt failed 5 (text "Function failed after 0 retries: boom") 100 200)
          (mkError MaxRetriesError_ "Function failed after 0 retries: boom"))).
Proof. reflexivity. Qed.

Lemma one_waiting_job_leasable :
  List.NoDup (map id (MockDatabasePoolClient.jobs one_waiting_job))
  /\ exists j, In j (MockDatabasePoolClient.jobs one_waiting_job) /\ state j = waiting
               /\ id j ∉ MockDatabasePoolClient.lockedJobsIds one_waiting_job.
Proof.
  split.
  - repeat constructor; simpl; intuition discriminate.
  - exists (mkJob 1 tt waiting 5 undefined 100 100).
    split; [left; reflexivity|]. split; [reflexivity|].
    simpl. intros Hin. apply list_elem_of_In in Hin. destruct Hin.
Defined.



(** ** The registry of live queues *)

Lemma append_assoc (s t u : string) : (s +:+ t) +:+ u = s +:+ (t +:+ u).
Proof.
  induction s as [| a s IH]; [reflexivity|].
  change (String a ((s +:+ t) +:+ u) = String a (s +:+ (t +:+ u))).
  now rewrite IH.
Qed.

Section RegistryFacts.
Context {Driver : Type}.
Variable Pool_close : Driver -> Driver.
Implicit Types (p : Process Driver).

Lemma Worker_stop_instances worker p :
  instances (Worker_stop worker p) = instances p.
Proof.
  unfold Worker_stop. destruct (workers p !! worker) as [w |]; [|reflexivity].
  now destruct (negb (worker_running w)).
Qed.

Lemma Worker_close_instances worker p :
  instances (Worker_close Pool_close worker p) = instances p.
Proof.
  unfold Worker_close. cbn [workers].
  destruct (workers (Worker_stop worker p) !! worker) as [w |]; simpl;
    apply Worker_stop_instances.
Qed.

Lemma close_workers_instances (ws : list nat) : forall p,
  instances (fold_left (fun p worker => Worker_close Pool_close worker p) ws p)
  = instances p.
Proof.
  induction ws as [| w ws IH]; intros p; simpl; [reflexivity|].
  now rewrite IH, Worker_close_instances.
Qed.

Lemma Queue_close_frees_name this p q :
  queues p !! this = Some q ->
  instances (Queue_close Pool_close this p) !! queue_name q = None.
Proof.
  intros Hq. unfold Queue_close. rewrite Hq. simpl. apply lookup_delete_eq.
Qed.

Lemma Queue_start_instances this p : instances (Queue_start this p) = instances p.
Proof.
  unfold Queue_start. destruct (queues p !! this) as [q |]; [|reflexivity].
  destruct (negb (queue_running q)); [|reflexivity].
  assert (forall ws p', instances (fold_left (fun p worker => Worker_start worker p) ws p')
                        = instances p') as H.
  { induction ws as [| w ws IH]; intros p'; simpl; [reflexivity|].
    rewrite IH. unfold Worker_start. destruct (workers p' !! w) as [wo |]; [|reflexivity].
    now destruct (negb (isRunning (worker_queue wo) p') || worker_running wo). }
  now rewrite H.
Qed.

End RegistryFacts.

(** ** Draining *)

Section Drain.
Context {TPayload : Type}.

Lemma not_in_waiting (j : Job TPayload) :
  negb (existsb (JobState_eqb (state j)) [waiting]) = negb (is_waiting j).
Proof. unfold is_waiting. simpl. now rewrite orb_false_r. Qed.

(** C7. [drain()] through each client ends normally and leaves exactly
    the jobs that are not [waiting], each as it was and in the order it
    had: none of the jobs left is [waiting], and every job that was
    [active], [completed] or [failed] is still there. *)
Theorem drain_removes_exactly_waiting :
  (forall s : MockDatabasePoolClient.Statics TPayload,
     exists s',
       AbstractDatabaseQueue.drain MockClient s = (Return tt, s')
       /\ MockDatabasePoolClient.jobs s'
          = List.filter (fun j => negb (is_waiting j)) (MockDatabasePoolClient.jobs s)
       /\ (forall j, In j (MockDatabasePoolClient.jobs s') <->
                     In j (MockDatabasePoolClient.jobs s) /\ state j <> waiting))
  /\ (forall c : Sql.Connection TPayload,
        exists c',
          AbstractDatabaseQueue.drain PostgreSqlClient c = (Return tt, c')
          /\ Sql.rows c' = List.filter (fun j => negb (is_waiting j)) (Sql.rows c)
          /\ (forall j, In j (Sql.rows c') <-> In j (Sql.rows c) /\ state j <> waiting))
  /\ (forall c : Sql.Connection TPayload,
        exists c',
          AbstractDatabaseQueue.drain MySqlClient c = (Return tt, c')
          /\ Sql.rows c' = List.filter (fun j => negb (is_waiting j)) (Sql.rows c)
          /\ (forall j, In j (Sql.rows c') <-> In j (Sql.rows c) /\ state j <> waiting)).
Proof.
  assert (forall l : list (Job TPayload), forall j,
            In j (List.filter (fun j => negb (is_waiting j)) l) <->
            In j l /\ state j <> waiting) as Hfilter.
  { intros l j. rewrite filter_In. unfold is_waiting, JobState_eqb.
    rewrite negb_true_iff, bool_decide_eq_false. reflexivity. }
  assert (forall l : list (Job TPayload),
            List.filter (fun j => negb (existsb (JobState_eqb (state j)) [waiting])) l
            = List.filter (fun j => negb (is_waiting j)) l) as Hsame.
  { intros l. apply filter_ext. intros j. apply not_in_waiting. }
  split; [|split].
  - intros s. eexists. split; [reflexivity|].
    cbn [MockDatabasePoolClient.jobs snd]. unfold MockDatabasePoolClient.state_in.
    rewrite Hsame. split; [reflexivity | apply Hfilter].
  - intros c. eexists. split; [reflexivity|].
    unfold Sql.delete_by_state. cbn [Sql.rows].
    rewrite Hsame. split; [reflexivity | apply Hfilter].
  - intros c. eexists. split; [reflexivity|].
    unfold Sql.delete_by_state. cbn [Sql.rows].
    rewrite Hsame. split; [reflexivity | apply Hfilter].
Qed.
End Drain.

(** ** The error message across the SQL clients *)

Section ErrorMessage.
Context {TPayload : Type}.
Implicit Types (c : Sql.Connection TPayload) (j : Job TPayload).

Lemma or_undefined_normalized (v : JsText) : normalized (or_undefined v).
Proof.
  unfold or_undefined, truthy. destruct v as [| | s]; try (now left).
  destruct (String.eqb_spec s EmptyString) as [-> | Hne]; simpl; [now left | right; eauto].
Qed.

Lemma with_errorMessage_normalized j : normalized (errorMessage (with_errorMessage j)).
Proof. apply or_undefined_normalized. Qed.

(** C8 (as amended). In the MySQL client, [updateJobStateById(id,
    'completed')] with no [errorMessage] argument clears the message of
    the job with that id, whatever it was: the missing argument is bound
    as NULL in [SET errorMessage = ?], so the stored row holds [null] and
    the returned job [undefined]. *)
Theorem MySql_update_clears_errorMessage c (i now : Z) x :
  List.NoDup (map id (Sql.rows c)) -> In x (Sql.rows c) -> id x = i ->
  exists r c',
    MySqlPoolClient.updateJobStateById i completed None now c = (Return r, c')
    /\ id r = i /\ state r = completed /\ errorMessage r = undefined
    /\ (exists x', In x' (Sql.rows c') /\ id x' = i)
    /\ (forall x', In x' (Sql.rows c') -> id x' = i ->
          state x' = completed /\ errorMessage x' = null).
Proof.
  intros Hnd Hin Hid.
  rewrite (MySql_update_found c i completed None now x Hnd Hin Hid).
  eexists _, _. split; [reflexivity|].
  split; [exact Hid|]. split; [reflexivity|]. split; [reflexivity|]. split.
  - exists (Sql.update_row (MySqlPoolClient.touch now) completed undefined x).
    split; [|exact Hid].
    apply (update_by_id_present _ completed undefined i c x Hin Hid).
  - intros x' Hx' Hx'i.
    apply (update_by_id_row (MySqlPoolClient.touch now) completed undefined i c x'
             Hx' Hx'i).
Qed.

(** C10. Every job that [insertJob], [acquireJob] or [updateJobStateById]
    of the PostgreSQL and of the MySQL client returns has an
    [errorMessage] that is [undefined] or a non-empty string, never [null]
    and never the empty string. *)
Theorem returned_errorMessage_normalized c (now : Z) :
  (forall payload_ state_ priority_ j c',
     PostgreSqlPoolClient.insertJob payload_ state_ priority_ now c = (Return j, c') ->
     normalized (errorMessage j))
  /\ (forall j c',
        PostgreSqlPoolClient.acquireJob now c = (Return j, c') ->
        normalized (errorMessage j))
  /\ (forall id_ state_ errorMessage_ j c',
        PostgreSqlPoolClient.updateJobStateById id_ state_ errorMessage_ now c
          = (Return j, c') ->
        normalized (errorMessage j))
  /\ (forall payload_ state_ priority_ j c',
        MySqlPoolClient.insertJob payload_ state_ priority_ now c = (Return j, c') ->
        normalized (errorMessage j))
  /\ (forall j c',
        MySqlPoolClient.acquireJob now c = (Return j, c') ->
        normalized (errorMessage j))
  /\ (forall id_ state_ errorMessage_ j c',
        MySqlPoolClient.updateJobStateById id_ state_ errorMessage_ now c
          = (Return j, c') ->
        normalized (errorMessage j)).
Proof.
  repeat split.
  - intros payload_ state_ priority_ j c'.
    unfold PostgreSqlPoolClient.insertJob, Sql.insert, bind, ret.
    destruct (negb (Sql.int4 priority_)); [discriminate|].
    destruct (negb (Sql.int4 (Sql.serial c))); [discriminate|].
    destruct (existsb _ _); intros [= <- _]. apply with_errorMessage_normalized.
  - intros j c'.
    unfold PostgreSqlPoolClient.acquireJob, PostgreSqlPoolClient.updateJobStateById,
      PostgreSqlPoolClient.beginTransaction, PostgreSqlPoolClient.commitTransaction,
      PostgreSqlPoolClient.rollbackTransaction, try_catch, bind, modify, get, ret, throw.
    simpl. destruct (Sql.select_next _ _) as [| wj rest]; simpl; [discriminate|].
    destruct (Sql.select_by_id _ _) as [| r rows']; simpl;
      [destruct (Sql.int4 _); discriminate|].
    intros [= <- _]. apply with_errorMessage_normalized.
  - intros id_ state_ errorMessage_ j c'.
    unfold PostgreSqlPoolClient.updateJobStateById, bind, modify, get, ret, throw. simpl.
    destruct (Sql.select_by_id _ _) as [| r rows']; simpl;
      [destruct (Sql.int4 _); discriminate|].
    intros [= <- _]. apply with_errorMessage_normalized.
  - intros payload_ state_ priority_ j c'.
    unfold MySqlPoolClient.insertJob, Sql.insert, bind, get, ret, throw.
    destruct (negb (Sql.int4 priority_)); [discriminate|].
    destruct (negb (Sql.int4 (Sql.serial c))); [discriminate|].
    destruct (existsb _ _); [discriminate|].
    destruct (Sql.select_by_id _ _) as [| r rows']; [discriminate|].
    intros [= <- _]. apply with_errorMessage_normalized.
  - intros j c'.
    unfold MySqlPoolClient.acquireJob, MySqlPoolClient.updateJobStateById,
      MySqlPoolClient.beginTransaction, MySqlPoolClient.commitTransaction,
      MySqlPoolClient.rollbackTransaction, try_catch, bind, modify, get, ret, throw.
    simpl. destruct (Sql.select_next _ _) as [| wj rest]; simpl; [discriminate|].
    destruct (Sql.select_by_id _ _) as [| r rows']; simpl; [discriminate|].
    intros [= <- _]. apply with_errorMessage_normalized.
  - intros id_ state_ errorMessage_ j c'.
    unfold MySqlPoolClient.updateJobStateById, bind, modify, get, ret, throw. simpl.
    destruct (Sql.select_by_id _ _) as [| r rows']; simpl; [discriminate|].
    intros [= <- _]. apply with_errorMessage_normalized.
Qed.
End ErrorMessage.

Example MySql_completed_after_boom :
  MySqlPoolClient.updateJobStateById 1 completed None 300 failed_with_boom
  = (Return (mkJob 1 tt completed 5 undefined 100 300),
     Sql.mkConnection [mkJob 1 tt completed 5 null 100 300] 2 None).
Proof. reflexivity. Qed.

(** C8 as stated, refuted: the message ["boom"] is not kept. *)
Lemma MySql_update_keeps_errorMessage_counterexample :
  ~ keeps_errorMessage (MySqlPoolClient.updateJobStateById 1 completed None 300)
      1 failed_with_boom.
Proof.
  intros Hkeeps.
  destruct (Hkeeps (mkJob 1 tt failed 5 (text "boom") 100 150)
              (or_introl eq_refl) eq_refl) as (r & c' & Hrun & Hr & _).
  rewrite MySql_completed_after_boom in Hrun.
  injection Hrun as <- _. discriminate Hr.
Qed.

Lemma MySql_update_clears_errorMessage_witness :
  exists r c',
    MySqlPoolClient.updateJobStateById 1 completed None 300 failed_with_boom
      = (Return r, c')
    /\ id r = 1 /\ state r = completed /\ errorMessage r = undefined
    /\ (exists x', In x' (Sql.rows c') /\ id x' = 1)
    /\ (forall x', In x' (Sql.rows c') -> id x' = 1 ->
          state x' = completed /\ errorMessage x' = null).
Proof.
  apply (MySql_update_clears_errorMessage failed_with_boom 1 300
           (mkJob 1 tt failed 5 (text "boom") 100 150)).
  - repeat constructor; simpl; intuition.
  - left; reflexivity.
  - reflexivity.
Defined.

Lemma returned_errorMessage_normalized_witness :
  normalized (errorMessage (mkJob 1 tt completed 5 (undefined : JsText) 100 300)).
Proof.
  apply (proj2 (proj2 (proj2 (proj2 (proj2
           (returned_errorMessage_normalized failed_with_boom 300)))))
           1 completed None _ _ eq_refl).
Defined.


Example Queue_Q_twice :
  fst (new_Queue "Q" None process_with_Q)
  = Throw (ThrownError (mkError Error_ "Queue with name 'Q' already exists.")).
Proof. reflexivity. Qed.

Example Queue_Q_after_close :
  fst (new_Queue "Q" None (Queue_close (fun d : unit => d) 0%nat process_with_Q))
  = Return 1%nat.
Proof. reflexivity. Qed.

(* ===================================================================== *)
(** * Further properties of the clients                                   *)
(* ===================================================================== *)

(** ** updateJobStateById *)

Section UpdateById.
Context {TPayload : Type}.

Lemma find_missing_id (l : list (Job TPayload)) i :
  (forall j, In j l -> id j <> i) -> List.find (fun job => id job =? i) l = None.
Proof.
  intros Hall. destruct (List.find (fun job => id job =? i) l) as [x |] eqn:Hfind;
    [|reflexivity].
  apply find_some in Hfind as [Hin Hid]. apply Z.eqb_eq in Hid.
  now destruct (Hall x Hin).
Qed.

Lemma update_by_id_missing touch st em i (c : Sql.Connection TPayload) :
  (forall j, In j (Sql.rows c) -> id j <> i) ->
  Sql.update_by_id touch st em i c = c.
Proof.
  intros Hall. destruct c as [rows serial snap]. unfold Sql.update_by_id. simpl in *.
  f_equal. rewrite <- (map_id rows) at 2. apply map_ext_in.
  intros r Hr. destruct (Z.eqb_spec (id r) i); [now destruct (Hall r Hr) | reflexivity].
Qed.

Lemma select_by_id_missing i (c : Sql.Connection TPayload) :
  (forall j, In j (Sql.rows c) -> id j <> i) -> Sql.select_by_id i c = [].
Proof.
  intros Hall. unfold Sql.select_by_id.
  destruct (List.filter (fun r => id r =? i) (Sql.rows c)) as [| x l] eqn:Hf;
    [reflexivity|].
  assert (In x (List.filter (fun r => id r =? i) (Sql.rows c))) as Hin
    by (rewrite Hf; now left).
  apply filter_In in Hin as [Hin Hid]. apply Z.eqb_eq in Hid. now destruct (Hall x Hin).
Qed.

(** X1. [updateJobStateById] with an id that no job has changes nothing
    in the store and throws: on the mock and on MySQL, and on PostgreSQL
    for an id that fits the INTEGER column, a [JobNotFoundError] built
    from [{ id }], which is not an [AcquirableJobNotFoundError]; on
    PostgreSQL for an id outside 32 bits, the error of the server, which
    is not a [JobNotFoundError]. *)
Theorem updateJobStateById_unknown_id (i : Z) (state_ : JobState)
    (errorMessage_ : option string) (now : Z) :
  (forall s : MockDatabasePoolClient.Statics TPayload,
     (forall j, In j (MockDatabasePoolClient.jobs s) -> id j <> i) ->
     MockDatabasePoolClient.updateJobStateById i state_ errorMessage_ now s
     = (Throw (ThrownError (JobNotFoundError (DetailsId i))), s))
  /\ (forall c : Sql.Connection TPayload,
        (forall j, In j (Sql.rows c) -> id j <> i) ->
        -2147483648 <= i <= 2147483647 ->
        PostgreSqlPoolClient.updateJobStateById i state_ errorMessage_ now c
        = (Throw (ThrownError (JobNotFoundError (DetailsId i))), c))
  /\ (forall c : Sql.Connection TPayload,
        (forall j, In j (Sql.rows c) -> id j <> i) ->
        i < -2147483648 \/ 2147483647 < i ->
        exists error,
          PostgreSqlPoolClient.updateJobStateById i state_ errorMessage_ now c
          = (Throw (ThrownError error), c)
          /\ instanceof error JobNotFoundError_ = false)
  /\ (forall c : Sql.Connection TPayload,
        (forall j, In j (Sql.rows c) -> id j <> i) ->
        MySqlPoolClient.updateJobStateById i state_ errorMessage_ now c
        = (Throw (ThrownError (JobNotFoundError (DetailsId i))), c))
  /\ class (JobNotFoundError (DetailsId i)) = JobNotFoundError_
  /\ instanceof (JobNotFoundError (DetailsId i)) AcquirableJobNotFoundError_ = false.
Proof.
  split; [|split; [|split; [|split; [|split]]]]; try reflexivity.
  - intros s Hall. unfold MockDatabasePoolClient.updateJobStateById.
    now rewrite find_missing_id.
  - intros c Hall Hrange.
    unfold PostgreSqlPoolClient.updateJobStateById, bind, modify, get, throw. simpl.
    rewrite update_by_id_missing by exact Hall.
    rewrite select_by_id_missing by exact Hall.
    unfold Sql.int4.
    destruct (Z.leb_spec (-2147483648) i); [|lia].
    destruct (Z.leb_spec i 2147483647); [reflexivity | lia].
  - intros c Hall Hrange. exists Sql.numeric_value_out_of_range.
    split; [|reflexivity].
    unfold PostgreSqlPoolClient.updateJobStateById, bind, modify, get, throw. simpl.
    rewrite update_by_id_missing by exact Hall.
    rewrite select_by_id_missing by exact Hall.
    unfold Sql.int4.
    destruct (Z.leb_spec (-2147483648) i); [|reflexivity].
    destruct (Z.leb_spec i 2147483647); [lia | reflexivity].
  - intros c Hall.
    unfold MySqlPoolClient.updateJobStateById, bind, modify, get, throw. simpl.
    rewrite update_by_id_missing by exact Hall.
    now rewrite select_by_id_missing.
Qed.

End UpdateById.

Lemma updateJobStateById_unknown_id_witness :
  MockDatabasePoolClient.updateJobStateById 7 completed None 300
    (MockDatabasePoolClient.mkStatics 4 three_jobs [])
  = (Throw (ThrownError
       (mkError JobNotFoundError_
          ("Couldn't find any job with details: {" +:+ dquote +:+ "id" +:+ dquote
             +:+ ":7}"))),
     MockDatabasePoolClient.mkStatics 4 three_jobs [])
  /\ exists error,
       PostgreSqlPoolClient.updateJobStateById 2147483648 completed None 300
         failed_with_boom
       = (Throw (ThrownError error), failed_with_boom)
       /\ instanceof error JobNotFoundError_ = false.
Proof.
  split.
  - apply (proj1 (updateJobStateById_unknown_id 7 completed None 300)
             (MockDatabasePoolClient.mkStatics 4 three_jobs [])).
    simpl. intros j [<- | [<- | [<- | []]]]; discriminate.
  - apply (proj1 (proj2 (proj2 (updateJobStateById_unknown_id
                                  2147483648 completed None 300)))
             failed_with_boom).
    + simpl. intros j [<- | []]. discriminate.
    + right. lia.
Defined.


(** ** Counting jobs *)

Section Counting.
Context {TPayload : Type}.
Implicit Types (l : list (Job TPayload)).

Lemma fromEntries_lookup {V} (f : JobState -> V) (keys : list JobState) (k : JobState) :
  fromEntries (map (fun state_ => (state_, f state_)) keys) !! k
  = if existsb (JobState_eqb k) keys then Some (f k) else None.
Proof.
  unfold fromEntries.
  assert (forall (o : gmap JobState V),
            fold_left (fun o entry => <[fst entry := snd entry]> o)
                      (map (fun state_ => (state_, f state_)) keys) o !! k
            = if existsb (JobState_eqb k) keys then Some (f k) else o !! k) as H.
  { induction keys as [| k' keys IH]; intros o; simpl; [reflexivity|].
    rewrite IH. unfold JobState_eqb at 2.
    destruct (existsb (JobState_eqb k) keys); [now rewrite orb_true_r|].
    rewrite orb_false_r. case_bool_decide as Hk.
    - subst k'. apply lookup_insert_eq.
    - apply lookup_insert_ne. congruence. }
  rewrite H. now rewrite lookup_empty.
Qed.

Lemma sum_case_when state_ l :
  fold_right Z.add 0 (map (case_when_state state_) l) = count_state state_ l.
Proof.
  unfold count_state, case_when_state.
  induction l as [| j l IH]; simpl; [reflexivity|].
  rewrite IH. destruct (JobState_eqb (state j) state_); simpl; lia.
Qed.

Lemma sql_sum_case_when state_ l :
  sql_sum (map (case_when_state state_) l)
  = match l with [] => None | _ => Some (count_state state_ l) end.
Proof.
  destruct l as [| j l]; [reflexivity|].
  unfold sql_sum. rewrite <- sum_case_when. reflexivity.
Qed.

Lemma coalesce_sum_case_when state_ l :
  default 0 (sql_sum (map (case_when_state state_) l)) = count_state state_ l.
Proof. rewrite sql_sum_case_when. now destruct l. Qed.

Lemma count_state_app state_ l l' :
  count_state state_ (l ++ l') = count_state state_ l + count_state state_ l'.
Proof. unfold count_state. rewrite List.filter_app, length_app. lia. Qed.

Lemma count_state_partition l :
  count_state waiting l + count_state active l
  + count_state completed l + count_state failed l = Z.of_nat (length l).
Proof.
  unfold count_state. induction l as [| j l IH]; simpl; [reflexivity|].
  destruct (state j); simpl; lia.
Qed.

(** X3. [countJobsByState] returns an object with exactly the requested
    states as keys.  On the mock and on PostgreSQL each key holds the
    number of jobs in that state; on MySQL it holds that number when the
    table has a row and [null] when the table is empty, the SUM not being
    wrapped in COALESCE there.  The four states partition the jobs. *)
Theorem countJobsByState_counts (state0 : JobState) (states : list JobState)
    (k : JobState) :
  (forall s : MockDatabasePoolClient.Statics TPayload,
     exists o,
       Mock_countJobsByState state0 states s = (Return o, s)
       /\ o !! k = if existsb (JobState_eqb k) (state0 :: states)
                   then Some (count_state k (MockDatabasePoolClient.jobs s)) else None)
  /\ (forall c : Sql.Connection TPayload,
        exists o,
          PostgreSql_countJobsByState state0 states c = (Return o, c)
          /\ o !! k = if existsb (JobState_eqb k) (state0 :: states)
                      then Some (count_state k (Sql.rows c)) else None)
  /\ (forall c : Sql.Connection TPayload,
        exists o,
          MySql_countJobsByState state0 states c = (Return o, c)
          /\ o !! k = if existsb (JobState_eqb k) (state0 :: states)
                      then Some (match Sql.rows c with
                                 | [] => None
                                 | _ => Some (count_state k (Sql.rows c))
                                 end)
                      else None)
  /\ (forall l,
        count_state waiting l + count_state active l
        + count_state completed l + count_state failed l = Z.of_nat (length l)).
Proof.
  split; [|split; [|split]].
  - intros s. eexists. split; [reflexivity|].
    apply (fromEntries_lookup
             (fun state_ => count_state state_ (MockDatabasePoolClient.jobs s))).
  - intros c. eexists. split; [reflexivity|].
    rewrite (fromEntries_lookup
               (fun state_ => default 0 (sql_sum (map (case_when_state state_)
                                                      (Sql.rows c))))).
    now rewrite coalesce_sum_case_when.
  - intros c. eexists. split; [reflexivity|].
    rewrite (fromEntries_lookup
               (fun state_ => sql_sum (map (case_when_state state_) (Sql.rows c)))).
    now rewrite sql_sum_case_when.
  - apply count_state_partition.
Qed.

Lemma int4_fits (v : Z) : fits_INTEGER v -> Sql.int4 v = true.
Proof.
  unfold fits_INTEGER, Sql.int4. intros [Hlo Hhi].
  apply andb_true_iff. split; now apply Z.leb_le.
Qed.

Lemma int4_does_not_fit (v : Z) : ~ fits_INTEGER v -> Sql.int4 v = false.
Proof.
  unfold fits_INTEGER, Sql.int4. intros Hout.
  destruct (Z.leb_spec (-2147483648) v); [|reflexivity].
  destruct (Z.leb_spec v 2147483647); [|reflexivity]. lia.
Qed.

Lemma insert_stores (c : Sql.Connection TPayload) payload_ state_ priority_ now :
  fits_INTEGER priority_ -> fits_INTEGER (Sql.serial c) ->
  (forall j, In j (Sql.rows c) -> id j <> Sql.serial c) ->
  Sql.insert payload_ state_ priority_ now c
  = (Return (Sql.insert_row payload_ state_ priority_ now c),
     Sql.mkConnection (Sql.rows c ++ [Sql.insert_row payload_ state_ priority_ now c])
                      (Sql.serial c + 1) (Sql.snapshot c)).
Proof.
  intros Hp Hs Hall. unfold Sql.insert.
  rewrite (int4_fits _ Hp), (int4_fits _ Hs). simpl.
  destruct (existsb _ _) eqn:Hex; [|reflexivity].
  apply existsb_exists in Hex as (r & Hr & Hid). apply Z.eqb_eq in Hid.
  now destruct (Hall r Hr).
Qed.

Lemma insert_refused (c : Sql.Connection TPayload) payload_ state_ priority_ now :
  ~ fits_INTEGER priority_ ->
  Sql.insert payload_ state_ priority_ now c
  = (Throw (ThrownError Sql.numeric_value_out_of_range), c).
Proof.
  intros Hp. unfold Sql.insert. now rewrite (int4_does_not_fit _ Hp).
Qed.

Lemma PostgreSql_add_stores (c : Sql.Connection TPayload) payload_ priority_ now :
  fits_INTEGER (default defaultJobPriority priority_) -> fits_INTEGER (Sql.serial c) ->
  (forall j, In j (Sql.rows c) -> id j <> Sql.serial c) ->
  AbstractDatabaseQueue.add PostgreSqlClient payload_ priority_ now c
  = (Return (added (Sql.serial c) payload_ priority_ now),
     Sql.mkConnection
       (Sql.rows c ++ [Sql.insert_row payload_ waiting
                         (default defaultJobPriority priority_) now c])
       (Sql.serial c + 1) (Sql.snapshot c)).
Proof.
  intros Hp Hs Hall. unfold AbstractDatabaseQueue.add, try_finally.
  cbn [client_insertJob PostgreSqlClient].
  unfold PostgreSqlPoolClient.insertJob, bind, ret.
  now rewrite (insert_stores c _ _ _ _ Hp Hs Hall).
Qed.

Lemma MySql_add_stores (c : Sql.Connection TPayload) payload_ priority_ now :
  fits_INTEGER (default defaultJobPriority priority_) -> fits_INTEGER (Sql.serial c) ->
  (forall j, In j (Sql.rows c) -> id j <> Sql.serial c) ->
  AbstractDatabaseQueue.add MySqlClient payload_ priority_ now c
  = (Return (added (Sql.serial c) payload_ priority_ now),
     Sql.mkConnection
       (Sql.rows c ++ [Sql.insert_row payload_ waiting
                         (default defaultJobPriority priority_) now c])
       (Sql.serial c + 1) (Sql.snapshot c)).
Proof.
  intros Hp Hs Hall. unfold AbstractDatabaseQueue.add, try_finally.
  cbn [client_insertJob MySqlClient].
  unfold MySqlPoolClient.insertJob, bind, ret, get.
  rewrite (insert_stores c _ _ _ _ Hp Hs Hall).
  unfold Sql.select_by_id. cbn [Sql.rows Sql.insert_row id].
  rewrite List.filter_app.
  assert (List.filter (fun r => id r =? Sql.serial c) (Sql.rows c) = []) as ->
    by apply (select_by_id_missing (Sql.serial c) c Hall).
  simpl. rewrite Z.eqb_refl. reflexivity.
Qed.

(** X4. [add] returns a waiting job with the payload given and the
    priority given, or 5 when none is given, stores it after the jobs that
    were there, and raises the count of waiting jobs by one and no other
    count.  The mock does so for every priority; the SQL clients do so
    when the priority and the next id fit the INTEGER columns and the
    next id is unused, and for a priority outside 32 bits their [add]
    throws the error of the server, which is not a [JobNotFoundError],
    and stores nothing. *)
Theorem add_appends_one_waiting_job (payload_ : TPayload) (priority_ : option Z)
    (now : Z) (k : JobState) :
  (forall s : MockDatabasePoolClient.Statics TPayload,
     exists s',
       AbstractDatabaseQueue.add MockClient payload_ priority_ now s
       = (Return (added (MockDatabasePoolClient.static_id s) payload_ priority_ now), s')
       /\ MockDatabasePoolClient.jobs s'
          = MockDatabasePoolClient.jobs s
              ++ [added (MockDatabasePoolClient.static_id s) payload_ priority_ now]
       /\ count_state k (MockDatabasePoolClient.jobs s')
          = count_state k (MockDatabasePoolClient.jobs s)
            + (if JobState_eqb waiting k then 1 else 0))
  /\ (forall client,
        client = PostgreSqlClient \/ client = MySqlClient ->
        forall c : Sql.Connection TPayload,
        fits_INTEGER (default 5 priority_) -> fits_INTEGER (Sql.serial c) ->
        (forall j, In j (Sql.rows c) -> id j <> Sql.serial c) ->
        exists stored c',
          AbstractDatabaseQueue.add client payload_ priority_ now c
          = (Return (added (Sql.serial c) payload_ priority_ now), c')
          /\ Sql.rows c' = Sql.rows c ++ [stored]
          /\ with_errorMessage stored = added (Sql.serial c) payload_ priority_ now
          /\ count_state k (Sql.rows c')
             = count_state k (Sql.rows c) + (if JobState_eqb waiting k then 1 else 0))
  /\ (forall client,
        client = PostgreSqlClient \/ client = MySqlClient ->
        forall c : Sql.Connection TPayload,
        ~ fits_INTEGER (default 5 priority_) ->
        exists error,
          AbstractDatabaseQueue.add client payload_ priority_ now c
          = (Throw (ThrownError error), c)
          /\ instanceof error JobNotFoundError_ = false).
Proof.
  assert (forall (j : Job TPayload), state j = waiting ->
            count_state k [j] = if JobState_eqb waiting k then 1 else 0) as Hone.
  { intros j Hj. unfold count_state. simpl. rewrite Hj.
    now destruct (JobState_eqb waiting k). }
  split; [|split].
  - intros s.
    exists (MockDatabasePoolClient.mkStatics (MockDatabasePoolClient.static_id s + 1)
              (MockDatabasePoolClient.jobs s
                 ++ [added (MockDatabasePoolClient.static_id s) payload_ priority_ now])
              (MockDatabasePoolClient.lockedJobsIds s)).
    split; [reflexivity|]. split; [reflexivity|].
    cbn [MockDatabasePoolClient.jobs]. rewrite count_state_app. f_equal. now apply Hone.
  - intros client Hclient c Hp Hs Hall.
    exists (Sql.insert_row payload_ waiting (default defaultJobPriority priority_) now c),
           (Sql.mkConnection
              (Sql.rows c ++ [Sql.insert_row payload_ waiting
                                (default defaultJobPriority priority_) now c])
              (Sql.serial c + 1) (Sql.snapshot c)).
    split.
    { destruct Hclient as [-> | ->];
        [now apply PostgreSql_add_stores | now apply MySql_add_stores]. }
    split; [reflexivity|]. split; [reflexivity|].
    cbn [Sql.rows]. rewrite count_state_app. f_equal. now apply Hone.
  - intros client Hclient c Hp. exists Sql.numeric_value_out_of_range.
    split; [|reflexivity].
    unfold AbstractDatabaseQueue.add, try_finally.
    destruct Hclient as [-> | ->].
    + cbn [client_insertJob client_release PostgreSqlClient].
      unfold PostgreSqlPoolClient.insertJob, bind.
      now rewrite (insert_refused c _ _ _ _ Hp).
    + cbn [client_insertJob client_release MySqlClient].
      unfold MySqlPoolClient.insertJob, bind.
      now rewrite (insert_refused c _ _ _ _ Hp).
Qed.

(** X5. [empty()] leaves no job behind on any client; the counts a
    [getJobCounts] then reports are 0 on the mock and on PostgreSQL and
    [null] on MySQL. *)
Theorem empty_removes_every_job (state0 : JobState) (states : list JobState)
    (k : JobState) :
  existsb (JobState_eqb k) (state0 :: states) = true ->
  (forall s : MockDatabasePoolClient.Statics TPayload,
     exists s',
       AbstractDatabaseQueue.empty MockClient s = (Return tt, s')
       /\ MockDatabasePoolClient.jobs s' = []
       /\ exists o,
            fst (getJobCounts MockDatabasePoolClient.release Mock_countJobsByState
                              state0 states s') = Return o
            /\ o !! k = Some 0)
  /\ (forall c : Sql.Connection TPayload,
        exists c',
          AbstractDatabaseQueue.empty PostgreSqlClient c = (Return tt, c')
          /\ Sql.rows c' = []
          /\ exists o,
               fst (getJobCounts (fun c => c) PostgreSql_countJobsByState
                                 state0 states c') = Return o
               /\ o !! k = Some 0)
  /\ (forall c : Sql.Connection TPayload,
        exists c',
          AbstractDatabaseQueue.empty MySqlClient c = (Return tt, c')
          /\ Sql.rows c' = []
          /\ exists o,
               fst (getJobCounts (fun c => c) MySql_countJobsByState
                                 state0 states c') = Return o
               /\ o !! k = Some None).
Proof.
  intros Hk.
  assert (forall l : list (Job TPayload),
            List.filter
              (fun job => negb (existsb (JobState_eqb (state job))
                                        [waiting; active; completed; failed])) l = [])
    as Hnone.
  { intros l. rewrite (filter_ext _ (fun _ => false)).
    - induction l as [| j l IH]; [reflexivity | exact IH].
    - intros j. now destruct (state j). }
  split; [|split].
  - intros s. eexists. split; [reflexivity|].
    cbn [MockDatabasePoolClient.jobs snd]. unfold MockDatabasePoolClient.state_in.
    rewrite Hnone. split; [reflexivity|].
    eexists. split; [reflexivity|].
    rewrite (fromEntries_lookup
               (fun state_ => count_state state_ ([] : list (Job TPayload)))).
    now rewrite Hk.
  - intros c. eexists. split; [reflexivity|].
    unfold Sql.delete_by_state. cbn [Sql.rows]. rewrite Hnone. split; [reflexivity|].
    eexists. split; [reflexivity|].
    rewrite fromEntries_lookup, Hk. reflexivity.
  - intros c. eexists. split; [reflexivity|].
    unfold Sql.delete_by_state. cbn [Sql.rows]. rewrite Hnone. split; [reflexivity|].
    eexists. split; [reflexivity|].
    rewrite fromEntries_lookup, Hk. reflexivity.
Qed.
End Counting.

(** ** From add to acquire *)

Section AddThenAcquire.
Context {TPayload : Type}.

Lemma PostgreSql_add_rows (c : Sql.Connection TPayload) payload_ priority_ now :
  fits_INTEGER (default defaultJobPriority priority_) -> fits_INTEGER (Sql.serial c) ->
  (forall j, In j (Sql.rows c) -> id j <> Sql.serial c) ->
  Sql.rows (snd (AbstractDatabaseQueue.add PostgreSqlClient payload_ priority_ now c))
  = Sql.rows c ++ [Sql.insert_row payload_ waiting
                     (default defaultJobPriority priority_) now c].
Proof. intros Hp Hs Hall. now rewrite (PostgreSql_add_stores c _ _ _ Hp Hs Hall). Qed.

Lemma MySql_add_rows (c : Sql.Connection TPayload) payload_ priority_ now :
  fits_INTEGER (default defaultJobPriority priority_) -> fits_INTEGER (Sql.serial c) ->
  (forall j, In j (Sql.rows c) -> id j <> Sql.serial c) ->
  Sql.rows (snd (AbstractDatabaseQueue.add MySqlClient payload_ priority_ now c))
  = Sql.rows c ++ [Sql.insert_row payload_ waiting
                     (default defaultJobPriority priority_) now c].
Proof. intros Hp Hs Hall. now rewrite (MySql_add_stores c _ _ _ Hp Hs Hall). Qed.

Lemma rows_with_new_row_distinct (c : Sql.Connection TPayload) (r : Job TPayload) :
  List.NoDup (map id (Sql.rows c)) ->
  (forall j, In j (Sql.rows c) -> id j <> id r) ->
  List.NoDup (map id (Sql.rows c ++ [r])).
Proof.
  intros Hnd Hall. rewrite map_app. apply List.NoDup_app.
  - exact Hnd.
  - repeat constructor. intros [].
  - intros i Hi [<- | []]. apply in_map_iff in Hi as (j & Hj & Hin).
    now destruct (Hall j Hin).
Qed.

(** The only eligible job of a list whose old jobs are not waiting is the
    new one. *)
Lemma leased_the_new_job (eligible : Job TPayload -> bool) now
    (before after : list (Job TPayload)) (new : Job TPayload) result
    (old : list (Job TPayload)) :
  before = old ++ [new] ->
  (forall j, In j old -> eligible j = false) ->
  leased eligible now before after result ->
  result = Return (activated now new).
Proof.
  intros -> Hold (j & Hin & Hel & _ & Hres & _).
  apply in_app_iff in Hin as [Hin | [<- | []]]; [|exact Hres].
  rewrite (Hold j Hin) in Hel. discriminate.
Qed.

(** X6. On a store that holds no waiting job, [add] followed by
    [acquireJob] hands back the job that was added, now [active], with the
    payload and the priority of the [add] (5 when none was given).  On
    the mock the new id must not be locked; on the SQL clients the
    priority and the next id must fit the INTEGER columns. *)
Theorem add_then_acquireJob (payload_ : TPayload) (priority_ : option Z) (t1 t2 : Z) :
  (forall s : MockDatabasePoolClient.Statics TPayload,
     ids_fresh s ->
     (forall j, In j (MockDatabasePoolClient.jobs s) -> state j <> waiting) ->
     ~ In (MockDatabasePoolClient.static_id s) (MockDatabasePoolClient.lockedJobsIds s) ->
     fst (MockDatabasePoolClient.acquireJob t2
            (snd (AbstractDatabaseQueue.add MockClient payload_ priority_ t1 s)))
     = Return (mkJob (MockDatabasePoolClient.static_id s) payload_ active
                     (default 5 priority_) undefined t1 t2))
  /\ (forall c : Sql.Connection TPayload,
        List.NoDup (map id (Sql.rows c)) ->
        (forall j, In j (Sql.rows c) -> id j <> Sql.serial c) ->
        (forall j, In j (Sql.rows c) -> state j <> waiting) ->
        fits_INTEGER (default 5 priority_) -> fits_INTEGER (Sql.serial c) ->
        fst (PostgreSqlPoolClient.acquireJob t2
               (snd (AbstractDatabaseQueue.add PostgreSqlClient payload_ priority_ t1 c)))
        = Return (mkJob (Sql.serial c) payload_ active (default 5 priority_)
                        undefined t1 t2))
  /\ (forall c : Sql.Connection TPayload,
        List.NoDup (map id (Sql.rows c)) ->
        (forall j, In j (Sql.rows c) -> id j <> Sql.serial c) ->
        (forall j, In j (Sql.rows c) -> state j <> waiting) ->
        fits_INTEGER (default 5 priority_) -> fits_INTEGER (Sql.serial c) ->
        fst (MySqlPoolClient.acquireJob t2
               (snd (AbstractDatabaseQueue.add MySqlClient payload_ priority_ t1 c)))
        = Return (mkJob (Sql.serial c) payload_ active (default 5 priority_)
                        undefined t1 t2)).
Proof.
  split; [|split].
  - intros s [Hnd Hlt] Hnone Hlock.
    set (new := added (MockDatabasePoolClient.static_id s) payload_ priority_ t1).
    set (s1 := snd (AbstractDatabaseQueue.add MockClient payload_ priority_ t1 s)).
    assert (MockDatabasePoolClient.jobs s1 = MockDatabasePoolClient.jobs s ++ [new])
      as Hjobs by reflexivity.
    assert (MockDatabasePoolClient.lockedJobsIds s1 = MockDatabasePoolClient.lockedJobsIds s)
      as Hlocks by reflexivity.
    assert (List.NoDup (map id (MockDatabasePoolClient.jobs s1))) as Hnd1.
    { rewrite Hjobs, map_app. apply List.NoDup_app.
      - exact Hnd.
      - repeat constructor. intros [].
      - intros i Hi [<- | []]. apply Hlt in Hi. simpl in Hi. lia. }
    destruct (Mock_acquireJob_leases s1 t2 Hnd1) as [Hleased _].
    { exists new. split; [rewrite Hjobs; apply in_app_iff; right; now left|].
      rewrite Hlocks. unfold MockDatabasePoolClient.acquirable. simpl.
      now rewrite (not_includes _ _ Hlock). }
    refine (leased_the_new_job _ _ _ _ new _ (MockDatabasePoolClient.jobs s)
              Hjobs _ Hleased).
    intros j Hj. unfold MockDatabasePoolClient.acquirable, JobState_eqb.
    rewrite bool_decide_eq_false_2; [reflexivity | now apply Hnone].
  - intros c Hnd Hfree Hnone Hp Hs.
    pose proof (PostgreSql_add_rows c payload_ priority_ t1 Hp Hs Hfree) as Hrows.
    set (c1 := snd (AbstractDatabaseQueue.add PostgreSqlClient payload_ priority_ t1 c))
      in *.
    set (new := Sql.insert_row payload_ waiting (default defaultJobPriority priority_)
                               t1 c) in *.
    assert (List.NoDup (map id (Sql.rows c1))) as Hnd1
      by (rewrite Hrows; now apply rows_with_new_row_distinct).
    assert (leased is_waiting t2 (Sql.rows c1)
              (Sql.rows (snd (PostgreSqlPoolClient.acquireJob t2 c1)))
              (fst (PostgreSqlPoolClient.acquireJob t2 c1))) as Hleased.
    { apply PostgreSql_acquireJob_leases; [exact Hnd1|].
      exists new. split; [rewrite Hrows; apply in_app_iff; right; now left | reflexivity]. }
    refine (leased_the_new_job _ _ _ _ new _ (Sql.rows c) Hrows _ Hleased).
    intros j Hj. unfold is_waiting, JobState_eqb.
    rewrite bool_decide_eq_false_2; [reflexivity | now apply Hnone].
  - intros c Hnd Hfree Hnone Hp Hs.
    pose proof (MySql_add_rows c payload_ priority_ t1 Hp Hs Hfree) as Hrows.
    set (c1 := snd (AbstractDatabaseQueue.add MySqlClient payload_ priority_ t1 c)) in *.
    set (new := Sql.insert_row payload_ waiting (default defaultJobPriority priority_)
                               t1 c) in *.
    assert (List.NoDup (map id (Sql.rows c1))) as Hnd1
      by (rewrite Hrows; now apply rows_with_new_row_distinct).
    assert (leased is_waiting t2 (Sql.rows c1)
              (Sql.rows (snd (MySqlPoolClient.acquireJob t2 c1)))
              (fst (MySqlPoolClient.acquireJob t2 c1))) as Hleased.
    { apply MySql_acquireJob_leases; [exact Hnd1|].
      exists new. split; [rewrite Hrows; apply in_app_iff; right; now left | reflexivity]. }
    refine (leased_the_new_job _ _ _ _ new _ (Sql.rows c) Hrows _ Hleased).
    intros j Hj. unfold is_waiting, JobState_eqb.
    rewrite bool_decide_eq_false_2; [reflexivity | now apply Hnone].
Qed.

(** X7. [acquireJob] of the SQL clients never leaves its transaction
    open, whether it returns or throws, and never moves the id sequence;
    when it throws on a connection that was idle, the table is as it was
    before the call. *)
Theorem acquireJob_ends_its_transaction (now : Z) (c : Sql.Connection TPayload) :
  (Sql.snapshot (snd (PostgreSqlPoolClient.acquireJob now c)) = None
   /\ Sql.serial (snd (PostgreSqlPoolClient.acquireJob now c)) = Sql.serial c)
  /\ (Sql.snapshot (snd (MySqlPoolClient.acquireJob now c)) = None
      /\ Sql.serial (snd (MySqlPoolClient.acquireJob now c)) = Sql.serial c)
  /\ (forall t c',
        Sql.snapshot c = None ->
        PostgreSqlPoolClient.acquireJob now c = (Throw t, c') -> c' = c)
  /\ (forall t c',
        Sql.snapshot c = None ->
        MySqlPoolClient.acquireJob now c = (Throw t, c') -> c' = c).
Proof.
  destruct c as [rows serial snap].
  unfold PostgreSqlPoolClient.acquireJob, PostgreSqlPoolClient.updateJobStateById,
    PostgreSqlPoolClient.beginTransaction, PostgreSqlPoolClient.commitTransaction,
    PostgreSqlPoolClient.rollbackTransaction,
    MySqlPoolClient.acquireJob, MySqlPoolClient.updateJobStateById,
    MySqlPoolClient.beginTransaction, MySqlPoolClient.commitTransaction,
    MySqlPoolClient.rollbackTransaction, try_catch, bind, modify, get, ret, throw.
  simpl.
  repeat split.
  - destruct snap; simpl; destruct (Sql.select_next _ _); simpl;
      try reflexivity; destruct (Sql.select_by_id _ _); simpl;
      try destruct (Sql.int4 _); reflexivity.
  - destruct snap; simpl; destruct (Sql.select_next _ _); simpl;
      try reflexivity; destruct (Sql.select_by_id _ _); simpl;
      try destruct (Sql.int4 _); reflexivity.
  - destruct (Sql.select_next _ _); simpl;
      try reflexivity; destruct (Sql.select_by_id _ _); simpl;
      try destruct (Sql.int4 _); reflexivity.
  - destruct (Sql.select_next _ _); simpl;
      try reflexivity; destruct (Sql.select_by_id _ _); simpl;
      try destruct (Sql.int4 _); reflexivity.
  - intros t c' ->. simpl. destruct (Sql.select_next _ _); simpl.
    + now intros [= _ <-].
    + destruct (Sql.select_by_id _ _); simpl;
        [try destruct (Sql.int4 _); now intros [= _ <-] | discriminate].
  - intros t c' ->. destruct (Sql.select_next _ _); simpl.
    + now intros [= _ <-].
    + destruct (Sql.select_by_id _ _); simpl;
        [try destruct (Sql.int4 _); now intros [= _ <-] | discriminate].
Qed.
End AddThenAcquire.

(* ===================================================================== *)
(** * Further properties of the worker                                    *)
(* ===================================================================== *)

Section RetryReturns.
Context {W TResult : Type}.
Variable setTimeout : Z -> W -> W.
Variable function_ : M W TResult.
Variable delayInterval : Z.

Lemma retry_returns (n : Z) (k : nat) (w : W) r w' :
  (1 <= k)%nat -> Z.of_nat k <= n ->
  returns_at setTimeout function_ delayInterval k w r w' ->
  retry (spy_setTimeout setTimeout) (spy function_) n delayInterval (w, 0%nat)
  = (Return r, (w', k)).
Proof.
  intros Hk Hkn [Hfail Hlast].
  unfold retry.
  rewrite (attempt_after_failures setTimeout function_ delayInterval n (k - 1));
    [|lia | exact Hfail].
  rewrite attempt_step. unfold spy at 1. rewrite Hlast.
  do 2 f_equal. lia.
Qed.
End RetryReturns.

Section WorkerSuccess.
Context {TPayload Store Env : Type}.
Variable client : AbstractDatabasePoolClient TPayload Store.
Variable now : Env -> Z.
Variable setTimeout : Z -> Env -> Env.
Variable processor : Job TPayload -> M Env unit.
Variable options : DatabaseWorkerOptions.
Variable emitter : QueueEmitter.

Lemma processJob_completes st e ev job st1 (k : nat) e' completedJob st2 :
  client_acquireJob client (now e) st = (Return job, st1) ->
  (1 <= k)%nat -> Z.of_nat k <= maxRetries options ->
  returns_at setTimeout (processor job) (retryInterval options) k e tt e' ->
  client_updateJobStateById client (id job) completed None (now e') st1
    = (Return completedJob, st2) ->
  spied_processJob client now setTimeout processor options (mkWorld st (e, 0%nat) ev) =
    (Return tt, mkWorld st2 (e', k) (ev ++ success_events job completedJob)).
Proof.
  intros Hacq Hk Hkn Hret Hupd.
  unfold spied_processJob, processJob, bind, on_store at 1. simpl.
  rewrite Hacq. unfold emit, modify, try_catch, bind. simpl.
  unfold retry.
  rewrite (attempt_on_env _ _ _ _ _ _ (Z.to_nat (maxRetries options - 1))) by lia.
  fold (retry (spy_setTimeout setTimeout) (spy (processor job))
              (maxRetries options) (retryInterval options)).
  rewrite (retry_returns setTimeout (processor job) (retryInterval options)
             (maxRetries options) k e tt e' Hk Hkn Hret).
  cbn. unfold on_store. cbn. rewrite Hupd. cbn.
  unfold success_events. rewrite <- !app_assoc. reflexivity.
Qed.

(** A step that finds nothing to lease throws what [acquireJob] threw and
    does nothing else. *)
Lemma processJob_nothing_acquired st e ev t st1 :
  client_acquireJob client (now e) st = (Throw t, st1) ->
  processJob client now setTimeout processor options (mkWorld st e ev)
  = (Throw t, mkWorld st1 e ev).
Proof.
  intros Hacq. unfold processJob, bind, on_store at 1. simpl. now rewrite Hacq.
Qed.

(** With a listener for ['error'] on the queue, a turn of the loop
    returns whatever its step did. *)
Lemma processJobs_cycle_returns w :
  has_error_listener emitter = true ->
  exists w',
    processJobs_cycle client now setTimeout processor options emitter w = (Return tt, w').
Proof.
  intros Hlistener.
  unfold processJobs_cycle, try_catch, try_finally, bind, sleep, modify, emit_error, emit.
  simpl. rewrite Hlistener.
  destruct (processJob client now setTimeout processor options _) as [[[] | t] w2];
    simpl; [eauto|].
  destruct (is_AcquirableJobNotFoundError t); simpl; eauto.
Qed.

Lemma not_AcquirableJobNotFoundError (t : Thrown) :
  (forall e, t = ThrownError e -> class e <> AcquirableJobNotFoundError_) ->
  is_AcquirableJobNotFoundError t = false.
Proof.
  destruct t as [[c m] | v]; [|reflexivity].
  intros H. specialize (H _ eq_refl). now destruct c.
Qed.

(** X8. The outcomes of a turn of the polling loop, for every client and
    every processor, the listeners of the events returning.  A turn whose
    step throws an [AcquirableJobNotFoundError] emits [waiting] on the
    worker, waits [waitingInterval] and ends normally.  A turn whose step
    throws anything else asks the queue to emit [error] with the error
    itself, or with an [Error] made of the string of a thrown value that
    is not an error: with a listener for [error] on the queue the event is
    delivered, the turn waits [waitingInterval] and ends normally; without
    one the emitter throws its "Unhandled error", no event is delivered,
    the turn does not wait, and the throw ends the loop.  A turn whose
    step returns adds no event of its own and does not wait.  Hence with a
    listener for [error] the first [n] turns end normally for every [n];
    in every case the client is released. *)
Theorem processJobs_loop_outcomes (n : nat) (w : World TPayload Store Env) :
  (has_error_listener emitter = true ->
   exists w', processJobs_cycles client now setTimeout processor options emitter n w
              = (Return tt, w'))
  /\ (forall e w2,
        processJob client now setTimeout processor options
                   (World_setTimeout setTimeout (processingInterval options) w)
          = (Throw (ThrownError e), w2) ->
        class e = AcquirableJobNotFoundError_ ->
        processJobs_cycle client now setTimeout processor options emitter w
        = (Return tt,
           mkWorld (client_release client (store w2))
                   (setTimeout (waitingInterval options) (env w2))
                   (emitted w2 ++ [on_worker worker_waiting])))
  /\ (forall t w2,
        processJob client now setTimeout processor options
                   (World_setTimeout setTimeout (processingInterval options) w)
          = (Throw t, w2) ->
        (forall e, t = ThrownError e -> class e <> AcquirableJobNotFoundError_) ->
        let reported := match t with
                        | ThrownError e => e
                        | ThrownValue v => mkError Error_ (String_ v)
                        end in
        (has_error_listener emitter = true ->
         processJobs_cycle client now setTimeout processor options emitter w
         = (Return tt,
            mkWorld (client_release client (store w2))
                    (setTimeout (waitingInterval options) (env w2))
                    (emitted w2 ++ [on_queue (queue_error reported)])))
        /\ (has_error_listener emitter = false ->
            let unhandled :=
              ThrownError (mkError Error_ ("Unhandled error. ("
                                             +:+ inspect_event emitter reported +:+ ")")) in
            let w3 := mkWorld (client_release client (store w2)) (env w2) (emitted w2) in
            processJobs_cycle client now setTimeout processor options emitter w
            = (Throw unhandled, w3)
            /\ processJobs_cycles client now setTimeout processor options emitter (S n) w
               = (Throw unhandled, w3)))
  /\ (forall w2,
        processJob client now setTimeout processor options
                   (World_setTimeout setTimeout (processingInterval options) w)
          = (Return tt, w2) ->
        processJobs_cycle client now setTimeout processor options emitter w
        = (Return tt, mkWorld (client_release client (store w2)) (env w2) (emitted w2))).
Proof.
  split; [|split; [|split]].
  - intros Hlistener. revert w.
    induction n as [| n' IH]; intros w; simpl; [unfold ret; eauto|].
    unfold bind. destruct (processJobs_cycle_returns w Hlistener) as (w1 & ->). apply IH.
  - intros e w2 Hstep Hclass.
    unfold processJobs_cycle, try_catch, try_finally, bind, sleep, modify, emit. simpl.
    rewrite Hstep. simpl. unfold instanceof. rewrite Hclass. reflexivity.
  - intros t w2 Hstep Hother reported.
    assert (Hreported : normalizeError t = reported) by now destruct t.
    pose proof (not_AcquirableJobNotFoundError t Hother) as Hnot.
    assert (Hcycle : forall listener, has_error_listener emitter = listener ->
              processJobs_cycle client now setTimeout processor options emitter w
              = if listener
                then (Return tt,
                      mkWorld (client_release client (store w2))
                              (setTimeout (waitingInterval options) (env w2))
                              (emitted w2 ++ [on_queue (queue_error reported)]))
                else (Throw (ThrownError (mkError Error_
                               ("Unhandled error. ("
                                  +:+ inspect_event emitter reported +:+ ")"))),
                      mkWorld (client_release client (store w2)) (env w2) (emitted w2))).
    { intros listener Hlistener.
      unfold processJobs_cycle, try_catch, try_finally, bind, sleep, modify, emit_error,
        emit, throw, unhandled_error.
      simpl. rewrite Hstep. simpl. rewrite Hnot, Hlistener, Hreported.
      now destruct listener. }
    split; intros Hlistener.
    + exact (Hcycle true Hlistener).
    + intros unhandled w3. split; [exact (Hcycle false Hlistener)|].
      simpl. unfold bind. now rewrite (Hcycle false Hlistener).
  - intros w2 Hstep.
    unfold processJobs_cycle, try_catch, try_finally, bind, sleep, modify, emit. simpl.
    now rewrite Hstep.
Qed.
End WorkerSuccess.

Section SucceedingProcessor.
Context {TPayload Env : Type}.
Variable now : Env -> Z.
Variable setTimeout : Z -> Env -> Env.
Variable processor : Job TPayload -> M Env unit.
Variable options : DatabaseWorkerOptions.
Variable k : nat.
Variable e : Env.
Hypothesis at_least_one_call : (1 <= k)%nat.
Hypothesis within_the_limit : Z.of_nat k <= maxRetries options.
Hypothesis processor_returns :
  forall job, exists e',
    returns_at setTimeout (processor job) (retryInterval options) k e tt e'.

Lemma Mock_completes_the_job (s : MockDatabasePoolClient.Statics TPayload) ev :
  List.NoDup (map id (MockDatabasePoolClient.jobs s)) ->
  (exists j, In j (MockDatabasePoolClient.jobs s)
             /\ MockDatabasePoolClient.acquirable
                  (MockDatabasePoolClient.lockedJobsIds s) j = true) ->
  completes_the_job MockClient MockDatabasePoolClient.jobs now setTimeout processor
                    options k s e ev.
Proof.
  intros Hnd (j0 & Hj0 & Hacq0).
  destruct (List.find (MockDatabasePoolClient.acquirable
                         (MockDatabasePoolClient.lockedJobsIds s))
                      (Array_sort compareJobs (MockDatabasePoolClient.jobs s)))
    as [wj |] eqn:Hfind.
  2:{ rewrite (find_none_sorted compareJobs) in Hfind.
      rewrite (Hfind j0 Hj0) in Hacq0. discriminate. }
  pose proof (Mock_acquireJob_some s (now e) wj Hnd Hfind) as Hacq.
  apply find_some in Hfind as [Hin _].
  set (job := activated (now e) wj) in *.
  set (l1 := update_first (fun job => id job =? id wj) (fun _ => job)
                          (Array_sort compareJobs (MockDatabasePoolClient.jobs s))) in *.
  set (s1 := MockDatabasePoolClient.mkStatics _ l1 _) in *.
  destruct (processor_returns job) as (e' & Hret).
  assert (List.NoDup (map id l1)) as Hnd1.
  { unfold l1. rewrite update_first_ids by reflexivity. now apply sorted_jobs_ids. }
  assert (In job l1) as Hin1.
  { apply update_first_present. exists wj. auto. }
  pose proof (Mock_update_found s1 (id job) completed None (now e') job
                Hnd1 Hin1 eq_refl) as Hupd.
  eexists job, e', _.
  split; [change (fst (MockDatabasePoolClient.acquireJob (now e) s) = Return job);
          now rewrite Hacq|].
  split; [exact Hret|].
  split; [|split].
  - exact (processJob_completes MockClient now setTimeout processor options
             s e ev job s1 k e' _ _ Hacq at_least_one_call within_the_limit Hret Hupd).
  - exists (completed_job (now e') job). split; [|reflexivity].
    apply update_first_present. exists job. auto.
  - intros j' Hj' Hid. simpl in Hj'.
    rewrite (update_first_same_id l1 (id job) (completed_job (now e') job) j');
      auto.
Qed.

Lemma Sql_completes_the_job
    (client : AbstractDatabasePoolClient TPayload (Sql.Connection TPayload))
    (touch : Z -> Job TPayload -> Job TPayload -> Z) (c : Sql.Connection TPayload) ev :
  (forall now c wj rest,
     List.NoDup (map id (Sql.rows c)) ->
     Sql.select_next waiting c = wj :: rest ->
     client_acquireJob client now c =
       (Return (activated now wj),
        Sql.mkConnection
          (Sql.rows (Sql.update_by_id (touch now) active undefined (id wj) c))
          (Sql.serial c) None)) ->
  (forall now c x,
     List.NoDup (map id (Sql.rows c)) -> In x (Sql.rows c) -> state x = active ->
     client_updateJobStateById client (id x) completed None now c =
       (Return (mkJob (id x) (payload x) completed (priority x) undefined
                      (createdAt x) now),
        Sql.update_by_id (touch now) completed undefined (id x) c)) ->
  List.NoDup (map id (Sql.rows c)) ->
  (exists j, In j (Sql.rows c) /\ state j = waiting) ->
  completes_the_job client Sql.rows now setTimeout processor options k c e ev.
Proof.
  intros Hacquire Hupdate Hnd Hex.
  destruct (some_waiting_selected c Hex) as (wj & rest & Hsel).
  destruct (select_next_first c wj rest Hsel) as (Hin & Hw & _).
  pose proof (Hacquire (now e) c wj rest Hnd Hsel) as Hacq.
  set (job := activated (now e) wj) in *.
  set (c1 := Sql.mkConnection _ _ _) in Hacq.
  destruct (processor_returns job) as (e' & Hret).
  set (x1 := Sql.update_row (touch (now e)) active undefined wj).
  assert (List.NoDup (map id (Sql.rows c1))) as Hnd1.
  { unfold c1. simpl. change (map (fun r => if id r =? id wj then _ else r) (Sql.rows c))
      with (Sql.rows (Sql.update_by_id (touch (now e)) active undefined (id wj) c)).
    now rewrite update_by_id_ids. }
  assert (In x1 (Sql.rows c1)) as Hin1.
  { apply (update_by_id_present (touch (now e)) active undefined (id wj) c wj Hin eq_refl). }
  pose proof (Hupdate (now e') c1 x1 Hnd1 Hin1 eq_refl) as Hupd.
  eexists job, e', _. split; [now rewrite Hacq|]. split; [exact Hret|].
  split; [|split].
  - exact (processJob_completes client now setTimeout processor options
             c e ev job c1 k e' _ _ Hacq at_least_one_call within_the_limit Hret Hupd).
  - exists (Sql.update_row (touch (now e')) completed undefined x1).
    split; [|reflexivity].
    apply (update_by_id_present _ completed undefined (id x1) c1 x1 Hin1 eq_refl).
  - intros j' Hj' Hid.
    destruct (update_by_id_row _ completed undefined (id x1) c1 j' Hj' Hid) as [-> ->].
    now split.
Qed.
End SucceedingProcessor.

(** X9. Let the processor, watched by a spy, throw on its first [k - 1]
    calls and return on call [k], with [1 <= k <= maxRetries].  From a
    store that holds a waiting job (not locked, for the mock) under
    distinct ids, the processing step on each client leases a job, calls
    the processor exactly [k] times and ends with the job stored
    [completed] and without an error message; it emits [activated] and
    then [completed], on the worker and on the queue. *)
Theorem processJob_completes_job {TPayload Env : Type}
    (now : Env -> Z) (setTimeout : Z -> Env -> Env)
    (processor : Job TPayload -> M Env unit) (options : DatabaseWorkerOptions)
    (k : nat) (e : Env) (ev : list (Emitted TPayload)) :
  (1 <= k)%nat -> Z.of_nat k <= maxRetries options ->
  (forall job, exists e',
     returns_at setTimeout (processor job) (retryInterval options) k e tt e') ->
  (forall s : MockDatabasePoolClient.Statics TPayload,
     List.NoDup (map id (MockDatabasePoolClient.jobs s)) ->
     (exists j, In j (MockDatabasePoolClient.jobs s) /\ state j = waiting
                /\ includes (MockDatabasePoolClient.lockedJobsIds s) (id j) = false) ->
     completes_the_job MockClient MockDatabasePoolClient.jobs
                       now setTimeout processor options k s e ev)
  /\ (forall c : Sql.Connection TPayload,
        List.NoDup (map id (Sql.rows c)) ->
        (exists j, In j (Sql.rows c) /\ state j = waiting) ->
        completes_the_job PostgreSqlClient Sql.rows now setTimeout processor options
                          k c e ev)
  /\ (forall c : Sql.Connection TPayload,
        List.NoDup (map id (Sql.rows c)) ->
        (exists j, In j (Sql.rows c) /\ state j = waiting) ->
        completes_the_job MySqlClient Sql.rows now setTimeout processor options
                          k c e ev).
Proof.
  intros Hk Hkn Hret. split; [|split].
  - intros s Hnd (j & Hj & Hw & Hl). apply Mock_completes_the_job; auto.
    exists j. split; [exact Hj|].
    unfold MockDatabasePoolClient.acquirable, JobState_eqb. now rewrite Hw, Hl.
  - intros c. apply (Sql_completes_the_job now setTimeout processor options k e
                       Hk Hkn Hret PostgreSqlClient PostgreSqlPoolClient.touch).
    + intros t c' wj rest Hnd Hsel.
      exact (PostgreSql_acquireJob_some c' t wj rest Hnd Hsel).
    + intros t c' x Hnd Hin _.
      exact (PostgreSql_update_found c' (id x) completed None t x Hnd Hin eq_refl).
  - intros c. apply (Sql_completes_the_job now setTimeout processor options k e
                       Hk Hkn Hret MySqlClient MySqlPoolClient.touch).
    + intros t c' wj rest Hnd Hsel.
      destruct (select_next_first c' wj rest Hsel) as (_ & Hw & _).
      unfold is_waiting, JobState_eqb in Hw. apply bool_decide_eq_true in Hw.
      change (client_acquireJob MySqlClient t c') with (MySqlPoolClient.acquireJob t c').
      rewrite (MySql_acquireJob_some c' t wj rest Hnd Hsel).
      unfold Sql.update_row, with_errorMessage, activated, MySqlPoolClient.touch. simpl.
      rewrite Hw. reflexivity.
    + intros t c' x Hnd Hin Hactive.
      change (client_updateJobStateById MySqlClient) with
        (@MySqlPoolClient.updateJobStateById TPayload).
      rewrite (MySql_update_found c' (id x) completed None t x Hnd Hin eq_refl).
      unfold Sql.update_row, MySqlPoolClient.touch, with_errorMessage. simpl.
      rewrite Hactive. reflexivity.
Qed.

Section IdleWorker.
Context {TPayload Store Env : Type}.
Variable client : AbstractDatabasePoolClient TPayload Store.
Variable now : Env -> Z.
Variable setTimeout : Z -> Env -> Env.
Variable processor : Job TPayload -> M Env unit.
Variable options : DatabaseWorkerOptions.
Variable emitter : QueueEmitter.

Lemma cycle_nothing_acquired st e ev st1 :
  client_acquireJob client (now (setTimeout (processingInterval options) e)) st
    = (Throw (ThrownError AcquirableJobNotFoundError), st1) ->
  processJobs_cycle client now setTimeout processor options emitter (mkWorld st e ev)
  = (Return tt,
     mkWorld (client_release client st1)
             (setTimeout (waitingInterval options)
                         (setTimeout (processingInterval options) e))
             (ev ++ [on_worker worker_waiting])).
Proof.
  intros Hacq.
  unfold processJobs_cycle, try_catch, try_finally, bind, sleep, modify. simpl.
  unfold World_setTimeout at 1. simpl.
  rewrite (processJob_nothing_acquired client now setTimeout processor options
             st _ ev _ st1 Hacq).
  reflexivity.
Qed.
End IdleWorker.

(** X10. A turn of the loop on a store without waiting jobs never calls
    the processor: it waits [processingInterval], emits exactly [waiting]
    on the worker, waits [waitingInterval], and leaves the jobs as they
    were (the mock's array sorted). *)
Theorem idle_cycle_emits_waiting {TPayload Env : Type}
    (now : Env -> Z) (setTimeout : Z -> Env -> Env)
    (processor : Job TPayload -> M Env unit) (options : DatabaseWorkerOptions)
    (emitter : QueueEmitter) (e : Env) (calls : nat) (ev : list (Emitted TPayload)) :
  (forall s : MockDatabasePoolClient.Statics TPayload,
     (forall j, In j (MockDatabasePoolClient.jobs s) -> state j <> waiting) ->
     exists s',
       spied_processJobs_cycles MockClient now setTimeout processor options emitter 1
                                (mkWorld s (e, calls) ev)
       = (Return tt,
          mkWorld s'
                  (setTimeout (waitingInterval options)
                              (setTimeout (processingInterval options) e), calls)
                  (ev ++ [on_worker worker_waiting]))
       /\ Permutation (MockDatabasePoolClient.jobs s') (MockDatabasePoolClient.jobs s))
  /\ (forall c : Sql.Connection TPayload,
        Sql.snapshot c = None ->
        (forall j, In j (Sql.rows c) -> state j <> waiting) ->
        spied_processJobs_cycles PostgreSqlClient now setTimeout processor options emitter 1
                                 (mkWorld c (e, calls) ev)
        = (Return tt,
           mkWorld c
                   (setTimeout (waitingInterval options)
                               (setTimeout (processingInterval options) e), calls)
                   (ev ++ [on_worker worker_waiting])))
  /\ (forall c : Sql.Connection TPayload,
        Sql.snapshot c = None ->
        (forall j, In j (Sql.rows c) -> state j <> waiting) ->
        spied_processJobs_cycles MySqlClient now setTimeout processor options emitter 1
                                 (mkWorld c (e, calls) ev)
        = (Return tt,
           mkWorld c
                   (setTimeout (waitingInterval options)
                               (setTimeout (processingInterval options) e), calls)
                   (ev ++ [on_worker worker_waiting]))).
Proof.
  assert (forall c : Sql.Connection TPayload,
            (forall j, In j (Sql.rows c) -> state j <> waiting) ->
            Sql.select_next waiting c = []) as Hnone.
  { intros c Hall. apply select_next_none. intros j Hj.
    unfold is_waiting, JobState_eqb. apply bool_decide_eq_false. now apply Hall. }
  split; [|split].
  - intros s Hall. eexists.
    unfold spied_processJobs_cycles, processJobs_cycles, bind.
    rewrite (cycle_nothing_acquired MockClient _ _ _ _ _ s (e, calls) ev
               (MockDatabasePoolClient.mkStatics (MockDatabasePoolClient.static_id s)
                  (Array_sort compareJobs (MockDatabasePoolClient.jobs s))
                  (MockDatabasePoolClient.lockedJobsIds s))).
    + split; [reflexivity|]. apply sorted_jobs_perm.
    + apply Mock_acquireJob_none. apply (find_none_sorted compareJobs). intros j Hj.
      unfold MockDatabasePoolClient.acquirable, JobState_eqb.
      rewrite bool_decide_eq_false_2; [reflexivity | now apply Hall].
  - intros c Hsnap Hall.
    unfold spied_processJobs_cycles, processJobs_cycles, bind.
    rewrite (cycle_nothing_acquired PostgreSqlClient _ _ _ _ _ c (e, calls) ev c);
      [reflexivity|].
    apply PostgreSql_acquireJob_none; auto.
  - intros c Hsnap Hall.
    unfold spied_processJobs_cycles, processJobs_cycles, bind.
    rewrite (cycle_nothing_acquired MySqlClient _ _ _ _ _ c (e, calls) ev c);
      [reflexivity|].
    apply MySql_acquireJob_none; auto.
Qed.

(** ** The order in which a worker completes jobs *)

Section SortedLists.
Context {TPayload : Type}.
Implicit Types (l pre post : list (Job TPayload)) (x y : Job TPayload).

Lemma filter_head_split (p : Job TPayload -> bool) l x rest :
  List.filter p l = x :: rest ->
  exists pre post,
    l = pre ++ x :: post /\ List.filter p pre = [] /\ List.filter p post = rest
    /\ p x = true.
Proof.
  induction l as [| y l IH]; simpl; [discriminate|].
  destruct (p y) eqn:Hpy.
  - intros [= -> <-]. exists [], l. auto.
  - intros Hf. destruct (IH Hf) as (pre & post & -> & Hpre & Hpost & Hpx).
    exists (y :: pre), post. simpl. rewrite Hpy. auto.
Qed.

Lemma find_after_rejected (p : Job TPayload -> bool) pre x post :
  List.filter p pre = [] -> p x = true -> List.find p (pre ++ x :: post) = Some x.
Proof.
  induction pre as [| y pre IH]; simpl; intros Hpre Hpx; [now rewrite Hpx|].
  destruct (p y); [discriminate | now apply IH].
Qed.

Lemma update_first_at pre x post x' :
  List.NoDup (map id (pre ++ x :: post)) ->
  update_first (fun job => id job =? id x) (fun _ => x') (pre ++ x :: post)
  = pre ++ x' :: post.
Proof.
  induction pre as [| y pre IH]; simpl; intros Hnd.
  - now rewrite Z.eqb_refl.
  - inversion Hnd as [| ? ? Hnot Hnd']; subst.
    destruct (Z.eqb_spec (id y) (id x)) as [E | N]; [|now rewrite IH].
    exfalso. apply Hnot. rewrite E, map_app. apply in_app_iff. right. now left.
Qed.

Lemma sorted_jobs_strict l :
  List.NoDup (map id l) ->
  StronglySorted strictly_before (Array_sort compareJobs l).
Proof.
  intros Hnd. pose proof (sorted_jobs_ids l Hnd) as Hnd'.
  pose proof (sorted_jobs_sorted l) as Hs.
  induction Hs as [| y l' Hs IH Hall]; [constructor|].
  simpl in Hnd'. inversion Hnd' as [| ? ? Hnot Hnd'']; subst.
  constructor; [now apply IH|].
  rewrite List.Forall_forall in *. intros z Hz.
  specialize (Hall z Hz). unfold before_or_equal in Hall. unfold strictly_before.
  destruct (Z.eq_dec (compareJobs y z) 0) as [E | N]; [|lia].
  apply compareJobs_zero in E as (_ & _ & Hid).
  exfalso. apply Hnot. rewrite Hid. now apply List.in_map.
Qed.

Lemma strictly_sorted_replace pre x post x' :
  priority x' = priority x -> createdAt x' = createdAt x -> id x' = id x ->
  StronglySorted strictly_before (pre ++ x :: post) ->
  StronglySorted strictly_before (pre ++ x' :: post).
Proof.
  intros Hp Hc Hi.
  assert (forall a, compareJobs a x' = compareJobs a x) as Hright.
  { intros a. unfold compareJobs. now rewrite Hp, Hc, Hi. }
  assert (forall b, compareJobs x' b = compareJobs x b) as Hleft.
  { intros b. unfold compareJobs. now rewrite Hp, Hc, Hi. }
  induction pre as [| y pre IH]; simpl; intros Hs;
    inversion Hs as [| ? ? Hs' Hall]; subst.
  - constructor; [exact Hs'|].
    eapply List.Forall_impl; [|exact Hall].
    intros b Hb. unfold strictly_before in *. now rewrite Hleft.
  - constructor; [now apply IH|].
    rewrite List.Forall_forall in *. intros z Hz.
    apply in_app_iff in Hz as [Hz | [<- | Hz]].
    + apply Hall. apply in_app_iff. now left.
    + unfold strictly_before. rewrite Hright. apply Hall.
      apply in_app_iff. right. now left.
    + apply Hall. apply in_app_iff. right. now right.
Qed.

Lemma sort_strictly_sorted l :
  StronglySorted strictly_before l -> Array_sort compareJobs l = l.
Proof.
  induction 1 as [| y l Hs IH Hall]; [reflexivity|].
  change (Array_sort compareJobs (y :: l))
    with (sort_insert compareJobs y (Array_sort compareJobs l)).
  rewrite IH.
  destruct l as [| z l]; [reflexivity|]. simpl.
  inversion Hall as [| ? ? Hyz _]; subst. unfold strictly_before in Hyz.
  destruct (Z.leb_spec (compareJobs y z) 0); [reflexivity | lia].
Qed.
End SortedLists.

Section FirstCallReturns.
Context {TPayload Store Env : Type}.
Variable client : AbstractDatabasePoolClient TPayload Store.
Variable now : Env -> Z.
Variable setTimeout : Z -> Env -> Env.
Variable processor : Job TPayload -> M Env unit.
Variable options : DatabaseWorkerOptions.
Variable emitter : QueueEmitter.

(** A processor that returns at its first call is not called again,
    whatever [maxRetries] is. *)
Lemma processJob_first_call st e ev job st1 e' completedJob st2 :
  client_acquireJob client (now e) st = (Return job, st1) ->
  processor job e = (Return tt, e') ->
  client_updateJobStateById client (id job) completed None (now e') st1
    = (Return completedJob, st2) ->
  processJob client now setTimeout processor options (mkWorld st e ev) =
    (Return tt, mkWorld st2 e' (ev ++ success_events job completedJob)).
Proof.
  intros Hacq Hret Hupd.
  unfold processJob, bind, on_store at 1. simpl.
  rewrite Hacq. unfold emit, modify, try_catch, bind. simpl.
  unfold retry. rewrite attempt_step. unfold on_env at 1. simpl. rewrite Hret.
  cbn. unfold on_store. cbn. rewrite Hupd. cbn.
  unfold success_events. rewrite <- !app_assoc. reflexivity.
Qed.

Lemma cycle_first_call st e ev job st1 e' completedJob st2 :
  client_acquireJob client (now (setTimeout (processingInterval options) e)) st
    = (Return job, st1) ->
  processor job (setTimeout (processingInterval options) e) = (Return tt, e') ->
  client_updateJobStateById client (id job) completed None (now e') st1
    = (Return completedJob, st2) ->
  processJobs_cycle client now setTimeout processor options emitter (mkWorld st e ev) =
    (Return tt,
     mkWorld (client_release client st2) e' (ev ++ success_events job completedJob)).
Proof.
  intros Hacq Hret Hupd.
  unfold processJobs_cycle, try_catch, try_finally, bind, sleep, modify. simpl.
  unfold World_setTimeout at 1. simpl.
  now rewrite (processJob_first_call st _ ev job st1 e' completedJob st2 Hacq Hret Hupd).
Qed.
End FirstCallReturns.

Lemma completed_on_worker_success {TPayload} (ev : list (Emitted TPayload))
    job completedJob :
  completed_on_worker (ev ++ success_events job completedJob)
  = completed_on_worker ev ++ [completedJob].
Proof. unfold completed_on_worker. now rewrite flat_map_app. Qed.

Section MockProcessingOrder.
Context {TPayload Env : Type}.
Import MockDatabasePoolClient.
Variable now : Env -> Z.
Variable setTimeout : Z -> Env -> Env.
Variable processor : Job TPayload -> M Env unit.
Variable options : DatabaseWorkerOptions.
Variable emitter : QueueEmitter.


(** One turn of the loop on a store whose eligible jobs are [wj :: rest]
    in dequeue order: [wj] is completed, [rest] is what is eligible next,
    and no other job changes. *)
Lemma Mock_cycle_completes (s : Statics TPayload) e ev wj rest e' :
  List.NoDup (map id (jobs s)) ->
  List.filter (acquirable (lockedJobsIds s)) (Array_sort compareJobs (jobs s))
    = wj :: rest ->
  processor (activated (now (setTimeout (processingInterval options) e)) wj)
            (setTimeout (processingInterval options) e) = (Return tt, e') ->
  exists s',
    processJobs_cycle MockClient now setTimeout processor options emitter (mkWorld s e ev)
    = (Return tt,
       mkWorld s' e'
         (ev ++ success_events
                  (activated (now (setTimeout (processingInterval options) e)) wj)
                  (completed_job (now e') wj)))
    /\ List.NoDup (map id (jobs s'))
    /\ lockedJobsIds s' = lockedJobsIds s
    /\ List.filter (acquirable (lockedJobsIds s')) (Array_sort compareJobs (jobs s'))
       = rest
    /\ In (completed_job (now e') wj) (jobs s')
    /\ (forall j, In j (jobs s) -> acquirable (lockedJobsIds s) j = false ->
                  In j (jobs s')).
Proof.
  intros Hnd Hfilter Hret.
  set (t1 := now (setTimeout (processingInterval options) e)) in *.
  destruct (filter_head_split _ _ _ _ Hfilter) as (pre & post & Hsorted & Hpre & Hpost & Hacq).
  pose proof (sorted_jobs_ids _ Hnd) as Hnds. rewrite Hsorted in Hnds.
  pose proof (sorted_jobs_strict _ Hnd) as Hstrict. rewrite Hsorted in Hstrict.
  assert (List.find (acquirable (lockedJobsIds s)) (Array_sort compareJobs (jobs s))
          = Some wj) as Hfind.
  { rewrite Hsorted. now apply find_after_rejected. }
  pose proof (Mock_acquireJob_some s t1 wj Hnd Hfind) as Hacquire.
  rewrite Hsorted, (update_first_at pre wj post (activated t1 wj) Hnds) in Hacquire.
  set (aj := activated t1 wj) in *.
  set (s1 := mkStatics (static_id s) (pre ++ aj :: post) (lockedJobsIds s)) in *.
  assert (map id (pre ++ aj :: post) = map id (pre ++ wj :: post)) as Hids1.
  { now rewrite !map_app. }
  assert (List.NoDup (map id (jobs s1))) as Hnd1 by (simpl; now rewrite Hids1).
  assert (In aj (jobs s1)) as Hin1.
  { simpl. apply in_app_iff. right. now left. }
  pose proof (Mock_update_found s1 (id aj) completed None (now e') aj Hnd1 Hin1 eq_refl)
    as Hupd.
  cbn [jobs s1 static_id lockedJobsIds] in Hupd.
  rewrite (update_first_at pre aj post _ Hnd1) in Hupd.
  change (mkJob (id aj) (payload aj) completed (priority aj) (optional_text None)
                (createdAt aj) (now e'))
    with (completed_job (now e') wj) in Hupd.
  set (cj := completed_job (now e') wj) in *.
  exists (mkStatics (static_id s) (pre ++ cj :: post) (lockedJobsIds s)).
  split.
  { exact (cycle_first_call MockClient now setTimeout processor options emitter
             s e ev aj s1 e' cj _ Hacquire Hret Hupd). }
  cbn [jobs lockedJobsIds].
  assert (map id (pre ++ cj :: post) = map id (pre ++ wj :: post)) as Hids2.
  { now rewrite !map_app. }
  split; [now rewrite Hids2|]. split; [reflexivity|]. split; [|split].
  - rewrite sort_strictly_sorted.
    + rewrite List.filter_app, Hpre. simpl.
      unfold acquirable at 1. simpl. exact Hpost.
    + now apply (strictly_sorted_replace pre wj post cj).
  - apply in_app_iff. right. now left.
  - intros j Hj Hno.
    assert (In j (pre ++ wj :: post)) as Hj'.
    { rewrite <- Hsorted. eapply Permutation_in; [|exact Hj].
      symmetry. apply sorted_jobs_perm. }
    apply in_app_iff in Hj' as [Hj' | [<- | Hj']].
    + apply in_app_iff. now left.
    + rewrite Hacq in Hno. discriminate.
    + apply in_app_iff. right. now right.
Qed.

End MockProcessingOrder.

Section MockSpiedOrder.
Context {TPayload Env : Type}.
Import MockDatabasePoolClient.
Variable now : Env -> Z.
Variable setTimeout : Z -> Env -> Env.
Variable processor : Job TPayload -> M Env unit.
Variable options : DatabaseWorkerOptions.
Variable emitter : QueueEmitter.

Lemma Mock_cycles_complete (ws : list (Job TPayload)) :
  always_returns processor ->
  forall (s : Statics TPayload) e calls ev,
  List.NoDup (map id (jobs s)) ->
  List.filter (acquirable (lockedJobsIds s)) (Array_sort compareJobs (jobs s)) = ws ->
  exists s' e' ev' cs,
    spied_processJobs_cycles MockClient now setTimeout processor options emitter (length ws)
                             (mkWorld s (e, calls) ev)
    = (Return tt, mkWorld s' (e', (calls + length ws)%nat) ev')
    /\ completed_on_worker ev' = completed_on_worker ev ++ cs
    /\ Forall2 completion_of cs ws
    /\ (forall c, In c cs -> In c (jobs s'))
    /\ (forall j, In j (jobs s) -> acquirable (lockedJobsIds s) j = false ->
                  In j (jobs s'))
    /\ (forall j, In j (jobs s') -> acquirable (lockedJobsIds s') j = false).
Proof.
  intros Hproc. induction ws as [| wj rest IH]; intros s e calls ev Hnd Hfilter.
  - exists s, e, ev, []. simpl. unfold ret. rewrite Nat.add_0_r, app_nil_r.
    split; [reflexivity|]. split; [reflexivity|]. split; [constructor|].
    split; [intros c []|]. split; [auto|].
    intros j Hj.
    destruct (acquirable (lockedJobsIds s) j) eqn:Hacq; [|reflexivity].
    assert (In j (List.filter (acquirable (lockedJobsIds s))
                              (Array_sort compareJobs (jobs s)))) as Hin.
    { apply filter_In. split; [|exact Hacq].
      eapply Permutation_in; [|exact Hj]. symmetry. apply sorted_jobs_perm. }
    rewrite Hfilter in Hin. destruct Hin.
  - set (e0 := setTimeout (processingInterval options) e).
    destruct (Hproc (activated (now e0) wj) e0) as (e1 & Hret).
    destruct (Mock_cycle_completes
                (fun e => now (fst e)) (spy_setTimeout setTimeout)
                (fun job => spy (processor job)) options emitter s (e, calls) ev wj rest
                (e1, S calls)
                Hnd Hfilter)
      as (s1 & Hcycle & Hnd1 & Hlocks1 & Hfilter1 & Hstored1 & Hkept1).
    { cbn. fold e0. now rewrite Hret. }
    cbn [fst] in *. cbn [spy_setTimeout] in Hcycle. fold e0 in Hcycle, Hstored1.
    destruct (IH s1 e1 (S calls)
                (ev ++ success_events (activated (now e0) wj) (completed_job (now e1) wj))
                Hnd1 Hfilter1)
      as (s' & e' & ev' & cs & Hrun & Hev & Hcs & Hstored & Hkept & Hdone).
    exists s', e', ev', (completed_job (now e1) wj :: cs).
    split; [|split; [|split; [|split; [|split]]]].
    + unfold spied_processJobs_cycles in *. cbn [length processJobs_cycles].
      unfold bind at 1. rewrite Hcycle. cbv beta iota. cbn [fst]. rewrite Hrun.
      do 3 f_equal. lia.
    + rewrite Hev, completed_on_worker_success, <- app_assoc. reflexivity.
    + constructor; [now exists (now e1) | exact Hcs].
    + intros c [<- | Hc]; [|now apply Hstored].
      apply Hkept; [exact Hstored1|]. reflexivity.
    + intros j Hj Hno. apply Hkept; [now apply Hkept1|].
      now rewrite Hlocks1.
    + exact Hdone.
Qed.
End MockSpiedOrder.

Lemma filter_strictly_sorted {TPayload} (p : Job TPayload -> bool) l :
  StronglySorted strictly_before l -> StronglySorted strictly_before (List.filter p l).
Proof.
  induction 1 as [| y l Hs IH Hall]; simpl; [constructor|].
  destruct (p y); [|exact IH].
  constructor; [exact IH|].
  rewrite List.Forall_forall in *. intros z Hz. apply Hall.
  now apply filter_In in Hz as [Hz _].
Qed.

(** X11. A mock worker whose processor always returns works the queue off
    in dequeue order.  Let [ws] be the eligible jobs of the store (waiting
    and not locked), ordered by [compareJobs].  The first [length ws]
    turns of the loop call the processor [length ws] times and emit one
    [completed] event per job of [ws], in that order, each for the
    completed form of the job; every job reported is then stored, the jobs
    that were not eligible are stored as they were, and no eligible job
    is left. *)
Theorem Mock_worker_completes_in_dequeue_order {TPayload Env : Type}
    (now : Env -> Z) (setTimeout : Z -> Env -> Env)
    (processor : Job TPayload -> M Env unit) (options : DatabaseWorkerOptions)
    (emitter : QueueEmitter) (s : MockDatabasePoolClient.Statics TPayload) (e : Env) (calls : nat)
    (ev : list (Emitted TPayload)) :
  always_returns processor ->
  List.NoDup (map id (MockDatabasePoolClient.jobs s)) ->
  exists ws,
    (forall j, In j ws <->
               In j (MockDatabasePoolClient.jobs s)
               /\ MockDatabasePoolClient.acquirable
                    (MockDatabasePoolClient.lockedJobsIds s) j = true)
    /\ StronglySorted strictly_before ws
    /\ exists s' e' ev' cs,
         spied_processJobs_cycles MockClient now setTimeout processor options emitter
                                  (length ws) (mkWorld s (e, calls) ev)
         = (Return tt, mkWorld s' (e', (calls + length ws)%nat) ev')
         /\ completed_on_worker ev' = completed_on_worker ev ++ cs
         /\ Forall2 completion_of cs ws
         /\ (forall c, In c cs -> In c (MockDatabasePoolClient.jobs s'))
         /\ (forall j, In j (MockDatabasePoolClient.jobs s) ->
                       MockDatabasePoolClient.acquirable
                         (MockDatabasePoolClient.lockedJobsIds s) j = false ->
                       In j (MockDatabasePoolClient.jobs s'))
         /\ (forall j, In j (MockDatabasePoolClient.jobs s') ->
                       MockDatabasePoolClient.acquirable
                         (MockDatabasePoolClient.lockedJobsIds s') j = false).
Proof.
  intros Hproc Hnd.
  exists (List.filter (MockDatabasePoolClient.acquirable
                         (MockDatabasePoolClient.lockedJobsIds s))
                      (Array_sort compareJobs (MockDatabasePoolClient.jobs s))).
  split; [|split].
  - intros j. rewrite filter_In.
    pose proof (sorted_jobs_perm (MockDatabasePoolClient.jobs s)) as Hperm.
    split; intros [Hj Hacq]; (split; [|exact Hacq]).
    + eapply Permutation_in; eauto.
    + eapply Permutation_in; [symmetry; exact Hperm | exact Hj].
  - apply filter_strictly_sorted. now apply sorted_jobs_strict.
  - now apply Mock_cycles_complete.
Qed.

Lemma Mock_worker_completes_in_dequeue_order_witness :
  exists ws,
    (forall j, In j ws <->
               In j three_jobs /\ MockDatabasePoolClient.acquirable [] j = true)
    /\ StronglySorted strictly_before ws
    /\ exists s' e' ev' cs,
         spied_processJobs_cycles MockClient (fun _ : unit => 300) (fun _ e => e)
                                  (fun _ e => (Return tt, e)) Worker_defaultOptions listening
                                  (length ws)
                                  (mkWorld (MockDatabasePoolClient.mkStatics 4 three_jobs [])
                                           (tt, 0%nat) [])
         = (Return tt, mkWorld s' (e', (0 + length ws)%nat) ev')
         /\ completed_on_worker ev' = completed_on_worker [] ++ cs
         /\ Forall2 completion_of cs ws
         /\ (forall c, In c cs -> In c (MockDatabasePoolClient.jobs s'))
         /\ (forall j, In j three_jobs ->
                       MockDatabasePoolClient.acquirable [] j = false ->
                       In j (MockDatabasePoolClient.jobs s'))
         /\ (forall j, In j (MockDatabasePoolClient.jobs s') ->
                       MockDatabasePoolClient.acquirable
                         (MockDatabasePoolClient.lockedJobsIds s') j = false).
Proof.
  apply (Mock_worker_completes_in_dequeue_order
           (fun _ : unit => 300) (fun _ e => e) (fun _ e => (Return tt, e))
           Worker_defaultOptions listening
           (MockDatabasePoolClient.mkStatics 4 three_jobs []) tt 0%nat []).
  - intros job e. exists e. reflexivity.
  - simpl. repeat constructor; simpl; intuition lia.
Defined.

(** ** The further properties at concrete inputs *)

Lemma add_appends_one_waiting_job_witness :
  (exists stored c',
     AbstractDatabaseQueue.add PostgreSqlClient tt None 200 failed_with_boom
     = (Return (mkJob 2 tt waiting 5 undefined 200 200), c')
     /\ Sql.rows c' = Sql.rows failed_with_boom ++ [stored]
     /\ with_errorMessage stored = mkJob 2 tt waiting 5 undefined 200 200
     /\ count_state waiting (Sql.rows c')
        = count_state waiting (Sql.rows failed_with_boom) + 1)
  /\ (exists error,
        AbstractDatabaseQueue.add PostgreSqlClient tt (Some 2147483648) 200
          failed_with_boom
        = (Throw (ThrownError error), failed_with_boom)
        /\ instanceof error JobNotFoundError_ = false).
Proof.
  split.
  - apply (proj1 (proj2 (add_appends_one_waiting_job tt None 200 waiting))
             PostgreSqlClient (or_introl eq_refl) failed_with_boom).
    + unfold fits_INTEGER. simpl. lia.
    + unfold fits_INTEGER. simpl. lia.
    + simpl. intros j [<- | []]. discriminate.
  - apply (proj2 (proj2 (add_appends_one_waiting_job tt (Some 2147483648) 200 waiting))
             PostgreSqlClient (or_introl eq_refl) failed_with_boom).
    unfold fits_INTEGER. simpl. lia.
Defined.

Lemma empty_removes_every_job_witness :
  exists c',
    AbstractDatabaseQueue.empty PostgreSqlClient failed_with_boom = (Return tt, c')
    /\ Sql.rows c' = []
    /\ exists o,
         fst (getJobCounts (fun c => c) PostgreSql_countJobsByState
                           waiting [failed] c') = Return o
         /\ o !! failed = Some 0.
Proof.
  apply (proj1 (proj2 (empty_removes_every_job waiting [failed] failed eq_refl))
           failed_with_boom).
Defined.

Lemma add_then_acquireJob_witness :
  fst (MySqlPoolClient.acquireJob 300
         (snd (AbstractDatabaseQueue.add MySqlClient tt (Some 7) 200
                 (Sql.mkConnection no_waiting_jobs 4 None))))
  = Return (mkJob 4 tt active 7 undefined 200 300).
Proof.
  apply (proj2 (proj2 (add_then_acquireJob tt (Some 7) 200 300))
           (Sql.mkConnection no_waiting_jobs 4 None)).
  - simpl. repeat constructor; simpl; intuition lia.
  - simpl. intros j [<- | [<- | []]]; discriminate.
  - simpl. intros j [<- | [<- | []]]; discriminate.
  - unfold fits_INTEGER. simpl. lia.
  - unfold fits_INTEGER. simpl. lia.
Defined.

Lemma acquireJob_ends_its_transaction_witness :
  snd (PostgreSqlPoolClient.acquireJob 300 (Sql.mkConnection no_waiting_jobs 4 None))
  = Sql.mkConnection no_waiting_jobs 4 None.
Proof.
  exact (proj1 (proj2 (proj2 (acquireJob_ends_its_transaction
                                300 (Sql.mkConnection no_waiting_jobs 4 None))))
           (ThrownError AcquirableJobNotFoundError)
           (snd (PostgreSqlPoolClient.acquireJob
                   300 (Sql.mkConnection no_waiting_jobs 4 None)))
           eq_refl eq_refl).
Defined.

Lemma processJobs_loop_outcomes_witness :
  processJobs_cycle unreachable_client (fun _ : unit => 300) (fun _ e => e)
                    (fun _ e => (Return tt, e)) Worker_defaultOptions listening
                    (mkWorld tt tt [])
  = (Return tt, mkWorld tt tt [on_queue (queue_error connection_refused)])
  /\ processJobs_cycles unreachable_client (fun _ : unit => 300) (fun _ e => e)
                        (fun _ e => (Return tt, e)) Worker_defaultOptions not_listening 3
                        (mkWorld tt tt [])
     = (Throw (ThrownError (mkError Error_ "Unhandled error. ({ error })")),
        mkWorld tt tt []).
Proof.
  pose proof (proj1 (proj2 (proj2 (processJobs_loop_outcomes
                                     unreachable_client (fun _ : unit => 300)
                                     (fun _ e => e) (fun _ e => (Return tt, e))
                                     Worker_defaultOptions listening 2%nat
                                     (mkWorld tt tt []))))
                (ThrownError connection_refused) (mkWorld tt tt []) eq_refl
                ltac:(intros e [= <-]; discriminate)) as Hlistening.
  pose proof (proj1 (proj2 (proj2 (processJobs_loop_outcomes
                                     unreachable_client (fun _ : unit => 300)
                                     (fun _ e => e) (fun _ e => (Return tt, e))
                                     Worker_defaultOptions not_listening 2%nat
                                     (mkWorld tt tt []))))
                (ThrownError connection_refused) (mkWorld tt tt []) eq_refl
                ltac:(intros e [= <-]; discriminate)) as Hnot_listening.
  split.
  - exact (proj1 Hlistening eq_refl).
  - exact (proj2 (proj2 Hnot_listening eq_refl)).
Defined.

Lemma processJob_completes_job_witness :
  completes_the_job MockClient MockDatabasePoolClient.jobs (fun _ : unit => 300)
                    (fun _ e => e) (fun _ e => (Return tt, e)) Worker_defaultOptions
                    1 one_waiting_job tt [].
Proof.
  apply (proj1 (processJob_completes_job
                  (fun _ : unit => 300) (fun _ e => e) (fun _ e => (Return tt, e))
                  Worker_defaultOptions 1 tt []
                  ltac:(lia) ltac:(simpl; lia)
                  (fun job => ex_intro _ tt
                                (conj (fun i (Hi : (i < 1 - 1)%nat) =>
                                         ltac:(simpl in Hi; lia))
                                      eq_refl)))
           one_waiting_job).
  - simpl. repeat constructor; simpl; intuition.
  - eexists. split; [left; reflexivity|]. split; reflexivity.
Defined.

Lemma idle_cycle_emits_waiting_witness :
  exists s',
    spied_processJobs_cycles MockClient (fun _ : unit => 300) (fun _ e => e)
                             (fun _ e => (Return tt, e)) Worker_defaultOptions listening 1
                             (mkWorld (MockDatabasePoolClient.mkStatics 4 no_waiting_jobs [])
                                      (tt, 0%nat) [])
    = (Return tt, mkWorld s' (tt, 0%nat) [on_worker worker_waiting])
    /\ Permutation (MockDatabasePoolClient.jobs s') no_waiting_jobs.
Proof.
  apply (proj1 (idle_cycle_emits_waiting
                  (fun _ : unit => 300) (fun _ e => e) (fun _ e => (Return tt, e))
                  Worker_defaultOptions listening tt 0%nat [])
           (MockDatabasePoolClient.mkStatics 4 no_waiting_jobs [])).
  simpl. intros j [<- | [<- | []]]; discriminate.
Defined.

(** ** The time [retry] waits *)

Section RetryTiming.
Context {W TResult : Type}.
Variable setTimeout : Z -> W -> W.
Variable function_ : M W TResult.
Variable delayInterval : Z.

Lemma timed_after_failure (w : W) (slept : Z) :
  after_failure (timed_setTimeout setTimeout) delayInterval (w, slept)
  = (after_failure setTimeout delayInterval w, slept + Z.max 0 delayInterval).
Proof.
  unfold after_failure, timed_setTimeout.
  destruct (Z.ltb_spec 0 delayInterval); f_equal; lia.
Qed.

Lemma timed_attempt_after_failures n (k : nat) : forall c w slept,
  c + Z.of_nat k <= n ->
  (forall i, (i < k)%nat ->
     exists t w', function_ (world_before setTimeout function_ delayInterval i w)
                  = (Throw t, w')) ->
  attempt (timed_setTimeout setTimeout) (timed function_) n delayInterval c (w, slept) =
  attempt (timed_setTimeout setTimeout) (timed function_) n delayInterval
    (c + Z.of_nat k)
    (world_before setTimeout function_ delayInterval k w,
     slept + Z.of_nat k * Z.max 0 delayInterval).
Proof.
  induction k as [| k IH]; intros c w slept Hle Hfail.
  - simpl. rewrite !Z.add_0_r. reflexivity.
  - destruct (Hfail 0%nat ltac:(lia)) as (t & w' & Hw). simpl in Hw.
    rewrite attempt_step. unfold timed at 1. rewrite Hw.
    destruct (Z.geb_spec c n); [lia|].
    fold (after_failure (timed_setTimeout setTimeout) delayInterval (w', slept)).
    rewrite timed_after_failure, IH.
    + simpl world_before. rewrite Hw. simpl snd. f_equal; [lia|]. f_equal. lia.
    + lia.
    + intros i Hi. specialize (Hfail (S i) ltac:(lia)). simpl in Hfail.
      now rewrite Hw in Hfail.
Qed.

(** X12. [retry] waits [delayInterval] after every failed attempt but the
    last, and not at all when [delayInterval <= 0].  Against a clock that
    adds up the milliseconds slept: a callable that always throws, with
    [maxRetries = n >= 1], makes [retry] sleep [(n - 1) * max 0
    delayInterval] in all before it throws; a callable that returns at
    call [k <= n] makes it sleep [(k - 1) * max 0 delayInterval]. *)
Theorem retry_waits_between_attempts (n : Z) (w : W) :
  (1 <= n -> always_fails function_ ->
   exists t w',
     retry (timed_setTimeout setTimeout) (timed function_) n delayInterval (w, 0)
     = (Throw (ThrownError (MaxRetriesError n (normalizeError t))),
        (w', (n - 1) * Z.max 0 delayInterval)))
  /\ (forall (k : nat) r w',
        (1 <= k)%nat -> Z.of_nat k <= n ->
        returns_at setTimeout function_ delayInterval k w r w' ->
        retry (timed_setTimeout setTimeout) (timed function_) n delayInterval (w, 0)
        = (Return r, (w', (Z.of_nat k - 1) * Z.max 0 delayInterval))).
Proof.
  split.
  - intros Hn Hfail.
    destruct (Hfail (world_before setTimeout function_ delayInterval
                                  (Z.to_nat (n - 1)) w)) as (t & w' & Hlast).
    exists t, w'. unfold retry.
    rewrite (timed_attempt_after_failures n (Z.to_nat (n - 1)));
      [|lia | intros i _; apply Hfail].
    rewrite attempt_step. unfold timed at 1. rewrite Hlast.
    destruct (Z.geb_spec (1 + Z.of_nat (Z.to_nat (n - 1))) n); [|lia].
    rewrite Z2Nat.id, Z.add_0_l by lia. reflexivity.
  - intros k r w' Hk Hkn [Hfail Hlast]. unfold retry.
    rewrite (timed_attempt_after_failures n (k - 1)); [|lia | exact Hfail].
    rewrite attempt_step. unfold timed at 1. rewrite Hlast.
    rewrite Nat2Z.inj_sub, Z.add_0_l by lia. reflexivity.
Qed.
End RetryTiming.

Lemma retry_waits_between_attempts_witness :
  retry (timed_setTimeout (fun _ (calls : nat) => calls)) (timed fails_twice) 3 500
        (0%nat, 0)
  = (Return "Success"%string, (3%nat, (Z.of_nat 3 - 1) * Z.max 0 500)).
Proof.
  apply (proj2 (retry_waits_between_attempts (fun _ (calls : nat) => calls)
                  fails_twice 500 3 0%nat)
           3%nat "Success"%string 3%nat); [lia | simpl; lia |].
  split; [|reflexivity].
  intros i Hi. assert (i = 0 \/ i = 1)%nat as [-> | ->] by lia; simpl; eauto.
Defined.

(* ===================================================================== *)
(** * Further properties of the lifecycle                                 *)
(* ===================================================================== *)

Section Lifecycle.
Context {Driver : Type}.
Variable Pool_close : Driver -> Driver.
Implicit Types (p : Process Driver) (l : list nat).

Abbreviation stopped := (fun wo : WorkerObject => mkWorker (worker_queue wo) false).
Abbreviation started pr :=
  (fun wo : WorkerObject =>
     mkWorker (worker_queue wo) (worker_running wo || isRunning (worker_queue wo) pr)).
Abbreviation stop_all ws pr :=
  (fold_left (fun pr' worker => Worker_stop worker pr') ws pr).
Abbreviation start_all ws pr :=
  (fold_left (fun pr' worker => Worker_start worker pr') ws pr).

Lemma existsb_In (w : nat) l : existsb (Nat.eqb w) l = true <-> In w l.
Proof.
  rewrite existsb_exists. split.
  - intros (x & Hx & E). apply Nat.eqb_eq in E. now subst.
  - intros Hw. exists w. split; [exact Hw | apply Nat.eqb_refl].
Qed.

Lemma existsb_not_In (w : nat) l : existsb (Nat.eqb w) l = false <-> ~ In w l.
Proof.
  rewrite <- existsb_In. destruct (existsb (Nat.eqb w) l); split; congruence.
Qed.

Lemma Worker_stop_queues this p : queues (Worker_stop this p) = queues p.
Proof.
  unfold Worker_stop. destruct (workers p !! this) as [wo |]; [|reflexivity].
  now destruct (negb (worker_running wo)).
Qed.

Lemma Worker_stop_driver this p : driver (Worker_stop this p) = driver p.
Proof.
  unfold Worker_stop. destruct (workers p !! this) as [wo |]; [|reflexivity].
  now destruct (negb (worker_running wo)).
Qed.

Lemma Worker_stop_lookup this p w :
  workers (Worker_stop this p) !! w
  = if decide (w = this) then stopped <$> workers p !! w else workers p !! w.
Proof.
  unfold Worker_stop. destruct (decide (w = this)) as [-> | Hne].
  - destruct (workers p !! this) as [[q r] |] eqn:E; simpl; [|now rewrite E].
    destruct r; simpl.
    + now rewrite lookup_alter_eq, E.
    + now rewrite E.
  - destruct (workers p !! this) as [wo |]; [|reflexivity].
    destruct (negb (worker_running wo)); [reflexivity|].
    simpl. apply lookup_alter_ne. congruence.
Qed.

Lemma stop_all_queues l : forall p, queues (stop_all l p) = queues p.
Proof.
  induction l as [| x l IH]; intros p; simpl; [reflexivity|].
  now rewrite IH, Worker_stop_queues.
Qed.

Lemma stop_all_instances l : forall p, instances (stop_all l p) = instances p.
Proof.
  induction l as [| x l IH]; intros p; simpl; [reflexivity|].
  now rewrite IH, Worker_stop_instances.
Qed.

Lemma stop_all_driver l : forall p, driver (stop_all l p) = driver p.
Proof.
  induction l as [| x l IH]; intros p; simpl; [reflexivity|].
  now rewrite IH, Worker_stop_driver.
Qed.

Lemma stop_all_lookup l w : forall p,
  workers (stop_all l p) !! w
  = if existsb (Nat.eqb w) l then stopped <$> workers p !! w else workers p !! w.
Proof.
  induction l as [| x l IH]; intros p; simpl; [reflexivity|].
  rewrite IH, Worker_stop_lookup.
  destruct (Nat.eqb_spec w x) as [-> | Hne]; simpl.
  - rewrite decide_True by reflexivity.
    destruct (existsb (Nat.eqb x) l); [|reflexivity].
    now destruct (workers p !! x).
  - now rewrite decide_False by exact Hne.
Qed.

Lemma Worker_start_queues this p : queues (Worker_start this p) = queues p.
Proof.
  unfold Worker_start. destruct (workers p !! this) as [wo |]; [|reflexivity].
  now destruct (negb (isRunning (worker_queue wo) p) || worker_running wo).
Qed.

Lemma Worker_start_lookup this p w :
  workers (Worker_start this p) !! w
  = if decide (w = this) then started p <$> workers p !! w else workers p !! w.
Proof.
  unfold Worker_start. destruct (decide (w = this)) as [-> | Hne].
  - destruct (workers p !! this) as [[q r] |] eqn:E; simpl; [|now rewrite E].
    destruct (isRunning q p) eqn:Hq, r; simpl;
      rewrite ?lookup_alter_eq, ?E; simpl; rewrite ?Hq; reflexivity.
  - destruct (workers p !! this) as [wo |]; [|reflexivity].
    destruct (negb (isRunning (worker_queue wo) p) || worker_running wo);
      [reflexivity|].
    simpl. apply lookup_alter_ne. congruence.
Qed.

Lemma start_all_queues l : forall p, queues (start_all l p) = queues p.
Proof.
  induction l as [| x l IH]; intros p; simpl; [reflexivity|].
  now rewrite IH, Worker_start_queues.
Qed.

Lemma start_all_lookup l w : forall p,
  workers (start_all l p) !! w
  = if existsb (Nat.eqb w) l then started p <$> workers p !! w else workers p !! w.
Proof.
  induction l as [| x l IH]; intros p; simpl; [reflexivity|].
  rewrite IH, Worker_start_lookup. unfold isRunning. rewrite Worker_start_queues.
  destruct (Nat.eqb_spec w x) as [-> | Hne]; simpl.
  - rewrite decide_True by reflexivity.
    destruct (existsb (Nat.eqb x) l); [|reflexivity].
    destruct (workers p !! x) as [[q r] |]; [|reflexivity]. simpl.
    now rewrite <- orb_assoc, orb_diag.
  - now rewrite decide_False by exact Hne.
Qed.

(** X13. [stop()] on a running queue clears its flag and stops every
    worker of its set; workers outside the set, the other queues and the
    registry are left alone, and a second [stop()] changes nothing. *)
Theorem Queue_stop_stops_its_workers (this : nat) p q :
  queues p !! this = Some q -> queue_running q = true ->
  queues (Queue_stop this p) !! this
    = Some (mkQueue (queue_name q) (queue_options q) false (queue_workers q))
  /\ (forall other, other <> this ->
        queues (Queue_stop this p) !! other = queues p !! other)
  /\ (forall w, In w (queue_workers q) -> Worker_isRunning w (Queue_stop this p) = false)
  /\ (forall w, ~ In w (queue_workers q) ->
        workers (Queue_stop this p) !! w = workers p !! w)
  /\ instances (Queue_stop this p) = instances p
  /\ Queue_stop this (Queue_stop this p) = Queue_stop this p.
Proof.
  intros Hq Hrun.
  assert (queues (Queue_stop this p) !! this
          = Some (mkQueue (queue_name q) (queue_options q) false (queue_workers q)))
    as Hthis.
  { unfold Queue_stop. rewrite Hq, Hrun, stop_all_queues. simpl.
    now rewrite lookup_alter_eq, Hq. }
  split; [exact Hthis|]. split; [|split; [|split; [|split]]].
  - intros other Hne. unfold Queue_stop. rewrite Hq, Hrun, stop_all_queues. simpl.
    apply lookup_alter_ne. congruence.
  - intros w Hw. unfold Worker_isRunning, Queue_stop.
    rewrite Hq, Hrun, stop_all_lookup. apply existsb_In in Hw. rewrite Hw. simpl.
    now destruct (workers p !! w).
  - intros w Hw. unfold Queue_stop.
    rewrite Hq, Hrun, stop_all_lookup. apply existsb_not_In in Hw. now rewrite Hw.
  - unfold Queue_stop. rewrite Hq, Hrun. now rewrite stop_all_instances.
  - unfold Queue_stop at 1. now rewrite Hthis.
Qed.

(** X14. [start()] on a stopped queue sets its flag and starts every
    worker of its set; workers outside the set, the other queues and the
    registry are left alone, and a second [start()] changes nothing. *)
Theorem Queue_start_starts_its_workers (this : nat) p q :
  queues p !! this = Some q -> queue_running q = false ->
  queues (Queue_start this p) !! this
    = Some (mkQueue (queue_name q) (queue_options q) true (queue_workers q))
  /\ (forall other, other <> this ->
        queues (Queue_start this p) !! other = queues p !! other)
  /\ (forall w wo, In w (queue_workers q) -> workers p !! w = Some wo ->
        worker_queue wo = this -> Worker_isRunning w (Queue_start this p) = true)
  /\ (forall w, ~ In w (queue_workers q) ->
        workers (Queue_start this p) !! w = workers p !! w)
  /\ instances (Queue_start this p) = instances p
  /\ Queue_start this (Queue_start this p) = Queue_start this p.
Proof.
  intros Hq Hrun.
  assert (queues (Queue_start this p) !! this
          = Some (mkQueue (queue_name q) (queue_options q) true (queue_workers q)))
    as Hthis.
  { unfold Queue_start. rewrite Hq, Hrun. cbn [negb]. rewrite start_all_queues. simpl.
    now rewrite lookup_alter_eq, Hq. }
  split; [exact Hthis|]. split; [|split; [|split; [|split]]].
  - intros other Hne. unfold Queue_start. rewrite Hq, Hrun. cbn [negb].
    rewrite start_all_queues. simpl.
    apply lookup_alter_ne. congruence.
  - intros w wo Hw Hwo Hwq. unfold Worker_isRunning, Queue_start.
    rewrite Hq, Hrun. cbn [negb]. rewrite start_all_lookup.
    apply existsb_In in Hw. rewrite Hw. cbn [workers set_queue]. rewrite Hwo. simpl.
    unfold isRunning. simpl. rewrite Hwq, lookup_alter_eq, Hq. simpl.
    apply orb_true_r.
  - intros w Hw. unfold Queue_start.
    rewrite Hq, Hrun. cbn [negb]. rewrite start_all_lookup.
    apply existsb_not_In in Hw. now rewrite Hw.
  - apply Queue_start_instances.
  - unfold Queue_start at 1. now rewrite Hthis.
Qed.
Lemma Queue_start_worker (this : nat) p q w wo :
  queues p !! this = Some q -> queue_running q = false ->
  In w (queue_workers q) -> workers p !! w = Some wo -> worker_queue wo = this ->
  Worker_isRunning w (Queue_start this p) = true.
Proof.
  intros Hq Hrun Hw Hwo Hwq. unfold Worker_isRunning, Queue_start.
  rewrite Hq, Hrun. cbn [negb]. rewrite start_all_lookup.
  apply existsb_In in Hw. rewrite Hw. cbn [workers set_queue]. rewrite Hwo. simpl.
  unfold isRunning. simpl. rewrite Hwq, lookup_alter_eq, Hq. simpl.
  apply orb_true_r.
Qed.

Lemma Queue_start_other_worker (this : nat) p q w :
  queues p !! this = Some q -> ~ In w (queue_workers q) ->
  workers (Queue_start this p) !! w = workers p !! w.
Proof.
  intros Hq Hw. unfold Queue_start. rewrite Hq.
  destruct (negb (queue_running q)); [|reflexivity].
  rewrite start_all_lookup. apply existsb_not_In in Hw. now rewrite Hw.
Qed.

Lemma Queue_stop_worker (this : nat) p q w :
  queues p !! this = Some q -> queue_running q = true ->
  In w (queue_workers q) -> Worker_isRunning w (Queue_stop this p) = false.
Proof.
  intros Hq Hrun Hw. unfold Worker_isRunning, Queue_stop.
  rewrite Hq, Hrun, stop_all_lookup. apply existsb_In in Hw. rewrite Hw. simpl.
  now destruct (workers p !! w).
Qed.

Lemma Queue_stop_other_worker (this : nat) p q w :
  queues p !! this = Some q -> ~ In w (queue_workers q) ->
  workers (Queue_stop this p) !! w = workers p !! w.
Proof.
  intros Hq Hw. unfold Queue_stop. rewrite Hq.
  destruct (queue_running q); [|reflexivity].
  rewrite stop_all_lookup. apply existsb_not_In in Hw. now rewrite Hw.
Qed.

Lemma In_Set_add (x : nat) l : In x (Set_add x l).
Proof.
  unfold Set_add. destruct (existsb (Nat.eqb x) l) eqn:E.
  - now apply existsb_In.
  - apply in_app_iff. right. now left.
Qed.

(** X15. A new worker joins the set of its queue, and no other worker is
    touched.  It is running exactly when the queue is running and its
    [autostart] is asked for: no options object, an object without the
    key, or the key given as [true]; with the key given as [false] or as
    [undefined] it is left stopped.  Whatever the options, it runs once a
    stopped queue is started, and it is stopped when a running queue is
    stopped. *)
Theorem new_Worker_follows_its_queue (queue : nat)
    (options : option PartialWorkerOptions) p q :
  queues p !! queue = Some q ->
  let asked :=
    match options with
    | None => true
    | Some o =>
        match partial_autostart o with
        | key_missing => true
        | key_undefined => false
        | key_value b => b
        end
    end in
  workers p !! fst (new_Worker queue options p) = None
  /\ workers (snd (new_Worker queue options p)) !! fst (new_Worker queue options p)
     = Some (mkWorker queue (asked && queue_running q))
  /\ (forall w, w <> fst (new_Worker queue options p) ->
        workers (snd (new_Worker queue options p)) !! w = workers p !! w)
  /\ queues (snd (new_Worker queue options p)) !! queue
     = Some (mkQueue (queue_name q) (queue_options q) (queue_running q)
               (Set_add (fst (new_Worker queue options p)) (queue_workers q)))
  /\ In (fst (new_Worker queue options p))
        (Set_add (fst (new_Worker queue options p)) (queue_workers q))
  /\ (queue_running q = false ->
      Worker_isRunning (fst (new_Worker queue options p))
                       (Queue_start queue (snd (new_Worker queue options p))) = true)
  /\ (queue_running q = true ->
      Worker_isRunning (fst (new_Worker queue options p))
                       (Queue_stop queue (snd (new_Worker queue options p))) = false).
Proof.
  intros Hq asked. unfold new_Worker. cbn [fst snd].
  assert (truthy_bool (value_autostart (merge_worker_options options)) = asked) as ->.
  { unfold asked. destruct options as [o |]; [|reflexivity].
    simpl. now destruct (partial_autostart o). }
  set (this := fresh (dom (workers p))).
  set (p1 := mkProcess (instances p) _ (<[this := mkWorker queue false]> (workers p))
                       (driver p)).
  set (p' := if asked then Worker_start this p1 else p1).
  assert (workers p !! this = None) as Hfresh.
  { apply not_elem_of_dom_1. apply is_fresh. }
  assert (queues p1 !! queue
          = Some (mkQueue (queue_name q) (queue_options q) (queue_running q)
                    (Set_add this (queue_workers q)))) as Hq1.
  { unfold p1. cbn [queues]. now rewrite lookup_alter_eq, Hq. }
  assert (queues p' = queues p1) as Hqueues.
  { unfold p'. destruct asked; [apply Worker_start_queues | reflexivity]. }
  assert (workers p' !! this = Some (mkWorker queue (asked && queue_running q)))
    as Hthis.
  { unfold p'. destruct asked; simpl.
    - rewrite Worker_start_lookup, decide_True by reflexivity.
      unfold p1 at 2. cbn [workers]. rewrite lookup_insert_eq. simpl.
      unfold isRunning. now rewrite Hq1.
    - apply lookup_insert_eq. }
  assert (queues p' !! queue
          = Some (mkQueue (queue_name q) (queue_options q) (queue_running q)
                    (Set_add this (queue_workers q)))) as Hq'
    by now rewrite Hqueues.
  split; [exact Hfresh|]. split; [exact Hthis|].
  split; [|split; [exact Hq' | split; [apply In_Set_add | split]]].
  - intros w Hne. unfold p'. destruct asked.
    + rewrite Worker_start_lookup, decide_False by exact Hne.
      simpl. apply lookup_insert_ne. congruence.
    + simpl. apply lookup_insert_ne. congruence.
  - intros Hrun.
    apply (Queue_start_worker queue p' _ this _ Hq' Hrun (In_Set_add _ _) Hthis eq_refl).
  - intros Hrun.
    apply (Queue_stop_worker queue p' _ this Hq' Hrun (In_Set_add _ _)).
Qed.

Abbreviation close_all ws pr :=
  (fold_left (fun pr' worker => Worker_close Pool_close worker pr') ws pr).
Abbreviation without ws :=
  (fun q : QueueObject =>
     mkQueue (queue_name q) (queue_options q) (queue_running q)
             (List.filter (fun r => negb (existsb (Nat.eqb r) ws)) (queue_workers q))).

Lemma Worker_close_workers x p :
  workers (Worker_close Pool_close x p) = workers (Worker_stop x p).
Proof.
  unfold Worker_close. cbn [workers].
  now destruct (workers (Worker_stop x p) !! x).
Qed.

Lemma Worker_close_driver x p :
  driver (Worker_close Pool_close x p) = Pool_close (driver p).
Proof.
  unfold Worker_close. cbn [workers].
  destruct (workers (Worker_stop x p) !! x); simpl; now rewrite Worker_stop_driver.
Qed.

Lemma Worker_close_queues x p wo :
  workers p !! x = Some wo ->
  queues (Worker_close Pool_close x p) = alter (without [x]) (worker_queue wo) (queues p).
Proof.
  intros Hwo. unfold Worker_close. cbn [workers].
  rewrite Worker_stop_lookup, decide_True, Hwo by reflexivity. simpl.
  rewrite Worker_stop_queues. apply alter_ext. intros q _. f_equal.
  apply filter_ext. intros r. now rewrite orb_false_r.
Qed.

Lemma iter_Pool_close (n : nat) (d : Driver) :
  Nat.iter n Pool_close (Pool_close d) = Pool_close (Nat.iter n Pool_close d).
Proof. induction n as [| n IH]; simpl; [reflexivity | now rewrite IH]. Qed.

Lemma filter_all {A} (f : A -> bool) (xs : list A) :
  (forall x, In x xs -> f x = true) -> List.filter f xs = xs.
Proof.
  induction xs as [| x xs IH]; simpl; intros Hall; [reflexivity|].
  rewrite (Hall x (or_introl eq_refl)). f_equal. apply IH. auto.
Qed.

Lemma filter_none {A} (f : A -> bool) (xs : list A) :
  (forall x, In x xs -> f x = false) -> List.filter f xs = [].
Proof.
  induction xs as [| x xs IH]; simpl; intros Hall; [reflexivity|].
  rewrite (Hall x (or_introl eq_refl)). apply IH. auto.
Qed.

Lemma filter_twice {A} (f g : A -> bool) (xs : list A) :
  List.filter f (List.filter g xs) = List.filter (fun x => g x && f x) xs.
Proof.
  induction xs as [| x xs IH]; simpl; [reflexivity|].
  destruct (g x); simpl; [|exact IH]. destruct (f x); now rewrite IH.
Qed.

Lemma close_all_spec (this : nat) l : forall p qi,
  queues p !! this = Some qi ->
  (forall w, In w l -> exists wo, workers p !! w = Some wo /\ worker_queue wo = this) ->
  queues (close_all l p) !! this = Some (without l qi)
  /\ (forall other, other <> this -> queues (close_all l p) !! other = queues p !! other)
  /\ (forall w, workers (close_all l p) !! w
                = if existsb (Nat.eqb w) l then stopped <$> workers p !! w
                  else workers p !! w)
  /\ driver (close_all l p) = Nat.iter (length l) Pool_close (driver p).
Proof.
  induction l as [| x l IH]; intros p qi Hq Hall.
  - simpl. split; [|auto]. rewrite Hq. destruct qi as [name opts running ws]. simpl.
    do 2 f_equal. symmetry. apply filter_all. auto.
  - destruct (Hall x (or_introl eq_refl)) as (wo & Hwo & Hwq).
    pose proof (Worker_close_queues x p wo Hwo) as Hqueues. rewrite Hwq in Hqueues.
    destruct (IH (Worker_close Pool_close x p) (without [x] qi)) as (H1 & H2 & H3 & H4).
    { now rewrite Hqueues, lookup_alter_eq, Hq. }
    { intros w Hw. destruct (Hall w (or_intror Hw)) as (wo' & Hwo' & Hwq').
      rewrite Worker_close_workers, Worker_stop_lookup, Hwo'.
      destruct (decide (w = x)); simpl; eauto. }
    cbn [fold_left]. split; [|split; [|split]].
    + rewrite H1. simpl. do 2 f_equal. rewrite filter_twice. apply filter_ext.
      intros r. rewrite orb_false_r. now destruct (Nat.eqb r x).
    + intros other Hne. rewrite (H2 other Hne), Hqueues.
      apply lookup_alter_ne. congruence.
    + intros w. rewrite H3, Worker_close_workers, Worker_stop_lookup. simpl.
      destruct (Nat.eqb_spec w x) as [-> | Hne]; simpl.
      * rewrite decide_True by reflexivity.
        destruct (existsb (Nat.eqb x) l); [|reflexivity].
        now destruct (workers p !! x).
      * now rewrite decide_False by exact Hne.
    + rewrite H4, Worker_close_driver. apply iter_Pool_close.
Qed.

End Lifecycle.

Lemma Queue_stop_stops_its_workers_witness :
  Worker_isRunning 0 (Queue_stop 0 process_with_workers) = false.
Proof.
  apply (proj1 (proj2 (proj2 (Queue_stop_stops_its_workers
                                0%nat process_with_workers running_Q eq_refl eq_refl)))).
  simpl. auto.
Defined.

Lemma Queue_start_starts_its_workers_witness :
  Worker_isRunning 1 (Queue_start 0 process_stopped) = true.
Proof.
  apply (proj1 (proj2 (proj2 (Queue_start_starts_its_workers
                                0%nat process_stopped stopped_Q eq_refl eq_refl)))
           1%nat (mkWorker 0 false)).
  - simpl. auto.
  - reflexivity.
  - reflexivity.
Defined.

Lemma new_Worker_follows_its_queue_witness :
  workers (snd (new_Worker 0 (Some autostart_undefined) process_with_workers))
    !! fst (new_Worker 0 (Some autostart_undefined) process_with_workers)
  = Some (mkWorker 0 false)
  /\ workers (snd (new_Worker 0 (Some autostart_false) process_with_workers))
       !! fst (new_Worker 0 (Some autostart_false) process_with_workers)
     = Some (mkWorker 0 false)
  /\ workers (snd (new_Worker 0 (Some no_keys) process_with_workers))
       !! fst (new_Worker 0 (Some no_keys) process_with_workers)
     = Some (mkWorker 0 true).
Proof.
  split; [|split].
  - apply (proj1 (proj2 (new_Worker_follows_its_queue
                           0%nat (Some autostart_undefined) process_with_workers
                           running_Q eq_refl))).
  - apply (proj1 (proj2 (new_Worker_follows_its_queue
                           0%nat (Some autostart_false) process_with_workers
                           running_Q eq_refl))).
  - apply (proj1 (proj2 (new_Worker_follows_its_queue
                           0%nat (Some no_keys) process_with_workers
                           running_Q eq_refl))).
Defined.



(* ===================================================================== *)
(** * The order in which a worker completes the rows of a table           *)
(* ===================================================================== *)

Section StrictOrder.
Context {TPayload : Type}.
Implicit Types (l : list (Job TPayload)) (x : Job TPayload).

(** A list has one strictly sorted arrangement. *)
Lemma strictly_sorted_perm_eq l : forall l',
  StronglySorted strictly_before l -> StronglySorted strictly_before l' ->
  Permutation l l' -> l = l'.
Proof.
  induction l as [| a l IH]; intros l' Hs Hs' Hperm.
  - apply Permutation_nil in Hperm. now subst.
  - destruct l' as [| b l'].
    { symmetry in Hperm. apply Permutation_nil in Hperm. discriminate. }
    inversion Hs as [| ? ? Hsl Hall]; subst.
    inversion Hs' as [| ? ? Hsl' Hall']; subst.
    rewrite List.Forall_forall in Hall, Hall'.
    assert (a = b) as ->.
    { assert (In a (b :: l')) as [Ha | Ha]
        by (eapply Permutation_in; [exact Hperm | now left]); [now subst|].
      assert (In b (a :: l)) as [Hb | Hb]
        by (eapply Permutation_in; [symmetry; exact Hperm | now left]); [now subst|].
      specialize (Hall b Hb). specialize (Hall' a Ha). unfold strictly_before in *.
      pose proof (compareJobs_gt a b). lia. }
    f_equal. apply IH; auto. now apply Permutation_cons_inv in Hperm.
Qed.

Lemma filter_ids_distinct (f : Job TPayload -> bool) l :
  List.NoDup (map id l) -> List.NoDup (map id (List.filter f l)).
Proof.
  induction l as [| x l IH]; simpl; intros Hnd; [constructor|].
  inversion Hnd as [| ? ? Hnot Hnd']; subst.
  destruct (f x); simpl; [|now apply IH].
  constructor; [|now apply IH].
  intros Hin. apply Hnot. apply in_map_iff in Hin as (y & Hy & Hyl).
  apply filter_In in Hyl as [Hyl _]. rewrite <- Hy. now apply List.in_map.
Qed.

Lemma order_by_strict l :
  List.NoDup (map id l) -> StronglySorted strictly_before (Array_sort Sql.order_by l).
Proof.
  intros Hnd.
  assert (List.NoDup (map id (Array_sort Sql.order_by l))) as Hnd'.
  { eapply Permutation_NoDup; [|exact Hnd].
    apply Permutation_map. symmetry. apply Array_sort_perm. }
  pose proof (order_by_sorted l) as Hs.
  induction Hs as [| y l' Hs IH Hall]; [constructor|].
  simpl in Hnd'. inversion Hnd' as [| ? ? Hnot Hnd'']; subst.
  constructor; [now apply IH|].
  rewrite List.Forall_forall in *. intros z Hz.
  specialize (Hall z Hz). unfold before_or_equal in Hall. apply order_by_le in Hall.
  unfold strictly_before.
  destruct (Z.eq_dec (compareJobs y z) 0) as [E | N]; [|lia].
  apply compareJobs_zero in E as (_ & _ & Hid).
  exfalso. apply Hnot. rewrite Hid. now apply List.in_map.
Qed.

(** Taking the first row out of the table leaves the rest of the order. *)
Lemma order_by_without_first (A B : list (Job TPayload)) x rest :
  List.NoDup (map id (A ++ x :: B)) ->
  Array_sort Sql.order_by (A ++ x :: B) = x :: rest ->
  Array_sort Sql.order_by (A ++ B) = rest.
Proof.
  intros Hnd Hsort.
  assert (List.NoDup (map id (A ++ B))) as Hnd'.
  { rewrite map_app in *. simpl in Hnd. now apply NoDup_remove_1 in Hnd. }
  apply strictly_sorted_perm_eq.
  - now apply order_by_strict.
  - pose proof (order_by_strict _ Hnd) as Hs. rewrite Hsort in Hs.
    now inversion Hs.
  - rewrite Array_sort_perm. symmetry.
    apply Permutation_cons_app_inv with x. rewrite <- Hsort.
    apply Array_sort_perm.
Qed.

Lemma map_update_at (f : Job TPayload -> Job TPayload) (A B : list (Job TPayload)) x :
  List.NoDup (map id (A ++ x :: B)) ->
  map (fun r => if id r =? id x then f r else r) (A ++ x :: B) = A ++ f x :: B.
Proof.
  intros Hnd.
  assert (forall l, (forall z, In z l -> id z <> id x) ->
            map (fun r => if id r =? id x then f r else r) l = l) as Hsame.
  { induction l as [| z l IH]; simpl; intros Hz; [reflexivity|].
    destruct (Z.eqb_spec (id z) (id x)) as [E | N];
      [now destruct (Hz z (or_introl eq_refl))|].
    f_equal. apply IH. intros z' Hz'. apply Hz. now right. }
  rewrite map_app in Hnd. simpl in Hnd.
  pose proof (NoDup_remove_2 _ _ _ Hnd) as Hnot.
  rewrite map_app. simpl. rewrite Z.eqb_refl. rewrite !Hsame; [reflexivity | |].
  - intros z Hz E. apply Hnot. apply in_app_iff. right. rewrite <- E. now apply List.in_map.
  - intros z Hz E. apply Hnot. apply in_app_iff. left. rewrite <- E. now apply List.in_map.
Qed.
End StrictOrder.

Section SqlClients.
Context {TPayload : Type}.
Implicit Types (c : Sql.Connection TPayload) (x wj : Job TPayload).

Lemma PostgreSql_acquires now c wj rest :
  List.NoDup (map id (Sql.rows c)) ->
  Sql.select_next waiting c = wj :: rest ->
  client_acquireJob PostgreSqlClient now c =
    (Return (activated now wj),
     Sql.mkConnection
       (Sql.rows (Sql.update_by_id (PostgreSqlPoolClient.touch now) active undefined
                                   (id wj) c))
       (Sql.serial c) None).
Proof. intros Hnd Hsel. exact (PostgreSql_acquireJob_some c now wj rest Hnd Hsel). Qed.

Lemma MySql_acquires now c wj rest :
  List.NoDup (map id (Sql.rows c)) ->
  Sql.select_next waiting c = wj :: rest ->
  client_acquireJob MySqlClient now c =
    (Return (activated now wj),
     Sql.mkConnection
       (Sql.rows (Sql.update_by_id (MySqlPoolClient.touch now) active undefined
                                   (id wj) c))
       (Sql.serial c) None).
Proof.
  intros Hnd Hsel.
  destruct (select_next_first c wj rest Hsel) as (_ & Hw & _).
  unfold is_waiting, JobState_eqb in Hw. apply bool_decide_eq_true in Hw.
  change (client_acquireJob MySqlClient now c) with (MySqlPoolClient.acquireJob now c).
  rewrite (MySql_acquireJob_some c now wj rest Hnd Hsel).
  unfold Sql.update_row, with_errorMessage, activated, MySqlPoolClient.touch. simpl.
  rewrite Hw. reflexivity.
Qed.

Lemma PostgreSql_completes now c x :
  List.NoDup (map id (Sql.rows c)) -> In x (Sql.rows c) -> state x = active ->
  client_updateJobStateById PostgreSqlClient (id x) completed None now c =
    (Return (completed_job now x),
     Sql.update_by_id (PostgreSqlPoolClient.touch now) completed undefined (id x) c).
Proof.
  intros Hnd Hin _.
  exact (PostgreSql_update_found c (id x) completed None now x Hnd Hin eq_refl).
Qed.

Lemma MySql_completes now c x :
  List.NoDup (map id (Sql.rows c)) -> In x (Sql.rows c) -> state x = active ->
  client_updateJobStateById MySqlClient (id x) completed None now c =
    (Return (completed_job now x),
     Sql.update_by_id (MySqlPoolClient.touch now) completed undefined (id x) c).
Proof.
  intros Hnd Hin Hactive.
  change (client_updateJobStateById MySqlClient) with
    (@MySqlPoolClient.updateJobStateById TPayload).
  rewrite (MySql_update_found c (id x) completed None now x Hnd Hin eq_refl).
  unfold Sql.update_row, MySqlPoolClient.touch, with_errorMessage, completed_job. simpl.
  rewrite Hactive. reflexivity.
Qed.
End SqlClients.

Section SqlCycle.
Context {TPayload Env : Type}.
Variable client : AbstractDatabasePoolClient TPayload (Sql.Connection TPayload).
Variable touch : Z -> Job TPayload -> Job TPayload -> Z.
Hypothesis client_releases : forall c, client_release client c = c.
Hypothesis client_acquires : forall now c wj rest,
  List.NoDup (map id (Sql.rows c)) ->
  Sql.select_next waiting c = wj :: rest ->
  client_acquireJob client now c =
    (Return (activated now wj),
     Sql.mkConnection
       (Sql.rows (Sql.update_by_id (touch now) active undefined (id wj) c))
       (Sql.serial c) None).
Hypothesis client_completes : forall now c x,
  List.NoDup (map id (Sql.rows c)) -> In x (Sql.rows c) -> state x = active ->
  client_updateJobStateById client (id x) completed None now c =
    (Return (completed_job now x),
     Sql.update_by_id (touch now) completed undefined (id x) c).
Variable now : Env -> Z.
Variable setTimeout : Z -> Env -> Env.
Variable processor : Job TPayload -> M Env unit.
Variable options : DatabaseWorkerOptions.
Variable emitter : QueueEmitter.

Abbreviation waiting_rows c :=
  (Array_sort Sql.order_by
     (List.filter (fun r : Job TPayload => JobState_eqb (state r) waiting) (Sql.rows c))).

(** One turn of the loop on a table whose waiting rows are [wj :: rest]
    in dequeue order. *)
Lemma Sql_cycle_completes (c : Sql.Connection TPayload) e ev wj rest e' :
  List.NoDup (map id (Sql.rows c)) ->
  waiting_rows c = wj :: rest ->
  processor (activated (now (setTimeout (processingInterval options) e)) wj)
            (setTimeout (processingInterval options) e) = (Return tt, e') ->
  exists c',
    processJobs_cycle client now setTimeout processor options emitter (mkWorld c e ev)
    = (Return tt,
       mkWorld c' e'
         (ev ++ success_events
                  (activated (now (setTimeout (processingInterval options) e)) wj)
                  (completed_job (now e') wj)))
    /\ List.NoDup (map id (Sql.rows c'))
    /\ waiting_rows c' = rest
    /\ (exists stored, In stored (Sql.rows c') /\ id stored = id wj
                       /\ state stored = completed)
    /\ (forall j, In j (Sql.rows c) -> is_waiting j = false -> In j (Sql.rows c')).
Proof.
  intros Hnd Hqueue Hret.
  set (t1 := now (setTimeout (processingInterval options) e)) in *.
  assert (Sql.select_next waiting c = [wj]) as Hsel.
  { unfold Sql.select_next. now rewrite Hqueue. }
  destruct (select_next_first c wj [] Hsel) as (Hin & Hw & _).
  pose proof (client_acquires t1 c wj [] Hnd Hsel) as Hacq.
  destruct (in_split _ _ Hin) as (pre & post & Hrows).
  assert (List.NoDup (map id (pre ++ wj :: post))) as Hnd0 by now rewrite <- Hrows.
  set (x1 := Sql.update_row (touch t1) active undefined wj).
  assert (Sql.rows (Sql.update_by_id (touch t1) active undefined (id wj) c)
          = pre ++ x1 :: post) as Hrows1.
  { unfold Sql.update_by_id. cbn [Sql.rows]. rewrite Hrows. now apply map_update_at. }
  rewrite Hrows1 in Hacq.
  set (c1 := Sql.mkConnection (pre ++ x1 :: post) (Sql.serial c) None) in *.
  assert (map id (pre ++ x1 :: post) = map id (pre ++ wj :: post)) as Hids1
    by now rewrite !map_app.
  assert (List.NoDup (map id (Sql.rows c1))) as Hnd1 by (simpl; now rewrite Hids1).
  assert (In x1 (Sql.rows c1)) as Hin1 by (simpl; apply in_app_iff; right; now left).
  pose proof (client_completes (now e') c1 x1 Hnd1 Hin1 eq_refl) as Hupd.
  set (x2 := Sql.update_row (touch (now e')) completed undefined x1).
  assert (Sql.rows (Sql.update_by_id (touch (now e')) completed undefined (id x1) c1)
          = pre ++ x2 :: post) as Hrows2.
  { unfold Sql.update_by_id. cbn [Sql.rows c1]. now apply map_update_at. }
  set (c2 := Sql.update_by_id (touch (now e')) completed undefined (id x1) c1) in *.
  exists c2. split.
  { rewrite (cycle_first_call client now setTimeout processor options emitter
               c e ev (activated t1 wj) c1 e' (completed_job (now e') wj) c2
               Hacq Hret Hupd).
    now rewrite client_releases. }
  rewrite Hrows2.
  assert (map id (pre ++ x2 :: post) = map id (pre ++ wj :: post)) as Hids2
    by now rewrite !map_app.
  unfold is_waiting in Hw.
  split; [now rewrite Hids2|]. split; [|split].
  - assert (JobState_eqb (state x2) waiting = false) as Hx2 by reflexivity.
    rewrite List.filter_app. cbn [List.filter]. rewrite Hx2.
    apply order_by_without_first with wj.
    + pose proof (filter_ids_distinct (fun r => JobState_eqb (state r) waiting) _ Hnd0)
        as Hf.
      rewrite List.filter_app in Hf. cbn [List.filter] in Hf. now rewrite Hw in Hf.
    + rewrite Hrows, List.filter_app in Hqueue. cbn [List.filter] in Hqueue.
      now rewrite Hw in Hqueue.
  - exists x2. split; [apply in_app_iff; right; now left|]. now split.
  - intros j Hj Hno. rewrite Hrows in Hj.
    apply in_app_iff in Hj as [Hj | [<- | Hj]].
    + apply in_app_iff. now left.
    + unfold is_waiting in Hno. congruence.
    + apply in_app_iff. right. now right.
Qed.
End SqlCycle.

Section SqlSpiedOrder.
Context {TPayload Env : Type}.
Variable client : AbstractDatabasePoolClient TPayload (Sql.Connection TPayload).
Variable touch : Z -> Job TPayload -> Job TPayload -> Z.
Hypothesis client_releases : forall c, client_release client c = c.
Hypothesis client_acquires : forall now c wj rest,
  List.NoDup (map id (Sql.rows c)) ->
  Sql.select_next waiting c = wj :: rest ->
  client_acquireJob client now c =
    (Return (activated now wj),
     Sql.mkConnection
       (Sql.rows (Sql.update_by_id (touch now) active undefined (id wj) c))
       (Sql.serial c) None).
Hypothesis client_completes : forall now c x,
  List.NoDup (map id (Sql.rows c)) -> In x (Sql.rows c) -> state x = active ->
  client_updateJobStateById client (id x) completed None now c =
    (Return (completed_job now x),
     Sql.update_by_id (touch now) completed undefined (id x) c).
Variable now : Env -> Z.
Variable setTimeout : Z -> Env -> Env.
Variable processor : Job TPayload -> M Env unit.
Variable options : DatabaseWorkerOptions.
Variable emitter : QueueEmitter.

Lemma Sql_cycles_complete (ws : list (Job TPayload)) :
  always_returns processor ->
  forall (c : Sql.Connection TPayload) e calls ev,
  List.NoDup (map id (Sql.rows c)) ->
  Array_sort Sql.order_by
    (List.filter (fun r => JobState_eqb (state r) waiting) (Sql.rows c)) = ws ->
  exists c' e' ev' cs,
    spied_processJobs_cycles client now setTimeout processor options emitter (length ws)
                             (mkWorld c (e, calls) ev)
    = (Return tt, mkWorld c' (e', (calls + length ws)%nat) ev')
    /\ completed_on_worker ev' = completed_on_worker ev ++ cs
    /\ Forall2 completion_of cs ws
    /\ (forall cj, In cj cs ->
          exists stored, In stored (Sql.rows c') /\ id stored = id cj
                         /\ state stored = completed)
    /\ (forall j, In j (Sql.rows c) -> is_waiting j = false -> In j (Sql.rows c'))
    /\ (forall j, In j (Sql.rows c') -> is_waiting j = false).
Proof.
  intros Hproc. induction ws as [| wj rest IH]; intros c e calls ev Hnd Hqueue.
  - exists c, e, ev, []. simpl. unfold ret. rewrite Nat.add_0_r, app_nil_r.
    split; [reflexivity|]. split; [reflexivity|]. split; [constructor|].
    split; [intros cj []|]. split; [auto|].
    intros j Hj. unfold is_waiting.
    destruct (JobState_eqb (state j) waiting) eqn:Hw; [|reflexivity].
    assert (In j (Array_sort Sql.order_by
                    (List.filter (fun r => JobState_eqb (state r) waiting) (Sql.rows c))))
      as Hin.
    { eapply Permutation_in; [symmetry; apply Array_sort_perm|].
      apply filter_In. auto. }
    rewrite Hqueue in Hin. destruct Hin.
  - set (e0 := setTimeout (processingInterval options) e).
    destruct (Hproc (activated (now e0) wj) e0) as (e1 & Hret).
    destruct (Sql_cycle_completes client touch client_releases client_acquires
                client_completes
                (fun e => now (fst e)) (spy_setTimeout setTimeout)
                (fun job => spy (processor job)) options emitter c (e, calls) ev wj rest
                (e1, S calls) Hnd Hqueue)
      as (c1 & Hcycle & Hnd1 & Hqueue1 & (stored1 & Hin1 & Hid1 & Hst1) & Hkept1).
    { cbn. fold e0. now rewrite Hret. }
    cbn [fst spy_setTimeout] in Hcycle. fold e0 in Hcycle.
    destruct (IH c1 e1 (S calls)
                (ev ++ success_events (activated (now e0) wj) (completed_job (now e1) wj))
                Hnd1 Hqueue1)
      as (c' & e' & ev' & cs & Hrun & Hev & Hcs & Hstored & Hkept & Hdone).
    exists c', e', ev', (completed_job (now e1) wj :: cs).
    split; [|split; [|split; [|split; [|split]]]].
    + unfold spied_processJobs_cycles in *. cbn [length processJobs_cycles].
      unfold bind at 1. rewrite Hcycle. cbv beta iota. cbn [fst]. rewrite Hrun.
      do 3 f_equal. lia.
    + rewrite Hev, completed_on_worker_success, <- app_assoc. reflexivity.
    + constructor; [now exists (now e1) | exact Hcs].
    + intros cj [<- | Hcj]; [|now apply Hstored].
      exists stored1. split; [|now split].
      apply Hkept; [exact Hin1|]. unfold is_waiting. now rewrite Hst1.
    + intros j Hj Hno. apply Hkept; [now apply Hkept1 | exact Hno].
    + exact Hdone.
Qed.
End SqlSpiedOrder.

(** X18. A PostgreSQL or MySQL worker whose processor always returns works
    the table off in the order of the SELECT.  Let [ws] be the waiting
    rows of a table with distinct ids, ordered by priority (highest
    first), then [createdAt], then id.  The first [length ws] turns of the
    loop call the processor [length ws] times and emit one [completed]
    event per row of [ws], in that order, each for the completed form of
    the row; every job reported is then stored [completed] under its id,
    the rows that were not waiting are as they were, and no waiting row is
    left. *)
Theorem Sql_worker_completes_in_dequeue_order {TPayload Env : Type}
    (now : Env -> Z) (setTimeout : Z -> Env -> Env)
    (processor : Job TPayload -> M Env unit) (options : DatabaseWorkerOptions)
    (emitter : QueueEmitter) (c : Sql.Connection TPayload) (e : Env) (calls : nat)
    (ev : list (Emitted TPayload)) :
  always_returns processor ->
  List.NoDup (map id (Sql.rows c)) ->
  exists ws,
    (forall j, In j ws <-> In j (Sql.rows c) /\ state j = waiting)
    /\ StronglySorted strictly_before ws
    /\ forall client,
         client = PostgreSqlClient \/ client = MySqlClient ->
         exists c' e' ev' cs,
           spied_processJobs_cycles client now setTimeout processor options emitter
                                    (length ws) (mkWorld c (e, calls) ev)
           = (Return tt, mkWorld c' (e', (calls + length ws)%nat) ev')
           /\ completed_on_worker ev' = completed_on_worker ev ++ cs
           /\ Forall2 completion_of cs ws
           /\ (forall cj, In cj cs ->
                 exists stored, In stored (Sql.rows c') /\ id stored = id cj
                                /\ state stored = completed)
           /\ (forall j, In j (Sql.rows c) -> state j <> waiting -> In j (Sql.rows c'))
           /\ (forall j, In j (Sql.rows c') -> state j <> waiting).
Proof.
  intros Hproc Hnd.
  set (waiting_rows := List.filter (fun r : Job TPayload => JobState_eqb (state r) waiting)
                                   (Sql.rows c)).
  exists (Array_sort Sql.order_by waiting_rows).
  assert (forall j : Job TPayload, is_waiting j = false <-> state j <> waiting) as Hno.
  { intros j. unfold is_waiting, JobState_eqb. apply bool_decide_eq_false. }
  split; [|split].
  - intros j. split.
    + intros Hj. eapply Permutation_in in Hj; [|apply Array_sort_perm].
      apply filter_In in Hj as [Hj Hw]. split; [exact Hj|].
      unfold JobState_eqb in Hw. now apply bool_decide_eq_true in Hw.
    + intros [Hj Hw]. eapply Permutation_in; [symmetry; apply Array_sort_perm|].
      apply filter_In. split; [exact Hj|].
      unfold JobState_eqb. now apply bool_decide_eq_true.
  - apply order_by_strict. now apply filter_ids_distinct.
  - intros client [-> | ->].
    + destruct (Sql_cycles_complete PostgreSqlClient PostgreSqlPoolClient.touch
                  (fun c => eq_refl) PostgreSql_acquires PostgreSql_completes
                  now setTimeout processor options emitter _ Hproc c e calls ev Hnd eq_refl)
        as (c' & e' & ev' & cs & Hrun & Hev & Hcs & Hstored & Hkept & Hdone).
      exists c', e', ev', cs. repeat split; auto.
      * intros j Hj Hw. apply Hkept; [exact Hj | now apply Hno].
      * intros j Hj. apply Hno. now apply Hdone.
    + destruct (Sql_cycles_complete MySqlClient MySqlPoolClient.touch
                  (fun c => eq_refl) MySql_acquires MySql_completes
                  now setTimeout processor options emitter _ Hproc c e calls ev Hnd eq_refl)
        as (c' & e' & ev' & cs & Hrun & Hev & Hcs & Hstored & Hkept & Hdone).
      exists c', e', ev', cs. repeat split; auto.
      * intros j Hj Hw. apply Hkept; [exact Hj | now apply Hno].
      * intros j Hj. apply Hno. now apply Hdone.
Qed.

Lemma Sql_worker_completes_in_dequeue_order_witness :
  exists ws,
    (forall j, In j ws <-> In j three_jobs /\ state j = waiting)
    /\ StronglySorted strictly_before ws
    /\ forall client,
         client = PostgreSqlClient \/ client = MySqlClient ->
         exists c' e' ev' cs,
           spied_processJobs_cycles client (fun _ : unit => 300) (fun _ e => e)
                                    (fun _ e => (Return tt, e)) Worker_defaultOptions listening
                                    (length ws)
                                    (mkWorld (Sql.mkConnection three_jobs 4 None)
                                             (tt, 0%nat) [])
           = (Return tt, mkWorld c' (e', (0 + length ws)%nat) ev')
           /\ completed_on_worker ev' = completed_on_worker [] ++ cs
           /\ Forall2 completion_of cs ws
           /\ (forall cj, In cj cs ->
                 exists stored, In stored (Sql.rows c') /\ id stored = id cj
                                /\ state stored = completed)
           /\ (forall j, In j three_jobs -> state j <> waiting -> In j (Sql.rows c'))
           /\ (forall j, In j (Sql.rows c') -> state j <> waiting).
Proof.
  apply (Sql_worker_completes_in_dequeue_order
           (fun _ : unit => 300) (fun _ e => e) (fun _ e => (Return tt, e))
           Worker_defaultOptions listening (Sql.mkConnection three_jobs 4 None)
           tt 0%nat []).
  - intros job e. exists e. reflexivity.
  - simpl. repeat constructor; simpl; intuition lia.
Defined.

Lemma ids_fresh_invariant_witness :
  ids_fresh (snd (MockDatabasePoolClient.acquireJob
                    300 (MockDatabasePoolClient.mkStatics 4 three_jobs []))).
Proof.
  refine (proj1 (proj2 (proj2 (ids_fresh_invariant
                                 (MockDatabasePoolClient.mkStatics 4 three_jobs [])) _))
            300).
  split; simpl.
  - repeat constructor; simpl; intuition lia.
  - intros i [<- | [<- | [<- | []]]]; lia.
Defined.

Lemma primary_key_invariant_witness :
  List.NoDup (map id (Sql.rows (snd (Sql.insert tt waiting 5 200 failed_with_boom)))).
Proof.
  refine (proj1 (primary_key_invariant failed_with_boom _) tt waiting 5 200).
  simpl. repeat constructor; simpl; intuition.
Defined.

(* ===================================================================== *)
(** * Draining, and constructing a queue                                  *)
(* ===================================================================== *)

Section DrainThenAcquire.
Context {TPayload : Type}.
Implicit Types (l : list (Job TPayload)).

Lemma count_state_drained (k : JobState) l :
  count_state k
    (List.filter (fun j => negb (existsb (JobState_eqb (state j)) [waiting])) l)
  = if JobState_eqb k waiting then 0 else count_state k l.
Proof.
  unfold count_state.
  assert (length (List.filter (fun job => JobState_eqb (state job) k)
                    (List.filter
                       (fun j => negb (existsb (JobState_eqb (state j)) [waiting])) l))
          = if JobState_eqb k waiting then 0%nat
            else length (List.filter (fun job => JobState_eqb (state job) k) l)) as ->.
  { destruct k; simpl; induction l as [| j l IH]; simpl; try reflexivity;
      destruct j as [? ? [] ? ? ? ?]; simpl in *; congruence. }
  now destruct (JobState_eqb k waiting).
Qed.

Lemma PostgreSql_acquireJob_throws (c : Sql.Connection TPayload) now :
  Sql.select_next waiting c = [] ->
  fst (PostgreSqlPoolClient.acquireJob now c)
  = Throw (ThrownError AcquirableJobNotFoundError).
Proof.
  intros Hsel.
  assert (forall snap, Sql.select_next waiting
            (Sql.mkConnection (Sql.rows c) (Sql.serial c) snap) = []) as Hsel'
    by (intros snap; exact Hsel).
  unfold PostgreSqlPoolClient.acquireJob, PostgreSqlPoolClient.beginTransaction,
    try_catch, bind, modify, get.
  destruct c as [rows serial [saved |]]; simpl in *; now rewrite (Hsel' _).
Qed.

Lemma MySql_acquireJob_throws (c : Sql.Connection TPayload) now :
  Sql.select_next waiting c = [] ->
  fst (MySqlPoolClient.acquireJob now c)
  = Throw (ThrownError AcquirableJobNotFoundError).
Proof.
  intros Hsel.
  assert (forall snap, Sql.select_next waiting
            (Sql.mkConnection (Sql.rows c) (Sql.serial c) snap) = []) as Hsel'
    by (intros snap; exact Hsel).
  unfold MySqlPoolClient.acquireJob, MySqlPoolClient.beginTransaction,
    try_catch, bind, modify, get. simpl. now rewrite (Hsel' _).
Qed.

Lemma drained_not_waiting l (j : Job TPayload) :
  In j (List.filter (fun j => negb (existsb (JobState_eqb (state j)) [waiting])) l) ->
  is_waiting j = false.
Proof.
  intros Hj. apply filter_In in Hj as [_ Hj].
  rewrite not_in_waiting in Hj. now apply negb_true_iff.
Qed.

(** X21. After [drain()] the count of waiting jobs is 0, the count of
    every other state is what it was, and the next [acquireJob] throws
    [AcquirableJobNotFoundError], on every client. *)
Theorem drain_then_acquireJob (now : Z) (k : JobState) :
  (forall s : MockDatabasePoolClient.Statics TPayload,
     fst (MockDatabasePoolClient.acquireJob now
            (snd (AbstractDatabaseQueue.drain MockClient s)))
     = Throw (ThrownError AcquirableJobNotFoundError)
     /\ count_state k (MockDatabasePoolClient.jobs
                         (snd (AbstractDatabaseQueue.drain MockClient s)))
        = if JobState_eqb k waiting then 0
          else count_state k (MockDatabasePoolClient.jobs s))
  /\ (forall c : Sql.Connection TPayload,
        fst (PostgreSqlPoolClient.acquireJob now
               (snd (AbstractDatabaseQueue.drain PostgreSqlClient c)))
        = Throw (ThrownError AcquirableJobNotFoundError)
        /\ count_state k (Sql.rows (snd (AbstractDatabaseQueue.drain PostgreSqlClient c)))
           = if JobState_eqb k waiting then 0 else count_state k (Sql.rows c))
  /\ (forall c : Sql.Connection TPayload,
        fst (MySqlPoolClient.acquireJob now
               (snd (AbstractDatabaseQueue.drain MySqlClient c)))
        = Throw (ThrownError AcquirableJobNotFoundError)
        /\ count_state k (Sql.rows (snd (AbstractDatabaseQueue.drain MySqlClient c)))
           = if JobState_eqb k waiting then 0 else count_state k (Sql.rows c)).
Proof.
  split; [|split].
  - intros s. split; [|apply count_state_drained].
    rewrite Mock_acquireJob_none; [reflexivity|].
    apply (find_none_sorted compareJobs). intros j Hj.
    apply drained_not_waiting in Hj. unfold is_waiting in Hj.
    unfold MockDatabasePoolClient.acquirable. now rewrite Hj.
  - intros c. split; [|apply count_state_drained].
    apply PostgreSql_acquireJob_throws. apply select_next_none.
    intros j Hj. now apply drained_not_waiting in Hj.
  - intros c. split; [|apply count_state_drained].
    apply MySql_acquireJob_throws. apply select_next_none.
    intros j Hj. now apply drained_not_waiting in Hj.
Qed.
End DrainThenAcquire.

Section NewQueue.
Context {Driver : Type}.
Implicit Types (p : Process Driver).

(** X22. Constructing a queue under a free name returns a new object,
    registers it under the name, and leaves the other queues and the
    workers alone.  The queue has no worker, and it is running exactly
    when its [autostart] is asked for: no options object, an object
    without the key, or the key given as [true]; with the key given as
    [false] or as [undefined] it is left stopped. *)
Theorem new_Queue_runs_by_default (name : string) (options : option (Key bool)) p :
  instances p !! name = None ->
  let asked :=
    match options with
    | None => true
    | Some key_missing => true
    | Some key_undefined => false
    | Some (key_value b) => b
    end in
  exists this p' stored_options,
    new_Queue name options p = (Return this, p')
    /\ queues p !! this = None
    /\ instances p' = <[name := this]> (instances p)
    /\ queues p' = <[this := mkQueue name stored_options asked []]> (queues p)
    /\ autostart stored_options
       = match options with
         | None => Some true
         | Some key_missing => Some true
         | Some key_undefined => None
         | Some (key_value b) => Some b
         end
    /\ workers p' = workers p
    /\ isRunning this p' = asked.
Proof.
  intros Hfree asked. unfold new_Queue. rewrite bool_decide_eq_false_2.
  2:{ rewrite Hfree. now intros [? ?]. }
  assert (truthy_bool (autostart (merge_options options)) = asked) as ->.
  { unfold asked. destruct options as [[| | b] |]; reflexivity. }
  assert (autostart (merge_options options)
          = match options with
            | None => Some true
            | Some key_missing => Some true
            | Some key_undefined => None
            | Some (key_value b) => Some b
            end) as Hstored.
  { destruct options as [[| | b] |]; reflexivity. }
  set (this := fresh (dom (queues p))).
  assert (queues p !! this = None) as Hfresh.
  { apply not_elem_of_dom_1. apply is_fresh. }
  set (p1 := mkProcess _ _ _ _).
  assert (queues p1 !! this = Some (mkQueue name (merge_options options) false []))
    as Hq1 by apply lookup_insert_eq.
  assert (Queue_start this p1
          = mkProcess (<[name := this]> (instances p))
                      (<[this := mkQueue name (merge_options options) true []]> (queues p))
                      (workers p) (driver p)) as Hstart.
  { unfold Queue_start. rewrite Hq1. simpl. unfold set_queue, p1. simpl.
    now rewrite alter_insert_eq. }
  assert (forall b, isRunning this
                      (mkProcess (<[name := this]> (instances p))
                         (<[this := mkQueue name (merge_options options) b []]> (queues p))
                         (workers p) (driver p)) = b) as Hrun.
  { intros b. unfold isRunning. simpl. now rewrite lookup_insert_eq. }
  destruct asked.
  - exists this. eexists. exists (merge_options options).
    split; [reflexivity|]. rewrite Hstart. repeat split; auto.
  - exists this, p1, (merge_options options). split; [reflexivity|].
    repeat split; auto. apply Hrun.
Qed.
End NewQueue.

Lemma new_Queue_runs_by_default_witness :
  exists this p' stored_options,
    new_Queue "R" (Some key_undefined) process_with_Q = (Return this, p')
    /\ queues process_with_Q !! this = None
    /\ instances p' = <["R"%string := this]> (instances process_with_Q)
    /\ queues p' = <[this := mkQueue "R" stored_options false []]> (queues process_with_Q)
    /\ autostart stored_options = None
    /\ workers p' = workers process_with_Q
    /\ isRunning this p' = false.
Proof.
  apply (new_Queue_runs_by_default "R" (Some key_undefined) process_with_Q). reflexivity.
Defined.

(* ===================================================================== *)
(** * Every waiting job is settled once, whatever the processor does      *)
(* ===================================================================== *)

Lemma settled_on_worker_app {TPayload} (ev ev' : list (Emitted TPayload)) :
  settled_on_worker (ev ++ ev') = settled_on_worker ev ++ settled_on_worker ev'.
Proof. apply flat_map_app. Qed.

Section Settling.
Context {TPayload Store Env : Type}.
Variable client : AbstractDatabasePoolClient TPayload Store.
Variable now : Env -> Z.
Variable setTimeout : Z -> Env -> Env.
Variable processor : Job TPayload -> M Env unit.
Variable options : DatabaseWorkerOptions.
Variable emitter : QueueEmitter.

Lemma processJob_returned st e ev job st1 e' completedJob st2 :
  client_acquireJob client (now e) st = (Return job, st1) ->
  retry setTimeout (processor job) (maxRetries options) (retryInterval options) e
    = (Return tt, e') ->
  client_updateJobStateById client (id job) completed None (now e') st1
    = (Return completedJob, st2) ->
  processJob client now setTimeout processor options (mkWorld st e ev) =
    (Return tt, mkWorld st2 e' (ev ++ success_events job completedJob)).
Proof.
  intros Hacq Hretry Hupd.
  unfold processJob, bind, on_store at 1. simpl.
  rewrite Hacq. unfold emit, modify, try_catch, bind. simpl.
  unfold retry in *.
  rewrite (attempt_on_env _ _ _ _ _ _ (Z.to_nat (maxRetries options - 1))) by lia.
  rewrite Hretry. cbn. unfold on_store. cbn. rewrite Hupd. cbn.
  unfold success_events. rewrite <- !app_assoc. reflexivity.
Qed.

Lemma processJob_thrown st e ev job st1 t e' failedJob st2 :
  client_acquireJob client (now e) st = (Return job, st1) ->
  retry setTimeout (processor job) (maxRetries options) (retryInterval options) e
    = (Throw t, e') ->
  client_updateJobStateById client (id job) failed (Some (message (normalizeError t)))
                            (now e') st1
    = (Return failedJob, st2) ->
  processJob client now setTimeout processor options (mkWorld st e ev) =
    (Return tt, mkWorld st2 e' (ev ++ failure_events job failedJob (normalizeError t))).
Proof.
  intros Hacq Hretry Hupd.
  unfold processJob, bind, on_store at 1. simpl.
  rewrite Hacq. unfold emit, modify, try_catch, bind. simpl.
  unfold retry in *.
  rewrite (attempt_on_env _ _ _ _ _ _ (Z.to_nat (maxRetries options - 1))) by lia.
  rewrite Hretry. cbn -[normalizeError]. unfold on_store. cbn -[normalizeError].
  rewrite Hupd. cbn -[normalizeError].
  unfold failure_events. rewrite <- !app_assoc. reflexivity.
Qed.

Lemma cycle_of_step w w2 :
  processJob client now setTimeout processor options
             (World_setTimeout setTimeout (processingInterval options) w)
    = (Return tt, w2) ->
  processJobs_cycle client now setTimeout processor options emitter w
  = (Return tt, mkWorld (client_release client (store w2)) (env w2) (emitted w2)).
Proof.
  intros Hstep.
  unfold processJobs_cycle, try_catch, try_finally, bind, sleep, modify, emit. simpl.
  now rewrite Hstep.
Qed.

(** The loop over a store whose eligible jobs, in dequeue order, are
    [queue_of st]: if one turn settles the first of them and leaves the
    rest, then as many turns as there are eligible jobs settle them all,
    in that order. *)
Variable Inv : Store -> Prop.
Variable queue_of jobs_of : Store -> list (Job TPayload).
Hypothesis turn_settles : forall st e ev wj rest,
  Inv st -> queue_of st = wj :: rest ->
  exists st' e' evs settled,
    processJobs_cycle client now setTimeout processor options emitter (mkWorld st e ev)
    = (Return tt, mkWorld st' e' (ev ++ evs))
    /\ settled_on_worker evs = [settled]
    /\ settlement_of settled wj
    /\ Inv st' /\ queue_of st' = rest
    /\ (exists stored, In stored (jobs_of st') /\ ~ In stored rest
                       /\ id stored = id settled /\ state stored = state settled)
    /\ (forall j, In j (jobs_of st) -> ~ In j (wj :: rest) -> In j (jobs_of st')).

Lemma cycles_settle (ws : list (Job TPayload)) : forall st e ev,
  Inv st -> queue_of st = ws ->
  exists st' e' ev' ss,
    processJobs_cycles client now setTimeout processor options emitter (length ws)
                       (mkWorld st e ev)
    = (Return tt, mkWorld st' e' ev')
    /\ settled_on_worker ev' = settled_on_worker ev ++ ss
    /\ Forall2 settlement_of ss ws
    /\ (forall s, In s ss ->
          exists stored, In stored (jobs_of st') /\ id stored = id s
                         /\ state stored = state s)
    /\ (forall j, In j (jobs_of st) -> ~ In j ws -> In j (jobs_of st'))
    /\ queue_of st' = [].
Proof.
  induction ws as [| wj rest IH]; intros st e ev HInv Hqueue.
  - exists st, e, ev, []. simpl. unfold ret. rewrite app_nil_r.
    split; [reflexivity|]. split; [reflexivity|]. split; [constructor|].
    split; [intros s []|]. split; [auto | exact Hqueue].
  - destruct (turn_settles st e ev wj rest HInv Hqueue)
      as (st1 & e1 & evs & settled & Hcycle & Hevs & Hsettled & HInv1 & Hqueue1
          & (stored1 & Hin1 & Hout1 & Hid1 & Hst1) & Hkept1).
    destruct (IH st1 e1 (ev ++ evs) HInv1 Hqueue1)
      as (st' & e' & ev' & ss & Hrun & Hev & Hss & Hstored & Hkept & Hdone).
    exists st', e', ev', (settled :: ss).
    split; [|split; [|split; [|split; [|split]]]].
    + cbn [length processJobs_cycles]. unfold bind at 1. now rewrite Hcycle.
    + now rewrite Hev, settled_on_worker_app, Hevs, <- app_assoc.
    + now constructor.
    + intros s [<- | Hs]; [|now apply Hstored].
      exists stored1. split; [now apply Hkept | now split].
    + intros j Hj Hout. apply Hkept; [now apply Hkept1|].
      intros Hin. apply Hout. now right.
    + exact Hdone.
Qed.
End Settling.

Section MockSettling.
Context {TPayload Env : Type}.
Import MockDatabasePoolClient.
Variable now : Env -> Z.
Variable setTimeout : Z -> Env -> Env.
Variable processor : Job TPayload -> M Env unit.
Variable options : DatabaseWorkerOptions.
Variable emitter : QueueEmitter.

Lemma Mock_replaced (locked : list Z) (pre post rest : list (Job TPayload)) wj x :
  List.NoDup (map id (pre ++ wj :: post)) ->
  StronglySorted strictly_before (pre ++ wj :: post) ->
  List.filter (acquirable locked) pre = [] ->
  List.filter (acquirable locked) post = rest ->
  priority x = priority wj -> createdAt x = createdAt wj -> id x = id wj ->
  acquirable locked x = false ->
  List.NoDup (map id (pre ++ x :: post))
  /\ List.filter (acquirable locked) (Array_sort compareJobs (pre ++ x :: post)) = rest
  /\ In x (pre ++ x :: post)
  /\ ~ In x rest.
Proof.
  intros Hnd Hs Hpre Hpost Hp Hc Hi Hx.
  split; [|split; [|split]].
  - rewrite map_app in *. simpl in *. now rewrite Hi.
  - rewrite sort_strictly_sorted by now apply (strictly_sorted_replace pre wj post x).
    rewrite List.filter_app, Hpre. simpl. now rewrite Hx.
  - apply in_app_iff. right. now left.
  - intros Hin. rewrite <- Hpost in Hin. apply filter_In in Hin as [_ Hin]. congruence.
Qed.

Lemma Mock_turn_settles (s : Statics TPayload) e ev wj rest :
  List.NoDup (map id (jobs s)) ->
  List.filter (acquirable (lockedJobsIds s)) (Array_sort compareJobs (jobs s))
    = wj :: rest ->
  exists s' e' evs settled,
    processJobs_cycle MockClient now setTimeout processor options emitter (mkWorld s e ev)
    = (Return tt, mkWorld s' e' (ev ++ evs))
    /\ settled_on_worker evs = [settled]
    /\ settlement_of settled wj
    /\ List.NoDup (map id (jobs s'))
    /\ List.filter (acquirable (lockedJobsIds s')) (Array_sort compareJobs (jobs s'))
       = rest
    /\ (exists stored, In stored (jobs s') /\ ~ In stored rest
                       /\ id stored = id settled /\ state stored = state settled)
    /\ (forall j, In j (jobs s) -> ~ In j (wj :: rest) -> In j (jobs s')).
Proof.
  intros Hnd Hfilter.
  set (e0 := setTimeout (processingInterval options) e).
  set (t1 := now e0).
  destruct (filter_head_split _ _ _ _ Hfilter)
    as (pre & post & Hsorted & Hpre & Hpost & Hacq).
  pose proof (sorted_jobs_ids _ Hnd) as Hnds. rewrite Hsorted in Hnds.
  pose proof (sorted_jobs_strict _ Hnd) as Hstrict. rewrite Hsorted in Hstrict.
  assert (List.find (acquirable (lockedJobsIds s)) (Array_sort compareJobs (jobs s))
          = Some wj) as Hfind.
  { rewrite Hsorted. now apply find_after_rejected. }
  pose proof (Mock_acquireJob_some s t1 wj Hnd Hfind) as Hacquire.
  rewrite Hsorted, (update_first_at pre wj post (activated t1 wj) Hnds) in Hacquire.
  set (aj := activated t1 wj) in *.
  set (s1 := mkStatics (static_id s) (pre ++ aj :: post) (lockedJobsIds s)) in *.
  assert (map id (pre ++ aj :: post) = map id (pre ++ wj :: post)) as Hids1
    by now rewrite !map_app.
  assert (List.NoDup (map id (jobs s1))) as Hnd1 by (simpl; now rewrite Hids1).
  assert (In aj (jobs s1)) as Hin1 by (simpl; apply in_app_iff; right; now left).
  assert (forall st em t2,
            updateJobStateById (id aj) st em t2 s1
            = (Return (mkJob (id wj) (payload wj) st (priority wj) (optional_text em)
                             (createdAt wj) t2),
               mkStatics (static_id s)
                 (pre ++ mkJob (id wj) (payload wj) st (priority wj) (optional_text em)
                               (createdAt wj) t2 :: post)
                 (lockedJobsIds s))) as Hupdate.
  { intros st em t2.
    rewrite (Mock_update_found s1 (id aj) st em t2 aj Hnd1 Hin1 eq_refl).
    cbn [jobs s1 static_id lockedJobsIds].
    now rewrite (update_first_at pre aj post _ Hnd1). }
  assert (forall j, In j (jobs s) -> ~ In j (wj :: rest) ->
                    forall x, In j (pre ++ x :: post)) as Hkept.
  { intros j Hj Hout x.
    assert (In j (pre ++ wj :: post)) as Hj'.
    { rewrite <- Hsorted. eapply Permutation_in; [|exact Hj].
      symmetry. apply sorted_jobs_perm. }
    apply in_app_iff in Hj' as [Hj' | [<- | Hj']].
    - apply in_app_iff. now left.
    - exfalso. apply Hout. now left.
    - apply in_app_iff. right. now right. }
  destruct (retry setTimeout (processor aj) (maxRetries options) (retryInterval options) e0)
    as [[[] | t] e'] eqn:Hretry.
  - set (x := mkJob (id wj) (payload wj) completed (priority wj) (optional_text None)
                    (createdAt wj) (now e')).
    destruct (Mock_replaced (lockedJobsIds s) pre post rest wj x Hnds Hstrict Hpre Hpost
                eq_refl eq_refl eq_refl eq_refl) as (Hnd2 & Hrest2 & Hin2 & Hout2).
    exists (mkStatics (static_id s) (pre ++ x :: post) (lockedJobsIds s)), e',
      (success_events aj x), x.
    split.
    { apply (cycle_of_step MockClient now setTimeout processor options emitter
               (mkWorld s e ev)
               (mkWorld (mkStatics (static_id s) (pre ++ x :: post) (lockedJobsIds s))
                        e' (ev ++ success_events aj x))).
      apply (processJob_returned MockClient now setTimeout processor options
               s e0 ev aj s1 e' x _ Hacquire Hretry (Hupdate completed None (now e'))). }
    split; [reflexivity|]. split; [unfold settlement_of; simpl; auto 6|].
    split; [exact Hnd2|]. split; [exact Hrest2|].
    split; [exists x; auto|]. intros j Hj Hout. now apply Hkept.
  - set (msg := message (normalizeError t)).
    set (x := mkJob (id wj) (payload wj) failed (priority wj) (optional_text (Some msg))
                    (createdAt wj) (now e')).
    destruct (Mock_replaced (lockedJobsIds s) pre post rest wj x Hnds Hstrict Hpre Hpost
                eq_refl eq_refl eq_refl eq_refl) as (Hnd2 & Hrest2 & Hin2 & Hout2).
    exists (mkStatics (static_id s) (pre ++ x :: post) (lockedJobsIds s)), e',
      (failure_events aj x (normalizeError t)), x.
    split.
    { apply (cycle_of_step MockClient now setTimeout processor options emitter
               (mkWorld s e ev)
               (mkWorld (mkStatics (static_id s) (pre ++ x :: post) (lockedJobsIds s))
                        e' (ev ++ failure_events aj x (normalizeError t)))).
      apply (processJob_thrown MockClient now setTimeout processor options
               s e0 ev aj s1 t e' x _ Hacquire Hretry (Hupdate failed (Some msg) (now e'))). }
    split; [reflexivity|]. split; [unfold settlement_of; simpl; auto 6|].
    split; [exact Hnd2|]. split; [exact Hrest2|].
    split; [exists x; auto|]. intros j Hj Hout. now apply Hkept.
Qed.
End MockSettling.

Section SqlSettling.
Context {TPayload Env : Type}.
Variable client : AbstractDatabasePoolClient TPayload (Sql.Connection TPayload).
Variable touch : Z -> Job TPayload -> Job TPayload -> Z.
Hypothesis client_releases : forall c, client_release client c = c.
Hypothesis client_acquires : forall now c wj rest,
  List.NoDup (map id (Sql.rows c)) ->
  Sql.select_next waiting c = wj :: rest ->
  client_acquireJob client now c =
    (Return (activated now wj),
     Sql.mkConnection
       (Sql.rows (Sql.update_by_id (touch now) active undefined (id wj) c))
       (Sql.serial c) None).
Hypothesis client_updates : forall now c x st em,
  List.NoDup (map id (Sql.rows c)) -> In x (Sql.rows c) ->
  client_updateJobStateById client (id x) st em now c =
    (Return (with_errorMessage (Sql.update_row (touch now) st (optional_text em) x)),
     Sql.update_by_id (touch now) st (optional_text em) (id x) c).
Variable now : Env -> Z.
Variable setTimeout : Z -> Env -> Env.
Variable processor : Job TPayload -> M Env unit.
Variable options : DatabaseWorkerOptions.
Variable emitter : QueueEmitter.

Abbreviation waiting_in_order rows_ :=
  (Array_sort Sql.order_by
     (List.filter (fun r : Job TPayload => JobState_eqb (state r) waiting) rows_)).

Lemma Sql_replaced (pre post rest : list (Job TPayload)) wj x :
  List.NoDup (map id (pre ++ wj :: post)) ->
  waiting_in_order (pre ++ wj :: post) = wj :: rest ->
  JobState_eqb (state wj) waiting = true ->
  id x = id wj -> JobState_eqb (state x) waiting = false ->
  List.NoDup (map id (pre ++ x :: post))
  /\ waiting_in_order (pre ++ x :: post) = rest
  /\ ~ In x rest.
Proof.
  intros Hnd Hqueue Hw Hi Hx.
  assert (waiting_in_order (pre ++ x :: post) = rest) as Hrest.
  { rewrite List.filter_app. cbn [List.filter]. rewrite Hx.
    apply order_by_without_first with wj.
    - pose proof (filter_ids_distinct (fun r => JobState_eqb (state r) waiting) _ Hnd)
        as Hf.
      rewrite List.filter_app in Hf. cbn [List.filter] in Hf. now rewrite Hw in Hf.
    - rewrite List.filter_app in Hqueue. cbn [List.filter] in Hqueue.
      now rewrite Hw in Hqueue. }
  split; [|split; [exact Hrest|]].
  - rewrite map_app in *. simpl in *. now rewrite Hi.
  - intros Hin. rewrite <- Hrest in Hin.
    eapply Permutation_in in Hin; [|apply Array_sort_perm].
    apply filter_In in Hin as [_ Hin]. congruence.
Qed.

Lemma Sql_turn_settles (c : Sql.Connection TPayload) e ev wj rest :
  List.NoDup (map id (Sql.rows c)) ->
  waiting_in_order (Sql.rows c) = wj :: rest ->
  exists c' e' evs settled,
    processJobs_cycle client now setTimeout processor options emitter (mkWorld c e ev)
    = (Return tt, mkWorld c' e' (ev ++ evs))
    /\ settled_on_worker evs = [settled]
    /\ settlement_of settled wj
    /\ List.NoDup (map id (Sql.rows c'))
    /\ waiting_in_order (Sql.rows c') = rest
    /\ (exists stored, In stored (Sql.rows c') /\ ~ In stored rest
                       /\ id stored = id settled /\ state stored = state settled)
    /\ (forall j, In j (Sql.rows c) -> ~ In j (wj :: rest) -> In j (Sql.rows c')).
Proof.
  intros Hnd Hqueue.
  set (e0 := setTimeout (processingInterval options) e).
  set (t1 := now e0).
  assert (Sql.select_next waiting c = [wj]) as Hsel.
  { unfold Sql.select_next. now rewrite Hqueue. }
  destruct (select_next_first c wj [] Hsel) as (Hin & Hw & _).
  unfold is_waiting in Hw.
  pose proof (client_acquires t1 c wj [] Hnd Hsel) as Hacq.
  destruct (in_split _ _ Hin) as (pre & post & Hrows).
  rewrite Hrows in Hqueue.
  assert (List.NoDup (map id (pre ++ wj :: post))) as Hnd0 by now rewrite <- Hrows.
  set (x1 := Sql.update_row (touch t1) active undefined wj).
  assert (Sql.rows (Sql.update_by_id (touch t1) active undefined (id wj) c)
          = pre ++ x1 :: post) as Hrows1.
  { unfold Sql.update_by_id. cbn [Sql.rows]. rewrite Hrows. now apply map_update_at. }
  rewrite Hrows1 in Hacq.
  set (c1 := Sql.mkConnection (pre ++ x1 :: post) (Sql.serial c) None) in *.
  assert (map id (pre ++ x1 :: post) = map id (pre ++ wj :: post)) as Hids1
    by now rewrite !map_app.
  assert (List.NoDup (map id (Sql.rows c1))) as Hnd1 by (simpl; now rewrite Hids1).
  assert (In x1 (Sql.rows c1)) as Hin1 by (simpl; apply in_app_iff; right; now left).
  assert (forall st em t2,
            Sql.rows (Sql.update_by_id (touch t2) st (optional_text em) (id x1) c1)
            = pre ++ Sql.update_row (touch t2) st (optional_text em) x1 :: post)
    as Hrows2.
  { intros st em t2. unfold Sql.update_by_id. cbn [Sql.rows c1].
    now apply map_update_at. }
  assert (forall j, In j (Sql.rows c) -> ~ In j (wj :: rest) ->
                    forall x, In j (pre ++ x :: post)) as Hkept.
  { intros j Hj Hout x. rewrite Hrows in Hj.
    apply in_app_iff in Hj as [Hj | [<- | Hj]].
    - apply in_app_iff. now left.
    - exfalso. apply Hout. now left.
    - apply in_app_iff. right. now right. }
  destruct (retry setTimeout (processor (activated t1 wj)) (maxRetries options)
                  (retryInterval options) e0)
    as [[[] | t] e'] eqn:Hretry.
  - pose proof (client_updates (now e') c1 x1 completed None Hnd1 Hin1) as Hupd.
    set (x2 := Sql.update_row (touch (now e')) completed (optional_text None) x1) in *.
    destruct (Sql_replaced pre post rest wj x2 Hnd0 Hqueue Hw eq_refl eq_refl)
      as (Hnd2 & Hrest2 & Hout2).
    exists (Sql.update_by_id (touch (now e')) completed (optional_text None) (id x1) c1),
      e', (success_events (activated t1 wj) (with_errorMessage x2)), (with_errorMessage x2).
    split.
    { rewrite (cycle_of_step client now setTimeout processor options emitter
                 (mkWorld c e ev) _
                 (processJob_returned client now setTimeout processor options
                    c e0 ev (activated t1 wj) c1 e' _ _ Hacq Hretry Hupd)).
      cbn [store env emitted]. now rewrite client_releases. }
    rewrite Hrows2. fold x2.
    split; [reflexivity|]. split; [unfold settlement_of; simpl; auto 6|].
    split; [exact Hnd2|]. split; [exact Hrest2|]. split.
    + exists x2. split; [apply in_app_iff; right; now left|]. auto.
    + intros j Hj Hout. now apply Hkept.
  - set (msg := message (normalizeError t)).
    pose proof (client_updates (now e') c1 x1 failed (Some msg) Hnd1 Hin1) as Hupd.
    set (x2 := Sql.update_row (touch (now e')) failed (optional_text (Some msg)) x1) in *.
    destruct (Sql_replaced pre post rest wj x2 Hnd0 Hqueue Hw eq_refl eq_refl)
      as (Hnd2 & Hrest2 & Hout2).
    exists (Sql.update_by_id (touch (now e')) failed (optional_text (Some msg)) (id x1) c1),
      e', (failure_events (activated t1 wj) (with_errorMessage x2) (normalizeError t)),
      (with_errorMessage x2).
    split.
    { rewrite (cycle_of_step client now setTimeout processor options emitter
                 (mkWorld c e ev) _
                 (processJob_thrown client now setTimeout processor options
                    c e0 ev (activated t1 wj) c1 t e' _ _ Hacq Hretry Hupd)).
      cbn [store env emitted]. now rewrite client_releases. }
    rewrite Hrows2. fold x2.
    split; [reflexivity|]. split; [unfold settlement_of; simpl; auto 6|].
    split; [exact Hnd2|]. split; [exact Hrest2|]. split.
    + exists x2. split; [apply in_app_iff; right; now left|]. auto.
    + intros j Hj Hout. now apply Hkept.
Qed.
End SqlSettling.


